(** * VQ-VAE: vector quantizer, EMA codebook update and straight-through loss

    Shallow embedding of [tensorflow_probability/examples/vq_vae.py]
    ([VectorQuantizer.__init__], [VectorQuantizer.__call__], [make_vq_vae],
    the loop of [main] and the [decay] flag).

    Numbers.  The program computes on [tf.float32] tensors.  Here every
    tensor entry is a scalar of a type [T] with the arithmetic the program
    uses ([Scalar]); three instances are given:
    - [Float32.F32_Scalar]: IEEE 754 binary32, every operation rounded, the
      arithmetic the program runs on;
    - [R]: exact real arithmetic, what the formulas of the program mean
      when nothing is rounded (overflow and NaN do not exist there);
    - [Dual]: a value together with its derivative along one direction of
      perturbation of the inputs (forward-mode differentiation), on which
      [tf.stop_gradient] keeps the value and drops the derivative.
    A statement over every [Scalar] holds in all three; a statement over
    [R] is one of exact arithmetic and says so.

    Tensors.  A rank-1 tensor is a [list], a rank-2 tensor a list of rows,
    a rank-3 tensor [[batch, latent, code]] a list of lists of rows.  Static
    shapes are side conditions ([has_shape2], [has_shape3], [wf_vq]):
    element-wise operations are written for operands of one shape, as the
    program uses them, and broadcasting of other shapes is not modelled.

    TensorFlow primitives ([tf.norm], [tf.one_hot], [tf.reduce_sum],
    [tf.reduce_mean], [tf.assign], [moving_averages.assign_moving_average])
    are written out from their documentation, [tf.argmin] from its reference
    kernel: the documentation leaves the index returned on a tie open, and
    [call_with] leaves it open too.  A sum is taken in one fixed order, from
    the last summand to the first; TensorFlow does not document the order
    of a reduction, and in float32 a sum of three or more nonzero terms can
    depend on it.  The float32 runs below add at most two nonzero terms,
    for which the order does not matter. *)

From Stdlib Require Import Reals List Arith Bool Lia Lra.
Import ListNotations.

Local Open Scope R_scope.

(** ** Scalars *)

Class Scalar (T : Type) : Type := {
  const : R -> T;                 (* a Python float turned into a tensor entry *)
  value : T -> R;                 (* what a [sess.run] fetch returns *)
  sadd : T -> T -> T;
  ssub : T -> T -> T;
  smul : T -> T -> T;
  sdiv : T -> T -> T;
  sneg : T -> T;
  ssqrt : T -> T;
  stop_gradient : T -> T
}.

(** Less-than on scalars, as a kernel compares them: on forward values. *)
Definition sltb {T} `{Scalar T} (x y : T) : bool :=
  if Rlt_dec (value x) (value y) then true else false.

#[export] Instance R_Scalar : Scalar R := {|
  const := fun r => r;
  value := fun r => r;
  sadd := Rplus;
  ssub := Rminus;
  smul := Rmult;
  sdiv := Rdiv;
  sneg := Ropp;
  ssqrt := sqrt;
  stop_gradient := fun r => r
|}.

(** A value and its derivative in one fixed direction. *)
Record Dual : Type := mkDual { val : R; tan : R }.

#[export] Instance Dual_Scalar : Scalar Dual := {|
  const := fun r => mkDual r 0;
  value := val;
  sadd := fun x y => mkDual (val x + val y) (tan x + tan y);
  ssub := fun x y => mkDual (val x - val y) (tan x - tan y);
  smul := fun x y => mkDual (val x * val y) (tan x * val y + val x * tan y);
  sdiv := fun x y => mkDual (val x / val y)
                            ((tan x * val y - val x * tan y) / (val y * val y));
  sneg := fun x => mkDual (- val x) (- tan x);
  ssqrt := fun x => mkDual (sqrt (val x)) (tan x / (2 * sqrt (val x)));
  stop_gradient := fun x => mkDual (val x) 0
|}.

(** ** Tensor primitives *)

Section Tensors.
Context {T : Type} `{Scalar T}.

(** Element-wise binary operation on two tensors of one shape. *)
Fixpoint map2 {A B C : Type} (f : A -> B -> C) (xs : list A) (ys : list B)
  : list C :=
  match xs, ys with
  | x :: xs', y :: ys' => f x y :: map2 f xs' ys'
  | _, _ => []
  end.

(** [tf.reduce_sum] of a rank-1 tensor. *)
Definition reduce_sum (xs : list T) : T :=
  fold_right sadd (const 0) xs.

(** [tf.reduce_sum(rows, axis=0)] where each row has [d] entries. *)
Definition reduce_sum_rows (d : nat) (rows : list (list T)) : list T :=
  fold_right (map2 sadd) (repeat (const 0) d) rows.

(** [tf.square]. *)
Definition square (x : T) : T := smul x x.

(** [tf.norm(v)] over the last axis: the Euclidean norm. *)
Definition norm (v : list T) : T :=
  ssqrt (reduce_sum (map square v)).

(** [tf.argmin] over one axis.  The reference (CPU) kernel scans the axis
    from index 0 and replaces the running minimum only by a strictly smaller
    entry, as [numpy.argmin] does; an empty axis is an error. *)
Fixpoint argmin_scan (best_i : nat) (best : T) (i : nat) (xs : list T)
  : nat :=
  match xs with
  | [] => best_i
  | x :: xs' =>
      if sltb x best
      then argmin_scan i x (S i) xs'
      else argmin_scan best_i best (S i) xs'
  end.

Definition argmin (xs : list T) : option nat :=
  match xs with
  | [] => None
  | x :: xs' => Some (argmin_scan 0%nat x 1%nat xs')
  end.

(** [tf.one_hot(i, depth)]: on-value 1, off-value 0. *)
Definition one_hot (depth i : nat) : list T :=
  map (fun k => if Nat.eqb k i then const 1 else const 0) (seq 0 depth).

(** [mapM] for [option]: the first failure aborts. *)
Fixpoint mapM {A B : Type} (f : A -> option B) (xs : list A)
  : option (list B) :=
  match xs with
  | [] => Some []
  | x :: xs' =>
      match f x with
      | None => None
      | Some y =>
          match mapM f xs' with
          | None => None
          | Some ys => Some (y :: ys)
          end
      end
  end.

(** ** The vector quantizer *)

Record VectorQuantizer : Type := mkVQ {
  num_codes : nat;
  code_size : nat;
  codebook : list (list T);     (* [num_codes, code_size], trainable *)
  ema_count : list T;           (* [num_codes] *)
  ema_means : list (list T)     (* [num_codes, code_size] *)
}.

(** [VectorQuantizer.__init__]; [init] is the value the default
    initializer draws for [codebook]. *)
Definition init_VectorQuantizer (num_codes code_size : nat)
    (init : list (list T)) : VectorQuantizer :=
  {| num_codes := num_codes;
     code_size := code_size;
     codebook := init;
     ema_count := repeat (const 0) num_codes;
     ema_means := init |}.

(** [distances = tf.norm(expand_dims(codes, 2) - reshape(codebook), axis=3)] *)
Definition distances (vq : VectorQuantizer) (codes : list (list (list T)))
  : list (list (list T)) :=
  map (map (fun c => map (fun e => norm (map2 ssub c e)) (codebook vq)))
      codes.

(** [nearest = reduce_sum(expand_dims(one_hot, -1) * reshape(codebook), axis=2)]
    at one latent position. *)
Definition select_row (vq : VectorQuantizer) (oh : list T) : list T :=
  reduce_sum_rows (code_size vq)
    (map2 (fun o e => map (smul o) e) oh (codebook vq)).

(** [VectorQuantizer.__call__]: nearest codebook entries and one-hot
    assignments. *)
Definition call (vq : VectorQuantizer) (codes : list (list (list T)))
  : option (list (list (list T)) * list (list (list T))) :=
  match mapM (mapM argmin) (distances vq codes) with
  | None => None
  | Some assignments =>
      let one_hot_assignments :=
        map (map (one_hot (num_codes vq))) assignments in
      let nearest_codebook_entries :=
        map (map (select_row vq)) one_hot_assignments in
      Some (nearest_codebook_entries, one_hot_assignments)
  end.

End Tensors.

Arguments VectorQuantizer T : clear implicits.

(** ** Static shapes *)

Definition has_shape2 {A : Type} (n m : nat) (t : list (list A)) : Prop :=
  length t = n /\ Forall (fun row => length row = m) t.

Definition has_shape3 {A : Type} (b l d : nat) (t : list (list (list A)))
  : Prop :=
  length t = b /\ Forall (has_shape2 l d) t.

(** The shapes [__init__] gives the three variables; [tf.assign] and
    [assign_sub] keep them. *)
Definition wf_vq {T : Type} (vq : VectorQuantizer T) : Prop :=
  has_shape2 (num_codes vq) (code_size vq) (codebook vq) /\
  length (ema_count vq) = num_codes vq /\
  has_shape2 (num_codes vq) (code_size vq) (ema_means vq).

(** ** The model, its loss and the codebook update *)

Section Model.
Context {T : Type} `{Scalar T}.

(** [tf.reduce_mean] of a rank-1 tensor. *)
Definition reduce_mean (xs : list T) : T :=
  sdiv (reduce_sum xs) (const (INR (length xs))).

(** [moving_averages.assign_moving_average(variable, value, decay,
    zero_debias=False)] on one entry: [variable -= (1 - decay) * (variable -
    value)]; the result is the new content of the variable.  [decay] is a
    Python float. *)
Definition assign_moving_average (variable value : T) (decay : R) : T :=
  ssub variable (smul (ssub variable value) (const (1 - decay))).

(** [tf.reduce_sum(one_hot_assignments, axis=[0, 1])] *)
Definition batch_counts (vq : VectorQuantizer T)
    (one_hot_assignments : list (list (list T))) : list T :=
  reduce_sum_rows (num_codes vq) (concat one_hot_assignments).

(** [tf.reduce_sum(rows, axis=0)] for [n x d] matrices. *)
Definition reduce_sum_mats (n d : nat) (ms : list (list (list T)))
  : list (list T) :=
  fold_right (map2 (map2 sadd)) (repeat (repeat (const 0) d) n) ms.

(** [tf.expand_dims(codes, 2) * tf.expand_dims(one_hot_assignments, 3)] at one
    latent position: a [num_codes x code_size] matrix. *)
Definition outer (code oh : list T) : list (list T) :=
  map (fun o => map (fun c => smul c o) code) oh.

(** [tf.reduce_sum(expand_dims(codes, 2) * expand_dims(one_hot, 3),
    axis=[0, 1])] *)
Definition batch_means (vq : VectorQuantizer T)
    (codes one_hot_assignments : list (list (list T))) : list (list T) :=
  reduce_sum_mats (num_codes vq) (code_size vq)
    (map2 outer (concat codes) (concat one_hot_assignments)).

(** [codes + tf.stop_gradient(nearest_codebook_entries - codes)] *)
Definition straight_through (codes nearest : list (list (list T)))
  : list (list (list T)) :=
  map2 (map2 (map2 (fun c n => sadd c (stop_gradient (ssub n c)))))
       codes nearest.

(** [tf.reduce_mean(tf.square(codes - tf.stop_gradient(nearest)))] *)
Definition commitment (codes nearest : list (list (list T))) : T :=
  reduce_mean
    (concat (concat
       (map2 (map2 (map2 (fun c n => square (ssub c (stop_gradient n)))))
             codes nearest))).

(** What one run of the graph built by [make_vq_vae] leaves behind. *)
Record StepResult (Distribution : Type) : Type := mkStep {
  loss : T;
  decoder_distribution : Distribution;
  reconstruction_loss : T;
  commitment_loss : T;
  updated_ema_count : list T;       (* after [+= 1e-5] *)
  updated_ema_means : list (list T);  (* after [/= ...] *)
  vq_after : VectorQuantizer T      (* the three variables after the run *)
}.

Arguments mkStep {Distribution}.
Arguments loss {Distribution}.
Arguments decoder_distribution {Distribution}.
Arguments reconstruction_loss {Distribution}.
Arguments commitment_loss {Distribution}.
Arguments updated_ema_count {Distribution}.
Arguments updated_ema_means {Distribution}.
Arguments vq_after {Distribution}.

Section MakeVqVae.
Variables Image Distribution : Type.
(** [decoder_distribution.log_prob(images)], one entry per batch element. *)
Variable log_prob : Distribution -> Image -> list T.

(** [make_vq_vae], as one evaluation of the graph it builds. *)
Definition make_vq_vae
    (images : Image)
    (encoder_fn : Image -> list (list (list T)))
    (decoder_fn : list (list (list T)) -> Distribution)
    (vector_quantizer : VectorQuantizer T)
    (beta decay : R) : option (StepResult Distribution) :=
  let codes := encoder_fn images in
  match call vector_quantizer codes with
  | None => None
  | Some (nearest_codebook_entries, one_hot_assignments) =>
      let codes_straight_through :=
        straight_through codes nearest_codebook_entries in
      let decoder_distribution := decoder_fn codes_straight_through in
      let reconstruction_loss :=
        sneg (reduce_mean (log_prob decoder_distribution images)) in
      let commitment_loss := commitment codes nearest_codebook_entries in
      (* the two variables now hold the moving averages *)
      let ema_count' :=
        map2 (fun v x => assign_moving_average v x decay)
             (ema_count vector_quantizer)
             (batch_counts vector_quantizer one_hot_assignments) in
      let ema_means' :=
        map2 (map2 (fun v x => assign_moving_average v x decay))
             (ema_means vector_quantizer)
             (batch_means vector_quantizer codes one_hot_assignments) in
      (* updated_ema_count += 1e-5: a new tensor, the variable is not assigned *)
      let updated_ema_count := map (fun c => sadd c (const 1e-5)) ema_count' in
      (* updated_ema_means /= tf.expand_dims(updated_ema_count, axis=-1) *)
      let updated_ema_means :=
        map2 (fun row c => map (fun m => sdiv m c) row)
             ema_means' updated_ema_count in
      (* update_means = tf.assign(codebook, updated_ema_means) *)
      let loss := sadd (smul (const beta) commitment_loss) reconstruction_loss in
      Some {| loss := loss;
              decoder_distribution := decoder_distribution;
              reconstruction_loss := reconstruction_loss;
              commitment_loss := commitment_loss;
              updated_ema_count := updated_ema_count;
              updated_ema_means := updated_ema_means;
              vq_after :=
                {| num_codes := num_codes vector_quantizer;
                   code_size := code_size vector_quantizer;
                   codebook := updated_ema_means;
                   ema_count := ema_count';
                   ema_means := ema_means' |} |}
  end.

(** One [sess.run] of [main] that fetches [loss] (a training step, or the
    summaries): the optimizer has left some encoder and decoder behind, the
    input pipeline delivers some images, and the graph is evaluated once. *)
Definition Step : Type :=
  (Image * (Image -> list (list (list T)))
   * (list (list (list T)) -> Distribution))%type.

(** The loop of [main], as far as the quantizer's variables go. *)
Fixpoint train (vq : VectorQuantizer T) (beta decay : R) (steps : list Step)
  : option (VectorQuantizer T) :=
  match steps with
  | [] => Some vq
  | (images, encoder_fn, decoder_fn) :: steps' =>
      match make_vq_vae images encoder_fn decoder_fn vq beta decay with
      | None => None
      | Some r => train (vq_after r) beta decay steps'
      end
  end.

End MakeVqVae.
End Model.

Arguments mkStep {T Distribution}.
Arguments loss {T Distribution}.
Arguments decoder_distribution {T Distribution}.
Arguments reconstruction_loss {T Distribution}.
Arguments commitment_loss {T Distribution}.
Arguments updated_ema_count {T Distribution}.
Arguments updated_ema_means {T Distribution}.
Arguments vq_after {T Distribution}.
Arguments make_vq_vae {T _ Image Distribution}.
Arguments train {T _ Image Distribution}.
Arguments Step T Image Distribution : clear implicits.

(** ** The [decay] flag *)

(** [flags.DEFINE_float(name, default, help, lower_bound=None,
    upper_bound=None)] *)
Record FloatFlag : Type := DEFINE_float {
  flag_default : R;
  lower_bound : option R;
  upper_bound : option R
}.

(** The parser of a float flag refuses a value only when a bound is given
    and the value is beyond it. *)
Definition is_outside_bounds (f : FloatFlag) (v : R) : bool :=
  match lower_bound f with
  | Some lo => if Rlt_dec v lo then true else false
  | None => false
  end
  ||
  match upper_bound f with
  | Some hi => if Rlt_dec hi v then true else false
  | None => false
  end.

Definition parse_float (f : FloatFlag) (v : R) : option R :=
  if is_outside_bounds f v then None else Some v.

(** [flags.DEFINE_float("decay", default=0.99, help=...)] *)
Definition decay_flag : FloatFlag := DEFINE_float 0.99 None None.

(** [FLAGS.decay] when the command line gives [given]. *)
Definition FLAGS_decay (given : option R) : option R :=
  match given with
  | None => Some (flag_default decay_flag)
  | Some v => parse_float decay_flag v
  end.

(** [main], as far as [decay] goes: the flag value goes to [make_vq_vae]
    as it is; [given] is what the command line says. *)
Definition main {T : Type} `{Scalar T} {Image Distribution : Type}
    (log_prob : Distribution -> Image -> list T) (images : Image)
    (encoder_fn : Image -> list (list (list T)))
    (decoder_fn : list (list (list T)) -> Distribution)
    (vector_quantizer : VectorQuantizer T) (beta : R) (given : option R)
  : option (StepResult Distribution) :=
  match FLAGS_decay given with
  | None => None
  | Some decay =>
      make_vq_vae log_prob images encoder_fn decoder_fn vector_quantizer
                  beta decay
  end.

(** ** Specification-side notions *)

(** [k] is the first index among those that minimise [vs]. *)
Definition is_first_min (vs : list R) (k : nat) : Prop :=
  (k < length vs)%nat /\
  (forall j, (j < length vs)%nat -> nth k vs 0 <= nth j vs 0) /\
  (forall j, (j < k)%nat -> nth k vs 0 < nth j vs 0).

(** A row with exactly one entry equal to 1 and every other entry 0. *)
Definition is_one_hot (row : list R) : Prop :=
  exists i, (i < length row)%nat /\
    nth i row 0 = 1 /\
    (forall j, (j < length row)%nat -> j <> i -> nth j row 0 = 0).

(** Sum of a list of reals. *)
Definition sum_list (xs : list R) : R := fold_right Rplus 0 xs.

(** [batch_counts[k]]: the sum of [one_hot[b, l, k]] over all batch and
    latent positions. *)
Definition spec_batch_count (one_hot_assignments : list (list (list R)))
    (k : nat) : R :=
  sum_list (map (fun orow => sum_list (map (fun o => nth k o 0) orow))
                one_hot_assignments).

(** [batch_means[k][j]]: the sum of [one_hot[b, l, k] * codes[b, l, j]] over
    all batch and latent positions. *)
Definition spec_batch_mean (codes one_hot_assignments : list (list (list R)))
    (k j : nat) : R :=
  sum_list
    (map (fun p =>
            sum_list (map (fun q => nth k (snd q) 0 * nth j (fst q) 0)
                          (combine (fst p) (snd p))))
         (combine codes one_hot_assignments)).

(** Every code has [code_size] entries and every one-hot row [num_codes]. *)
Definition aligned {T : Type} (vq : VectorQuantizer T)
    (codes oh : list (list (list T))) : Prop :=
  Forall2 (Forall2 (fun c o =>
      length c = code_size vq /\ length o = num_codes vq)) codes oh.

(** The encoder of a training step returns codes of shape
    [[batch, latent, d]]. *)
Definition step_shaped {T Image Distribution : Type} (d : nat)
    (s : Step T Image Distribution) : Prop :=
  exists b l, has_shape3 b l d (snd (fst s) (fst (fst s))).

(** No position of the batch is assigned to code [k]. *)
Definition unassigned (k : nat) (one_hot_assignments : list (list (list R)))
  : Prop :=
  Forall (Forall (fun o => nth k o 0 = 0)) one_hot_assignments.

(** A tensor whose entries do not vary with the direction of
    differentiation. *)
Definition tangent_free (xs : list Dual) : Prop :=
  Forall (fun x => tan x = 0) xs.

Definition tangent_free3 (t : list (list (list Dual))) : Prop :=
  Forall (Forall tangent_free) t.

(** Forward values of a quantizer under differentiation. *)
Definition forward3 (t : list (list (list Dual))) : list (list (list R)) :=
  map (map (map val)) t.

Definition forward_vq (vq : VectorQuantizer Dual) : VectorQuantizer R :=
  {| num_codes := num_codes vq;
     code_size := code_size vq;
     codebook := map (map val) (codebook vq);
     ema_count := map val (ema_count vq);
     ema_means := map (map val) (ema_means vq) |}.

(** Euclidean distance between two vectors of reals. *)
Definition euclidean_distance (x y : list R) : R :=
  sqrt (fold_right Rplus 0
          (map (fun p => (fst p - snd p) * (fst p - snd p)) (combine x y))).

(** ** The scenarios of the specification *)

Definition scenario_codebook : list (list R) :=
  [[0; 0]; [10; 10]; [-10; 10]; [10; -10]].

Definition scenario_vq : VectorQuantizer R :=
  init_VectorQuantizer 4 2 scenario_codebook.

(** A decoder for the scenarios: the distribution is the decoder's input,
    its log-probability the negated squared norm of each batch element. *)
Definition toy_decoder {T : Type} (z : list (list (list T)))
  : list (list (list T)) := z.

Definition toy_log_prob {T : Type} `{Scalar T}
    (d : list (list (list T))) (images : unit) : list T :=
  map (fun z => sneg (reduce_sum (map square (concat z)))) d.

(** Two codes near entry 0 of the scenario codebook: batch count 2 and
    vector sum [1, 1] for code 0. *)
Definition scenario_batch : list (list (list R)) :=
  [[[0.1; 0.1]]; [[0.9; 0.9]]].

Definition scenario_encoder (images : unit) : list (list (list R)) :=
  scenario_batch.

(** The scenario under differentiation: every codebook entry is perturbed
    at rate 1, the codes are not perturbed. *)
Definition dual_scenario_vq : VectorQuantizer Dual :=
  init_VectorQuantizer 4 2
    (map (map (fun v => mkDual v 1)) scenario_codebook).

Definition dual_scenario_encoder (images : unit) : list (list (list Dual)) :=
  map (map (map (fun v => mkDual v 0))) scenario_batch.

(** Two entries at the same distance from the origin. *)
Definition tie_vq : VectorQuantizer R :=
  init_VectorQuantizer 2 2 [[1; 0]; [-1; 0]].

(** The encoder of a step returns codes of shape [[b, l, d]] exactly. *)
Definition step_shaped_as {T Image Distribution : Type} (b l d : nat)
    (s : Step T Image Distribution) : Prop :=
  has_shape3 b l d (snd (fst s) (fst (fst s))).

(** ** The encoder and the decoder *)

Section Layers.
Context {T : Type} `{Scalar T}.

(** The variables of a [tf.keras.layers.Dense]: a kernel of shape
    [[inputs, units]] and a bias of shape [[units]]. *)
Record DenseWeights : Type := mkDense {
  kernel : list (list T);
  bias : list T
}.

(** [tf.keras.layers.Dense(units, activation)] on one example:
    [activation(x . kernel + bias)]. *)
Definition dense (units : nat) (activation : T -> T) (w : DenseWeights)
    (x : list T) : list T :=
  map activation
    (map2 sadd
       (reduce_sum_rows units
          (map2 (fun xi row => map (smul xi) row) x (kernel w)))
       (bias w)).

(** [tf.keras.layers.Flatten()] on one example of rank 2. *)
Definition flatten (x : list (list T)) : list T := concat x.

(** [tf.keras.layers.Reshape([n, d])] on one example: row [i] holds the
    entries [i * d, ..., i * d + d - 1]. *)
Definition reshape2 {A : Type} (n d : nat) (v : list A) : list (list A) :=
  map (fun i => firstn d (skipn (i * d) v)) (seq 0 n).

(** The hidden layers [Dense(units, activation) for units in layers], in
    order. *)
Definition hidden_layers (layers : list nat) (activation : T -> T)
    (hidden : list DenseWeights) (x : list T) : list T :=
  fold_left (fun x uw => dense (fst uw) activation (snd uw) x)
            (combine layers hidden) x.

(** [make_encoder]: the function it returns, on a batch of images
    [[batch, height, width]] of integers.  [hidden] and [final] are the
    variables of the layers. *)
Definition make_encoder (layers : list nat) (activation : T -> T)
    (latent_size code_size : nat)
    (hidden : list DenseWeights) (final : DenseWeights)
    (images : list (list (list Z))) : list (list (list T)) :=
  (* images = tf.cast(images, dtype=tf.float32) *)
  let images := map (map (map (fun z => const (IZR z)))) images in
  (* codes = encoder_net(images) *)
  map (fun image =>
         reshape2 latent_size code_size
           (dense (latent_size * code_size) (fun x => x) final
              (hidden_layers layers activation hidden (flatten image))))
      images.

(** [make_decoder] with [output_shape = [height, width]]: the logits of the
    distribution it returns, [[batch, height, width]]. *)
Definition make_decoder (layers : list nat) (activation : T -> T)
    (height width : nat)
    (hidden : list DenseWeights) (final : DenseWeights)
    (codes : list (list (list T))) : list (list (list T)) :=
  (* net = decoder_net(codes); logits = tf.reshape(net, shape=new_shape) *)
  map (fun code =>
         reshape2 height width
           (dense (height * width) (fun x => x) final
              (hidden_layers layers activation hidden (flatten code))))
      codes.

End Layers.

Arguments DenseWeights T : clear implicits.

(** A [Dense] layer built for [inputs] inputs and [units] units. *)
Definition wf_dense {T : Type} (inputs units : nat) (w : DenseWeights T)
  : Prop :=
  has_shape2 inputs units (kernel w) /\ length (bias w) = units.

(** The hidden layers are built one for the output of the other, the first
    for [inputs] inputs; [last] is the size of what they return. *)
Fixpoint wf_hidden {T : Type} (inputs : nat) (layers : list nat)
    (hidden : list (DenseWeights T)) (last : nat) : Prop :=
  match layers, hidden with
  | [], [] => last = inputs
  | units :: layers', w :: hidden' =>
      wf_dense inputs units w /\ wf_hidden units layers' hidden' last
  | _, _ => False
  end.

(** ** The Bernoulli distribution of the decoder, in forward values *)

(** [tf.nn.sigmoid_cross_entropy_with_logits(labels=z, logits=x)]:
    [max(x, 0) - x * z + log(1 + exp(-abs(x)))]. *)
Definition sigmoid_cross_entropy_with_logits (labels logits : R) : R :=
  Rmax logits 0 - logits * labels + ln (1 + exp (- Rabs logits)).

(** [tfd.Bernoulli(logits).log_prob(event)] on one entry. *)
Definition bernoulli_log_prob (logits : R) (event : Z) : R :=
  - sigmoid_cross_entropy_with_logits (IZR event) logits.

(** [tfd.Independent(tfd.Bernoulli(logits), reinterpreted_batch_ndims=2)
    .log_prob(images)]: the entries of one image are summed. *)
Definition independent_log_prob (logits : list (list (list R)))
    (images : list (list (list Z))) : list R :=
  map2 (fun lg image =>
          reduce_sum (concat (map2 (map2 bernoulli_log_prob) lg image)))
       logits images.



(** ** The images [main] feeds to the model *)

(** [IMAGE_SHAPE = [28, 28]] *)
Definition IMAGE_HEIGHT : nat := 28.
Definition IMAGE_WIDTH : nat := 28.

(** [tf.cast(x > 0.5, dtype=tf.int32)] on one entry. *)
Definition binarize (x : R) : Z := if Rlt_dec 0.5 x then 1%Z else 0%Z.

(** [images = tf.reshape(images, shape=[-1] + IMAGE_SHAPE)] followed by
    [images = tf.cast(images > 0.5, dtype=tf.int32)]; the reshape fails when
    the number of entries is no multiple of the size of an image. *)
Definition preprocess (images : list (list R))
  : option (list (list (list Z))) :=
  let entries := concat images in
  let size := (IMAGE_HEIGHT * IMAGE_WIDTH)%nat in
  if Nat.eqb (length entries mod size) 0
  then Some (map (fun image =>
                    map (map binarize) (reshape2 IMAGE_HEIGHT IMAGE_WIDTH image))
                 (reshape2 (length entries / size) size entries))
  else None.

(** Every pixel is 0 or 1. *)
Definition binary_images (images : list (list (list Z))) : Prop :=
  Forall (Forall (Forall (fun z => z = 0%Z \/ z = 1%Z))) images.

(** The graph [main] builds and evaluates once: the images of a batch are
    reshaped and binarized, encoded, quantized and decoded, and the loss is
    [make_vq_vae]'s. *)
Definition main_model (encoder_layers decoder_layers : list nat)
    (activation : R -> R) (latent_size : nat)
    (encoder_hidden : list (DenseWeights R)) (encoder_final : DenseWeights R)
    (decoder_hidden : list (DenseWeights R)) (decoder_final : DenseWeights R)
    (vector_quantizer : VectorQuantizer R) (beta decay : R)
    (images : list (list R))
  : option (StepResult (list (list (list R)))) :=
  match preprocess images with
  | None => None
  | Some images =>
      let encoder :=
        make_encoder encoder_layers activation latent_size
                     (code_size vector_quantizer)
                     encoder_hidden encoder_final in
      let decoder :=
        make_decoder decoder_layers activation IMAGE_HEIGHT IMAGE_WIDTH
                     decoder_hidden decoder_final in
      make_vq_vae independent_log_prob images encoder decoder
                  vector_quantizer beta decay
  end.

(** A batch of one raw image and the smallest networks: no hidden layer. *)
Definition toy_raw_images : list (list R) := [repeat 0.7 784].

Definition toy_encoder_final : DenseWeights R :=
  mkDense (repeat [0.001; 0.002] 784) [0; 0].

Definition toy_decoder_final : DenseWeights R :=
  mkDense (repeat (repeat 0.1 784) 2) (repeat 0 784).

(** ** The input pipeline *)

(** A [tf.data.Dataset]: finitely many elements in order, or one element for
    every position. *)
Inductive Dataset (A : Type) : Type :=
| Finite (elements : list A)
| Infinite (element : nat -> A).

Arguments Finite {A}.
Arguments Infinite {A}.

(** [tf.data.Dataset.from_tensor_slices((xs, ys))]: the slices must be as
    many on both sides. *)
Definition from_tensor_slices {A B : Type} (xs : list A) (ys : list B)
  : option (Dataset (A * B)) :=
  if Nat.eqb (length xs) (length ys)
  then Some (Finite (combine xs ys)) else None.

(** [dataset.take(count)]; a negative [count] takes everything. *)
Definition take {A : Type} (count : Z) (d : Dataset A) : Dataset A :=
  if (count <? 0)%Z then d
  else match d with
       | Finite l => Finite (firstn (Z.to_nat count) l)
       | Infinite f => Finite (map f (seq 0 (Z.to_nat count)))
       end.

(** [dataset.repeat()]: the elements again and again; nothing when there is
    no element. *)
Definition repeat_dataset {A : Type} (d : Dataset A) : Dataset A :=
  match d with
  | Finite [] => Finite []
  | Finite (x :: l) =>
      Infinite (fun i => nth (i mod length (x :: l)) (x :: l) x)
  | Infinite f => Infinite f
  end.

(** [dataset.batch(batch_size)]: consecutive elements, the last batch of a
    finite dataset possibly shorter; the size must be positive. *)
Definition batch {A : Type} (batch_size : Z) (d : Dataset A)
  : option (Dataset (list A)) :=
  if (batch_size <=? 0)%Z then None
  else
    let n := Z.to_nat batch_size in
    Some match d with
         | Finite l =>
             Finite (map (fun i => firstn n (skipn (i * n) l))
                         (seq 0 ((length l + n - 1) / n)))
         | Infinite f =>
             Infinite (fun i => map (fun j => f (i * n + j)%nat) (seq 0 n))
         end.

(** [iterator.get_next()] of a one-shot iterator that has delivered
    [position] elements; [None] is [OutOfRangeError]. *)
Definition get_next {A : Type} (d : Dataset A) (position : nat) : option A :=
  match d with
  | Finite l => nth_error l position
  | Infinite f => Some (f position)
  end.

(** [np.int32] on an integer. *)
Definition np_int32 (z : Z) : Z :=
  ((z + 2 ^ 31) mod 2 ^ 32 - 2 ^ 31)%Z.

(** One split of the data. *)
Record DataSplit : Type := mkSplit {
  images : list (list R);
  labels : list Z;
  num_examples : Z
}.

Record MnistData : Type := mkMnist {
  mnist_train : DataSplit;       (* [mnist_data.train] *)
  mnist_validation : DataSplit   (* [mnist_data.validation] *)
}.

(** [build_input_pipeline]: the batches behind the training iterator and
    behind the heldout iterator. *)
Definition build_input_pipeline (mnist_data : MnistData)
    (batch_size heldout_size : Z)
  : option (Dataset (list (list R * Z)) * Dataset (list (list R * Z))) :=
  match from_tensor_slices (images (mnist_train mnist_data))
                           (map np_int32 (labels (mnist_train mnist_data))) with
  | None => None
  | Some training_dataset =>
      match batch batch_size (repeat_dataset training_dataset) with
      | None => None
      | Some training_batches =>
          match from_tensor_slices
                  (images (mnist_validation mnist_data))
                  (map np_int32 (labels (mnist_validation mnist_data))) with
          | None => None
          | Some heldout_dataset =>
              match batch heldout_size
                          (repeat_dataset (take heldout_size heldout_dataset))
              with
              | None => None
              | Some heldout_frozen => Some (training_batches, heldout_frozen)
              end
          end
      end
  end.

(** The examples of a split, as the pipeline pairs them. *)
Definition examples (s : DataSplit) : list (list R * Z) :=
  combine (images s) (map np_int32 (labels s)).

(** Two training and three validation examples of one value each. *)
Definition toy_mnist : MnistData :=
  mkMnist (mkSplit [[0.1]; [0.2]] [3%Z; 4%Z] 2)
          (mkSplit [[0.5]; [0.6]; [0.7]] [7%Z; 8%Z; 9%Z] 3).

(** ** The schedule of the training loop *)

(** What one pass of the loop of [main] does, in order. *)
Inductive Event : Type :=
| RunTrainOp (step : nat)           (* [sess.run([train_op, loss], ...)] *)
| PrintLoss (step : nat)            (* [print("Step: ...")] *)
| WriteSummary (step : nat)         (* [sess.run(summary, ...)], [add_summary] *)
| SaveCheckpoint (step : nat)       (* [saver.save(..., global_step=step)] *)
| VisualizeTraining (step : nat)    (* [visualize_training(..., "step{:05d}_train")] *)
| VisualizeValidation (step : nat). (* [visualize_training(..., "step{:05d}_validation")] *)

Inductive Outcome : Type :=
| Completed
| ZeroDivisionError.

(** The body of [for step in range(FLAGS.max_steps)].  [%] by zero raises
    before the second half of the [or] is looked at. *)
Definition loop_body (viz_steps max_steps : Z) (step : nat)
  : list Event * Outcome :=
  let report :=
    if Nat.eqb (step mod 100) 0 then [PrintLoss step; WriteSummary step]
    else [] in
  if Z.eqb viz_steps 0
  then (RunTrainOp step :: report, ZeroDivisionError)
  else if (Z.eqb ((Z.of_nat step + 1) mod viz_steps) 0
           || Z.eqb (Z.of_nat step + 1) max_steps)%bool
       then (RunTrainOp step :: report
               ++ [SaveCheckpoint step; VisualizeTraining step;
                   VisualizeValidation step],
             Completed)
       else (RunTrainOp step :: report, Completed).

Fixpoint run_loop (viz_steps max_steps : Z) (steps : list nat)
  : list Event * Outcome :=
  match steps with
  | [] => ([], Completed)
  | step :: steps' =>
      match loop_body viz_steps max_steps step with
      | (events, ZeroDivisionError) => (events, ZeroDivisionError)
      | (events, Completed) =>
          let (events', outcome) := run_loop viz_steps max_steps steps' in
          (events ++ events', outcome)
      end
  end.

(** The loop of [main] under [--viz_steps] and [--max_steps]. *)
Definition main_loop (viz_steps max_steps : Z) : list Event * Outcome :=
  run_loop viz_steps max_steps (seq 0 (Z.to_nat max_steps)).

(** The training runs among the events. *)
Definition is_train_op (e : Event) : bool :=
  match e with
  | RunTrainOp _ => true
  | _ => false
  end.

(** ** The files of the visualizations *)

From Stdlib Require String Ascii DecimalString DecimalNat.

Module Visualization.
Import String Ascii.
Local Open Scope string_scope.

(** [k] characters ["0"]. *)
Fixpoint zeros (k : nat) : string :=
  match k with
  | O => ""
  | S k' => String "0" (zeros k')
  end.

(** ["{:05d}".format(n)] for a step [n] of [range]: the decimal digits,
    filled with zeros on the left up to five characters. *)
Definition format_05d (n : nat) : string :=
  let digits := DecimalString.NilEmpty.string_of_uint (Nat.to_uint n) in
  zeros (5 - String.length digits) ++ digits.

Fixpoint ends_with_slash (s : string) : bool :=
  match s with
  | "" => false
  | String c "" => Ascii.eqb c "/"
  | String _ s' => ends_with_slash s'
  end.

(** [os.path.join(a, b)] on a POSIX system. *)
Definition path_join (a b : string) : string :=
  match b with
  | String "/" _ => b
  | _ =>
      if (String.eqb a "" || ends_with_slash a)%bool then a ++ b
      else a ++ "/" ++ b
  end.

(** [x[:viz_n]] on a list. *)
Definition slice_to {A : Type} (viz_n : Z) (x : list A) : list A :=
  if (viz_n <? 0)%Z
  then firstn (List.length x - Z.to_nat (- viz_n)) x
  else firstn (Z.to_nat viz_n) x.

(** [visualize_training]: the calls of [save_imgs] it makes, each with the
    images and the file name it is given. *)
Definition visualize_training {Img : Type}
    (images_val reconstructed_images_val : list Img)
    (random_images_val : option (list Img))
    (log_dir prefix : string) (viz_n : Z) : list (list Img * string) :=
  ([(slice_to viz_n images_val,
     path_join log_dir (prefix ++ "_inputs.png"));
    (slice_to viz_n reconstructed_images_val,
     path_join log_dir (prefix ++ "_reconstructions.png"))]
   ++
   match random_images_val with
   | Some random_images_val =>
       [(slice_to viz_n random_images_val,
         path_join log_dir (prefix ++ "_prior_samples.png"))]
   | None => []
   end)%list.

(** The two calls of [visualize_training] in the loop of [main] at [step],
    with the default [viz_n=10]. *)
Definition main_visualize {Img : Type} (model_dir : string) (step : nat)
    (images_val reconstructions_val random_images_val : list Img)
    (heldout_images_val heldout_reconstructions_val : list Img)
  : list (list Img * string) :=
  (visualize_training images_val reconstructions_val
                      (Some random_images_val) model_dir
                      ("step" ++ format_05d step ++ "_train") 10
   ++
   visualize_training heldout_images_val heldout_reconstructions_val
                      None model_dir
                      ("step" ++ format_05d step ++ "_validation") 10)%list.

(** A decimal digit. *)
Definition is_digit (c : ascii) : bool :=
  (Nat.leb 48 (nat_of_ascii c) && Nat.leb (nat_of_ascii c) 57)%bool.

Fixpoint all_digits (s : string) : bool :=
  match s with
  | "" => true
  | String c s' => (is_digit c && all_digits s')%bool
  end.

(** Reads a number back from its digits. *)
Definition read_digits (s : string) : option nat :=
  option_map Nat.of_uint (DecimalString.NilEmpty.uint_of_string s).

End Visualization.

(** ** Fake data *)

From Stdlib Require Permutation.

Section FakeData.
(** The state of NumPy's random generator, with [np.random.randn(n, m)] and
    [np.random.permutation(x)] drawing from it. *)
Variable Rng : Type.
Variable randn : nat -> nat -> Rng -> list (list R) * Rng.
Variable permutation : list Z -> Rng -> list Z * Rng.

(** [np.arange(n)] *)
Definition arange (n : nat) : list Z := map Z.of_nat (seq 0 n).

(** [build_fake_data]: the argument is overwritten by 10 before it is
    used. *)
Definition build_fake_data (num_examples : Z) (rng : Rng)
  : MnistData * Rng :=
  let num_examples := 10%nat in
  let (train_images, rng) :=
    randn num_examples (IMAGE_HEIGHT * IMAGE_WIDTH) rng in
  let (train_labels, rng) := permutation (arange num_examples) rng in
  let (validation_images, rng) :=
    randn num_examples (IMAGE_HEIGHT * IMAGE_WIDTH) rng in
  let (validation_labels, rng) := permutation (arange num_examples) rng in
  (mkMnist
     (mkSplit train_images (map np_int32 train_labels)
              (Z.of_nat num_examples))
     (mkSplit validation_images (map np_int32 validation_labels)
              (Z.of_nat num_examples)),
   rng).

End FakeData.

(** A generator for the scenarios: constant images, labels reversed. *)
Definition toy_randn (n m : nat) (rng : unit) : list (list R) * unit :=
  (repeat (repeat 0.7 m) n, tt).

Definition toy_permutation (x : list Z) (rng : unit) : list Z * unit :=
  (rev x, tt).

(** What [build_fake_data] makes of a split: ten images of 784 values, the
    labels 0 to 9 in some order. *)
Definition fake_split (s : DataSplit) : Prop :=
  has_shape2 10 (IMAGE_HEIGHT * IMAGE_WIDTH) (images s) /\
  Permutation.Permutation (labels s) (arange 10) /\
  num_examples s = 10%Z.

(** ** The quantizer with [tf.argmin] left open *)

Section QuantizerWith.
Context {T : Type} `{Scalar T}.
(** [tf.argmin] over one axis, whichever index it returns on a tie. *)
Variable pick : list T -> option nat.

(** [VectorQuantizer.__call__] over that [tf.argmin]. *)
Definition call_with (vq : VectorQuantizer T) (codes : list (list (list T)))
  : option (list (list (list T)) * list (list (list T))) :=
  match mapM (mapM pick) (distances vq codes) with
  | None => None
  | Some assignments =>
      let one_hot_assignments :=
        map (map (one_hot (num_codes vq))) assignments in
      let nearest_codebook_entries :=
        map (map (select_row vq)) one_hot_assignments in
      Some (nearest_codebook_entries, one_hot_assignments)
  end.

End QuantizerWith.

(** What the documentation of [tf.argmin] promises: on a nonempty axis, an
    index of a smallest entry. *)
Definition is_argmin {T : Type} `{Scalar T} (pick : list T -> option nat)
  : Prop :=
  forall xs, xs <> [] ->
    exists k, pick xs = Some k /\ (k < length xs)%nat /\
      forall j, (j < length xs)%nat ->
        value (nth k xs (const 0)) <= value (nth j xs (const 0)).

(** The distance from a code to a codebook entry, as the program computes
    it. *)
Definition computed_distance {T : Type} `{Scalar T} (c e : list T) : T :=
  norm (map2 ssub c e).

(** No position of the batch is assigned to code [k], in any arithmetic. *)
Definition unassigned_in {T : Type} `{Scalar T} (k : nat)
    (one_hot_assignments : list (list (list T))) : Prop :=
  Forall (Forall (fun o => nth k o (const 0) = const 0)) one_hot_assignments.

(** The batch statistics of code [k], summed as the program sums them. *)
Definition batch_count_of {T : Type} `{Scalar T}
    (one_hot_assignments : list (list (list T))) (k : nat) : T :=
  reduce_sum (map (fun o => nth k o (const 0)) (concat one_hot_assignments)).

Definition batch_mean_of {T : Type} `{Scalar T}
    (codes one_hot_assignments : list (list (list T))) (k j : nat) : T :=
  reduce_sum
    (map (fun q => smul (nth j (fst q) (const 0)) (nth k (snd q) (const 0)))
         (combine (concat codes) (concat one_hot_assignments))).

(** ** float32 *)

From Stdlib Require SpecFloat QArith Qreals Qround.

(** The arithmetic of [tf.float32]: IEEE 754 binary32, every operation
    rounded to nearest, ties to even.  A float is read as the rational it
    stands for; the infinities are read as [2^128] and [-2^128], beyond every
    finite float, and NaN, which no run below produces, as 0. *)
Module Float32.
Import SpecFloat QArith_base.

Definition prec : Z := 24.
Definition emax : Z := 128.

Definition to_Q (x : spec_float) : Q :=
  match x with
  | S754_zero _ => 0%Q
  | S754_infinity s =>
      if s then (- inject_Z (2 ^ 128))%Q else inject_Z (2 ^ 128)
  | S754_nan => 0%Q
  | S754_finite s m e =>
      (inject_Z (if s then Zneg m else Zpos m) * Qpower 2 e)%Q
  end.

(** The float32 nearest to a rational [q], ties to even: [q] is cut down to
    a multiple of [2^-152], one more bit records whether anything was cut
    off, and the result is rounded once.  Every float32 and every midpoint
    of two neighbouring ones is a multiple of [2^-150], so the cut changes
    nothing in the rounding. *)
Definition of_Q (q : Q) : spec_float :=
  let x := (q * inject_Z (2 ^ 152))%Q in
  let p := Qround.Qfloor x in
  let sticky := if Qeq_bool (inject_Z p) x then 0%Z else 1%Z in
  binary_normalize prec emax (2 * p + sticky) (-153) false.

(** The same for a real number: a Python float turned into a float32. *)
Definition of_R (r : R) : spec_float :=
  let x := (r * IZR (2 ^ 152))%R in
  let p := Int_part x in
  let sticky := if Req_dec_T (IZR p) x then 0%Z else 1%Z in
  binary_normalize prec emax (2 * p + sticky) (-153) false.

#[export] Instance F32_Scalar : Scalar spec_float := {|
  const := of_R;
  value := fun x => Q2R (to_Q x);
  sadd := SFadd prec emax;
  ssub := SFsub prec emax;
  smul := SFmul prec emax;
  sdiv := SFdiv prec emax;
  sneg := SFopp;
  ssqrt := SFsqrt prec emax;
  stop_gradient := fun x => x
|}.

(** Neither an infinity nor NaN. *)
Definition is_finite (x : spec_float) : Prop :=
  match x with
  | S754_zero _ | S754_finite _ _ _ => True
  | S754_infinity _ | S754_nan => False
  end.

(** *** Runs in float32 *)

(** One code [0.7] and a codebook of the one entry [0.1]. *)
Definition st_vq : VectorQuantizer spec_float :=
  init_VectorQuantizer 1 1 [[of_Q (1 # 10)]].

Definition st_encoder (images : unit) : list (list (list spec_float)) :=
  [[[of_Q (7 # 10)]]].

(** The code [-1.0] and the codebook entries [1.0] and [0.99999994], the
    float32 next below 1. *)
Definition near_tie_vq : VectorQuantizer spec_float :=
  init_VectorQuantizer 2 1
    [[S754_finite false 8388608 (-23)]; [S754_finite false 16777215 (-24)]].

Definition near_tie_codes : list (list (list spec_float)) :=
  [[[S754_finite true 8388608 (-23)]]].

(** The same two entries in the other order. *)
Definition near_tie_mirror_vq : VectorQuantizer spec_float :=
  init_VectorQuantizer 2 1
    [[S754_finite false 16777215 (-24)]; [S754_finite false 8388608 (-23)]].

(** A codebook of the one entry [0.7], as [__init__] leaves it, and the
    code [0.8]. *)
Definition mean_vq : VectorQuantizer spec_float :=
  init_VectorQuantizer 1 1 [[of_Q (7 # 10)]].

Definition mean_encoder (images : unit) : list (list (list spec_float)) :=
  [[[of_Q (8 # 10)]]].

(** The entries [0] and [0.7], as [__init__] leaves them, and the code [0]:
    nothing is assigned to the second entry. *)
Definition idle_vq : VectorQuantizer spec_float :=
  init_VectorQuantizer 2 1 [[of_Q 0]; [of_Q (7 # 10)]].

Definition idle_encoder (images : unit) : list (list (list spec_float)) :=
  [[[of_Q 0]]].

(** The scenario of the specification in float32. *)
Definition scenario32_vq : VectorQuantizer spec_float :=
  init_VectorQuantizer 4 2
    (map (map of_Q) [[0; 0]; [10; 10]; [-10; 10]; [10; -10]]%Q).

Definition scenario32_encoder (images : unit)
  : list (list (list spec_float)) :=
  [[[of_Q (1 # 10); of_Q (1 # 10)]]; [[of_Q (9 # 10); of_Q (9 # 10)]]].

End Float32.

(** * Proofs *)

(** Decides a static shape of a literal tensor. *)
Ltac shape_tac :=
  unfold wf_vq, has_shape3, has_shape2; simpl;
  repeat match goal with
         | |- _ /\ _ => split
         | |- Forall _ _ => constructor
         | |- _ = _ => reflexivity
         end.

(** ** Lists: [map2], [mapM], [nth] *)

Section ListFacts.
Context {A B C : Type}.

Lemma map2_length (f : A -> B -> C) xs ys :
  length (map2 f xs ys) = Nat.min (length xs) (length ys).
Proof.
  revert ys; induction xs as [|x xs IH]; intros [|y ys]; simpl; auto.
Qed.

Lemma map2_nth (f : A -> B -> C) xs ys j dx dy dz :
  (j < length xs)%nat -> (j < length ys)%nat ->
  nth j (map2 f xs ys) dz = f (nth j xs dx) (nth j ys dy).
Proof.
  revert ys j; induction xs as [|x xs IH]; intros [|y ys] [|j]; simpl;
    intros; try lia; auto.
  apply IH; lia.
Qed.

Lemma mapM_total (f : A -> option B) xs :
  Forall (fun x => exists y, f x = Some y) xs -> exists ys, mapM f xs = Some ys.
Proof.
  induction 1 as [|x xs [y Hy] _ [ys Hys]]; simpl.
  - now exists [].
  - rewrite Hy, Hys. now exists (y :: ys).
Qed.

Lemma nth_map_lt (f : A -> B) xs j da db :
  (j < length xs)%nat -> nth j (map f xs) db = f (nth j xs da).
Proof.
  revert j; induction xs as [|x xs IH]; intros [|j]; simpl; intros;
    try lia; auto.
  apply IH; lia.
Qed.

End ListFacts.

(** ** [tf.argmin]: the first minimum *)

Section ArgminFacts.
Context {T : Type} `{Scalar T}.

Lemma nth_values_app_l (pre : list T) x j :
  (j < length pre)%nat ->
  nth j (map value (pre ++ [x])) 0 = nth j (map value pre) 0.
Proof.
  intros Hj. rewrite map_app, app_nth1; auto. now rewrite length_map.
Qed.

Lemma nth_values_app_last (pre : list T) x :
  nth (length pre) (map value (pre ++ [x])) 0 = value x.
Proof.
  rewrite map_app, app_nth2; rewrite length_map; auto.
  now rewrite Nat.sub_diag.
Qed.

Lemma argmin_scan_spec xs : forall pre best_i best,
  (best_i < length pre)%nat ->
  value best = nth best_i (map value pre) 0 ->
  (forall j, (j < length pre)%nat -> value best <= nth j (map value pre) 0) ->
  (forall j, (j < best_i)%nat -> value best < nth j (map value pre) 0) ->
  is_first_min (map value (pre ++ xs))
               (argmin_scan best_i best (length pre) xs).
Proof.
  induction xs as [|x xs IH]; intros pre best_i best Hi Hb Hle Hlt.
  - simpl. rewrite app_nil_r. unfold is_first_min.
    rewrite length_map, <- Hb. auto.
  - assert (Hlen : length (pre ++ [x]) = S (length pre))
      by (rewrite length_app; simpl; lia).
    replace (pre ++ x :: xs) with ((pre ++ [x]) ++ xs)
      by (now rewrite <- app_assoc).
    cbn [argmin_scan]. rewrite <- Hlen. unfold sltb.
    destruct (Rlt_dec (value x) (value best)) as [Hx|Hx].
    + (* [x] is strictly smaller: it becomes the running minimum *)
      apply (IH (pre ++ [x]) (length pre) x).
      * lia.
      * now rewrite nth_values_app_last.
      * intros j Hj. rewrite Hlen in Hj.
        destruct (Nat.eq_dec j (length pre)) as [->|Hne].
        -- rewrite nth_values_app_last. lra.
        -- rewrite nth_values_app_l by lia.
           specialize (Hle j ltac:(lia)). lra.
      * intros j Hj. rewrite nth_values_app_l by lia.
        specialize (Hle j ltac:(lia)). lra.
    + (* the running minimum stays, also on a tie *)
      apply IH.
      * lia.
      * rewrite nth_values_app_l by lia. exact Hb.
      * intros j Hj. rewrite Hlen in Hj.
        destruct (Nat.eq_dec j (length pre)) as [->|Hne].
        -- rewrite nth_values_app_last. lra.
        -- rewrite nth_values_app_l by lia. apply Hle. lia.
      * intros j Hj. rewrite nth_values_app_l by lia. now apply Hlt.
Qed.

Lemma argmin_spec (xs : list T) k :
  argmin xs = Some k -> is_first_min (map value xs) k.
Proof.
  destruct xs as [|x xs]; simpl; [discriminate|].
  intros Hk; inversion Hk; subst; clear Hk.
  change (x :: xs) with ([x] ++ xs).
  change 1%nat with (length [x]).
  apply argmin_scan_spec; simpl; try lia; try lra.
  intros [|j] Hj; [lra | lia].
Qed.

Lemma argmin_total (xs : list T) :
  xs <> [] -> exists k, argmin xs = Some k.
Proof.
  destruct xs as [|x xs]; [congruence|]. intros _. simpl. eauto.
Qed.

Lemma is_first_min_unique (vs : list R) k k' :
  is_first_min vs k -> is_first_min vs k' -> k = k'.
Proof.
  intros (Hk & Hle & Hlt) (Hk' & Hle' & Hlt').
  destruct (lt_eq_lt_dec k k') as [[Hc|Hc]|Hc]; auto.
  - specialize (Hlt' k Hc). specialize (Hle k' Hk'). lra.
  - specialize (Hlt k' Hc). specialize (Hle' k Hk). lra.
Qed.

Lemma argmin_first_min (xs : list T) k :
  is_first_min (map value xs) k -> argmin xs = Some k.
Proof.
  intros Hk.
  destruct (argmin_total xs) as [k' Hk'].
  - intros ->. destruct Hk as [Hk _]. simpl in Hk. lia.
  - rewrite Hk'. f_equal.
    eapply is_first_min_unique; eauto using argmin_spec.
Qed.

End ArgminFacts.

(** ** The quantizer, position by position *)

Section CallFacts.
Context {T : Type} `{Scalar T}.

Lemma mapM_map_inv {A B C D : Type}
    (f : B -> option C) (g : A -> B) (h : C -> D) xs ys :
  mapM f (map g xs) = Some ys ->
  Forall2 (fun x z => exists y, f (g x) = Some y /\ z = h y) xs (map h ys).
Proof.
  revert ys; induction xs as [|x xs IH]; simpl; intros ys Hm.
  - inversion Hm; constructor.
  - destruct (f (g x)) as [y|] eqn:Hx; [|discriminate].
    destruct (mapM f (map g xs)) as [ys'|]; [|discriminate].
    inversion Hm; subst; simpl. constructor; eauto.
Qed.

(** Distances from one code to every codebook entry. *)
Lemma distances_rows (vq : VectorQuantizer T) codes :
  distances vq codes =
  map (map (fun c => map (fun e => norm (map2 ssub c e)) (codebook vq))) codes.
Proof. reflexivity. Qed.

Lemma call_inv (vq : VectorQuantizer T) codes nearest oh :
  call vq codes = Some (nearest, oh) ->
  Forall2 (Forall2 (fun c o => exists k,
      argmin (map (fun e => norm (map2 ssub c e)) (codebook vq)) = Some k /\
      o = one_hot (num_codes vq) k)) codes oh /\
  nearest = map (map (select_row vq)) oh.
Proof.
  unfold call. rewrite distances_rows.
  destruct (mapM _ _) as [assignments|] eqn:Hm; [|discriminate].
  intros Hc; inversion Hc; subst; clear Hc. split; [|reflexivity].
  apply (mapM_map_inv _ _ (map (one_hot (num_codes vq)))) in Hm.
  eapply Forall2_impl; [|exact Hm].
  intros row z (ks & Hks & ->).
  apply (mapM_map_inv _ _ (one_hot (num_codes vq))) in Hks.
  exact Hks.
Qed.

Lemma call_total (vq : VectorQuantizer T) codes :
  codebook vq <> [] -> exists nearest oh, call vq codes = Some (nearest, oh).
Proof.
  intros Hne. unfold call.
  destruct (mapM_total (mapM argmin) (distances vq codes)) as [a Ha].
  - rewrite distances_rows. apply Forall_forall. intros row Hrow.
    apply in_map_iff in Hrow. destruct Hrow as (crow & <- & _).
    apply mapM_total. apply Forall_forall. intros ds Hds.
    apply in_map_iff in Hds. destruct Hds as (c & <- & _).
    apply argmin_total. destruct (codebook vq); [congruence|discriminate].
  - rewrite Ha. eauto.
Qed.

End CallFacts.

(** ** Forward values: exact real arithmetic *)

Section OneHotFacts.

Lemma one_hot_length {T} `{Scalar T} depth i :
  length (one_hot depth i) = depth.
Proof. unfold one_hot. now rewrite length_map, length_seq. Qed.

Lemma one_hot_nth depth i j :
  (j < depth)%nat ->
  nth j (one_hot (T:=R) depth i) 0 = if Nat.eqb j i then 1 else 0.
Proof.
  intros Hj. unfold one_hot.
  rewrite (nth_map_lt _ _ _ 0%nat) by (now rewrite length_seq).
  rewrite seq_nth by assumption. reflexivity.
Qed.

Lemma indicator_sum i n : forall s,
  fold_right Rplus 0
    (map (fun k => if Nat.eqb k i then 1 else 0) (seq s n)) =
  if (Nat.leb s i && Nat.ltb i (s + n))%bool then 1 else 0.
Proof.
  induction n as [|n IH]; intros s; simpl.
  - destruct (Nat.leb_spec s i), (Nat.ltb_spec i (s + 0)); simpl; auto; lia.
  - rewrite IH.
    destruct (Nat.eqb_spec s i) as [->|Hne].
    + rewrite Nat.leb_refl.
      destruct (Nat.leb_spec (S i) i); [lia|].
      destruct (Nat.ltb_spec i (i + S n)); [|lia]. simpl. lra.
    + destruct (Nat.leb_spec s i), (Nat.leb_spec (S s) i); try lia;
      destruct (Nat.ltb_spec i (S s + n)), (Nat.ltb_spec i (s + S n));
      simpl; try lia; lra.
Qed.

Lemma one_hot_sum depth i :
  (i < depth)%nat -> reduce_sum (one_hot (T:=R) depth i) = 1.
Proof.
  intros Hi. unfold reduce_sum, one_hot. simpl.
  rewrite indicator_sum. simpl.
  destruct (Nat.ltb_spec i depth); [reflexivity | lia].
Qed.

Lemma one_hot_is_one_hot depth i :
  (i < depth)%nat -> is_one_hot (one_hot (T:=R) depth i).
Proof.
  intros Hi. exists i. rewrite one_hot_length.
  split; [assumption|]. split.
  - rewrite one_hot_nth by assumption. now rewrite Nat.eqb_refl.
  - intros j Hj Hne. rewrite one_hot_nth by assumption.
    destruct (Nat.eqb_spec j i); [contradiction | reflexivity].
Qed.

End OneHotFacts.

Section SelectRowFacts.

Lemma map2_add_scaled_0 (e acc : list R) :
  length acc = length e -> map2 Rplus (map (Rmult 0) e) acc = acc.
Proof.
  revert acc; induction e as [|x e IH]; intros [|a acc]; simpl; intros Hl;
    try discriminate; auto.
  f_equal; [lra | apply IH; lia].
Qed.

Lemma map2_add_scaled_1 (e : list R) :
  map2 Rplus (map (Rmult 1) e) (repeat 0 (length e)) = e.
Proof. induction e as [|x e IH]; simpl; auto. f_equal; [lra | exact IH]. Qed.

Lemma weighted_rows_indicator d k (cb : list (list R)) : forall s,
  Forall (fun row => length row = d) cb ->
  reduce_sum_rows d
    (map2 (fun o e => map (Rmult o) e)
          (map (fun j => if Nat.eqb j k then 1 else 0) (seq s (length cb))) cb)
  = if (Nat.leb s k && Nat.ltb k (s + length cb))%bool
    then nth (k - s) cb [] else repeat 0 d.
Proof.
  induction cb as [|e cb IH]; intros s Hcb.
  - simpl. rewrite Nat.add_0_r.
    destruct (Nat.leb_spec s k), (Nat.ltb_spec k s); simpl; try lia; auto.
  - inversion Hcb as [|? ? He Hcb']; subst.
    cbn [length seq map map2 reduce_sum_rows fold_right].
    fold (reduce_sum_rows (length e)
           (map2 (fun o e0 => map (Rmult o) e0)
                 (map (fun j => if Nat.eqb j k then 1 else 0)
                      (seq (S s) (length cb))) cb)).
    rewrite (IH (S s) Hcb').
    destruct (Nat.eqb_spec s k) as [->|Hne].
    + rewrite Nat.leb_refl.
      destruct (Nat.leb_spec (S k) k); [lia|].
      destruct (Nat.ltb_spec k (k + S (length cb))); [|lia].
      cbn [andb]. rewrite Nat.sub_diag. cbn [nth].
      apply map2_add_scaled_1.
    + rewrite map2_add_scaled_0.
      * destruct (Nat.leb_spec (S s) k), (Nat.leb_spec s k); try lia;
        destruct (Nat.ltb_spec k (S s + length cb)),
                 (Nat.ltb_spec k (s + S (length cb)));
        cbn [andb]; try lia; auto.
        replace (k - s)%nat with (S (k - S s)) by lia. reflexivity.
      * destruct (Nat.leb_spec (S s) k); cbn [andb];
          [|now rewrite repeat_length].
        destruct (Nat.ltb_spec k (S s + length cb));
          [|now rewrite repeat_length].
        rewrite Forall_forall in Hcb'. apply Hcb'. apply nth_In. lia.
Qed.

Lemma select_row_one_hot (vq : VectorQuantizer R) k :
  wf_vq vq -> (k < num_codes vq)%nat ->
  select_row vq (one_hot (num_codes vq) k) = nth k (codebook vq) [].
Proof.
  intros ((Hlen & Hrows) & _) Hk. unfold select_row, one_hot.
  rewrite <- Hlen in *.
  pose proof (weighted_rows_indicator (code_size vq) k (codebook vq) 0 Hrows)
    as Hw.
  simpl in Hw |- *. rewrite Hw.
  destruct (Nat.ltb_spec k (length (codebook vq))); [|lia].
  now rewrite Nat.sub_0_r.
Qed.

End SelectRowFacts.

(** ** The quantizer's contract *)

Section QuantizerContract.

Lemma norm_sub_euclidean (c e : list R) :
  norm (map2 ssub c e) = euclidean_distance c e.
Proof.
  unfold norm, euclidean_distance, reduce_sum, square. simpl. f_equal.
  revert e; induction c as [|x c IH]; intros [|y e]; simpl; auto.
  now rewrite IH.
Qed.

Lemma init_VectorQuantizer_wf (K D : nat) (init : list (list R)) :
  has_shape2 K D init -> wf_vq (init_VectorQuantizer K D init).
Proof.
  intros Hinit. unfold wf_vq; simpl. rewrite repeat_length. auto.
Qed.

Lemma first_min_distance (vq : VectorQuantizer R) c k :
  wf_vq vq ->
  argmin (map (fun e => norm (map2 ssub c e)) (codebook vq)) = Some k ->
  (k < num_codes vq)%nat /\
  (forall j, (j < num_codes vq)%nat ->
     euclidean_distance c (nth k (codebook vq) []) <=
     euclidean_distance c (nth j (codebook vq) [])) /\
  (forall j, (j < num_codes vq)%nat ->
     euclidean_distance c (nth j (codebook vq) []) =
     euclidean_distance c (nth k (codebook vq) []) -> (k <= j)%nat).
Proof.
  intros ((Hlen & _) & _) Hk. apply argmin_spec in Hk.
  destruct Hk as (Hk & Hle & Hlt).
  rewrite map_id, length_map, Hlen in *.
  assert (Hnth : forall j, (j < num_codes vq)%nat ->
            nth j (map (fun e => norm (map2 ssub c e)) (codebook vq)) 0 =
            euclidean_distance c (nth j (codebook vq) [])).
  { intros j Hj. rewrite (nth_map_lt _ _ _ []) by lia.
    apply norm_sub_euclidean. }
  split; [assumption|]. split.
  - intros j Hj. rewrite <- !Hnth by assumption. now apply Hle.
  - intros j Hj Heq. destruct (Nat.le_gt_cases k j) as [|Hjk]; [assumption|].
    specialize (Hlt j Hjk). rewrite !Hnth in Hlt by assumption. lra.
Qed.

End QuantizerContract.

Section QuantizerRuns.
Context {T : Type} `{Scalar T}.

Lemma mapM_intro {A B : Type} (f : A -> option B) xs ys :
  Forall2 (fun x y => f x = Some y) xs ys -> mapM f xs = Some ys.
Proof.
  induction 1 as [|x y xs ys Hx _ IH]; simpl; auto.
  now rewrite Hx, IH.
Qed.

(** The quantizer's result from the index chosen at every position. *)
Lemma call_intro (vq : VectorQuantizer T) codes (ks : list (list nat)) :
  Forall2 (Forall2 (fun c k =>
      argmin (map (fun e => norm (map2 ssub c e)) (codebook vq)) = Some k))
    codes ks ->
  call vq codes =
  Some (map (map (fun k => select_row vq (one_hot (num_codes vq) k))) ks,
        map (map (one_hot (num_codes vq))) ks).
Proof.
  intros Hks. unfold call.
  assert (Hm : mapM (mapM argmin) (distances vq codes) = Some ks).
  { rewrite distances_rows. apply mapM_intro.
    induction Hks as [|row krow codes ks Hrow _ IH]; simpl; constructor; auto.
    apply mapM_intro.
    induction Hrow; simpl; constructor; auto. }
  rewrite Hm. cbv zeta. do 2 f_equal.
  rewrite map_map. apply map_ext. intros krow. now rewrite map_map.
Qed.

End QuantizerRuns.

Section Scenarios.

Lemma scenario_argmin_near_origin (x : R) :
  0 <= x <= 1 ->
  argmin (map (fun e => norm (map2 ssub [x; x] e)) (codebook scenario_vq))
  = Some 0%nat.
Proof.
  intros Hx. apply argmin_first_min. rewrite map_id.
  unfold is_first_min. cbn [codebook scenario_vq init_VectorQuantizer
                            scenario_codebook map length].
  rewrite !norm_sub_euclidean. unfold euclidean_distance.
  cbn [combine map fold_right fst snd].
  split; [lia|]. split.
  - intros j Hj.
    destruct j as [|[|[|[|j]]]]; cbn [nth]; try lia;
      apply sqrt_le_1_alt; nra.
  - intros j Hj. lia.
Qed.

Lemma scenario_call :
  call scenario_vq [[[0.1; 0.1]]] = Some ([[[0; 0]]], [[[1; 0; 0; 0]]]).
Proof.
  rewrite (call_intro scenario_vq _ [[0%nat]]).
  - f_equal. f_equal.
    unfold select_row, reduce_sum_rows; simpl.
    repeat f_equal; lra.
  - repeat constructor. apply scenario_argmin_near_origin. lra.
Qed.

(** Both entries of [tie_vq] are at distance 1 from the origin: entry 0 is
    chosen. *)
Lemma tie_call :
  call tie_vq [[[0; 0]]] = Some ([[[1; 0]]], [[[1; 0]]]).
Proof.
  rewrite (call_intro tie_vq _ [[0%nat]]).
  - f_equal. f_equal.
    unfold select_row, reduce_sum_rows; simpl.
    repeat f_equal; lra.
  - repeat constructor. apply argmin_first_min. rewrite map_id.
    unfold is_first_min. cbn [codebook tie_vq init_VectorQuantizer map length].
    rewrite !norm_sub_euclidean. unfold euclidean_distance.
    cbn [combine map fold_right fst snd].
    split; [lia|]. split.
    + intros j Hj.
      destruct j as [|[|j]]; cbn [nth]; try lia; apply sqrt_le_1_alt; nra.
    + intros j Hj. lia.
Qed.

End Scenarios.

(** ** Claims about the quantizer *)

Section QuantizerClaims.

Lemma call_returns (vq : VectorQuantizer R) codes :
  wf_vq vq -> (0 < num_codes vq)%nat ->
  exists nearest oh, call vq codes = Some (nearest, oh).
Proof.
  intros ((Hlen & _) & _) Hpos. apply call_total.
  intros Hnil. rewrite Hnil in Hlen. simpl in Hlen. lia.
Qed.

(** The index behind every one-hot row of a result. *)
Lemma call_rows (vq : VectorQuantizer R) codes nearest oh :
  wf_vq vq -> call vq codes = Some (nearest, oh) ->
  Forall2 (Forall2 (fun c o => exists k,
      argmin (map (fun e => norm (map2 ssub c e)) (codebook vq)) = Some k /\
      (k < num_codes vq)%nat /\
      o = one_hot (num_codes vq) k)) codes oh.
Proof.
  intros Hwf Hcall. destruct (call_inv _ _ _ _ Hcall) as (Hrows & _).
  eapply Forall2_impl; [|exact Hrows].
  intros crow orow Hrow. eapply Forall2_impl; [|exact Hrow].
  intros c o (k & Hk & ->). exists k.
  destruct (first_min_distance vq c k Hwf Hk) as (? & _). auto.
Qed.

End QuantizerClaims.

(** C4.  For codes of shape [[batch, latent, code_size]], every row of the
    one-hot assignments the quantizer returns has [num_codes] entries,
    exactly one of them 1 and all others 0, and sums to 1; and the quantizer
    does return whenever the codebook has an entry. *)
Theorem one_hot_rows_exact (vq : VectorQuantizer R) codes b l :
  wf_vq vq -> has_shape3 b l (code_size vq) codes ->
  (forall nearest oh,
     call vq codes = Some (nearest, oh) ->
     Forall (Forall (fun row =>
         length row = num_codes vq /\
         is_one_hot row /\
         fold_right Rplus 0 row = 1)) oh) /\
  ((0 < num_codes vq)%nat ->
   exists nearest oh, call vq codes = Some (nearest, oh)).
Proof.
  intros Hwf _. split; [|now apply call_returns].
  intros nearest oh Hcall.
  pose proof (call_rows _ _ _ _ Hwf Hcall) as Hrows.
  clear Hcall. induction Hrows as [|crow orow codes' oh' Hrow _ IH];
    constructor; auto.
  clear IH. induction Hrow as [|c o crow' orow' (k & _ & Hk & ->) _ IH];
    constructor; auto.
  split; [apply one_hot_length|]. split.
  - now apply one_hot_is_one_hot.
  - now apply one_hot_sum.
Qed.

Lemma one_hot_rows_exact_witness :
  Forall (Forall (fun row =>
      length row = 4%nat /\
      is_one_hot row /\
      fold_right Rplus 0 row = 1)) [[[1; 0; 0; 0]]].
Proof.
  apply (proj1 (one_hot_rows_exact scenario_vq [[[0.1; 0.1]]] 1 1
                  ltac:(shape_tac) ltac:(shape_tac))
               [[[0; 0]]] [[[1; 0; 0; 0]]]).
  exact scenario_call.
Defined.



(** ** Sums over the batch *)

Section BatchSums.

Lemma sum_list_app xs ys : sum_list (xs ++ ys) = sum_list xs + sum_list ys.
Proof.
  unfold sum_list. induction xs as [|x xs IH]; simpl; [lra|].
  rewrite IH. lra.
Qed.

Lemma sum_list_concat xss : sum_list (concat xss) = sum_list (map sum_list xss).
Proof.
  induction xss as [|xs xss IH]; simpl; auto.
  rewrite sum_list_app, IH. reflexivity.
Qed.

Lemma reduce_sum_rows_length {T} `{Scalar T} d (rows : list (list T)) :
  Forall (fun r => length r = d) rows -> length (reduce_sum_rows d rows) = d.
Proof.
  unfold reduce_sum_rows. induction 1 as [|r rows Hr _ IH]; simpl.
  - apply repeat_length.
  - rewrite map2_length, IH, Hr. apply Nat.min_id.
Qed.

Lemma nth_repeat_0 n j : nth j (repeat 0 n) 0 = 0.
Proof. revert j; induction n; intros [|j]; simpl; auto. Qed.

Lemma reduce_sum_rows_nth d (rows : list (list R)) k :
  Forall (fun r => length r = d) rows -> (k < d)%nat ->
  nth k (reduce_sum_rows d rows) 0 = sum_list (map (fun r => nth k r 0) rows).
Proof.
  intros Hrows Hk. induction Hrows as [|r rows Hr Hrows IH].
  - simpl. apply nth_repeat_0.
  - change (reduce_sum_rows d (r :: rows))
      with (map2 Rplus r (reduce_sum_rows d rows)).
    rewrite (map2_nth _ _ _ _ 0 0).
    + rewrite IH. reflexivity.
    + lia.
    + rewrite reduce_sum_rows_length; auto.
Qed.

Lemma reduce_sum_mats_shape {T} `{Scalar T} n d (ms : list (list (list T))) :
  Forall (has_shape2 n d) ms -> has_shape2 n d (reduce_sum_mats n d ms).
Proof.
  unfold reduce_sum_mats. induction 1 as [|m ms [Hm1 Hm2] _ [IH1 IH2]]; simpl.
  - split; [apply repeat_length|].
    apply Forall_forall. intros row Hrow. apply repeat_spec in Hrow.
    subst. apply repeat_length.
  - split; [rewrite map2_length, IH1, Hm1; apply Nat.min_id|].
    set (acc := fold_right (map2 (map2 sadd)) (repeat (repeat (const 0) d) n) ms)
      in *.
    clearbody acc. clear IH1 Hm1. revert acc IH2.
    induction Hm2 as [|row m Hrow _ IHm]; intros [|a acc] Hacc; simpl;
      constructor.
    + inversion Hacc; subst. rewrite map2_length. lia.
    + inversion Hacc; subst. now apply IHm.
Qed.

Lemma reduce_sum_mats_nth n d (ms : list (list (list R))) k j :
  Forall (has_shape2 n d) ms -> (k < n)%nat -> (j < d)%nat ->
  nth j (nth k (reduce_sum_mats n d ms) []) 0 =
  sum_list (map (fun m => nth j (nth k m []) 0) ms).
Proof.
  intros Hms Hk Hj. induction Hms as [|m ms Hm Hms IH].
  - simpl. rewrite (nth_indep _ [] (repeat 0 d)) by (now rewrite repeat_length).
    rewrite nth_repeat. apply nth_repeat_0.
  - change (reduce_sum_mats n d (m :: ms))
      with (map2 (map2 Rplus) m (reduce_sum_mats n d ms)).
    pose proof (reduce_sum_mats_shape n d ms Hms) as [Ha1 Ha2].
    destruct Hm as [Hm1 Hm2].
    rewrite (map2_nth _ _ _ _ [] []) by lia.
    rewrite (map2_nth _ _ _ _ 0 0).
    + rewrite IH. reflexivity.
    + rewrite Forall_forall in Hm2. rewrite Hm2; [lia|]. apply nth_In. lia.
    + rewrite Forall_forall in Ha2. rewrite Ha2; [lia|]. apply nth_In. lia.
Qed.

Lemma outer_shape {T} `{Scalar T} (c o : list T) :
  has_shape2 (length o) (length c) (outer c o).
Proof.
  unfold outer. split; [apply length_map|].
  apply Forall_forall. intros row Hrow. apply in_map_iff in Hrow.
  destruct Hrow as (x & <- & _). apply length_map.
Qed.

Lemma outer_nth (c o : list R) k j :
  (k < length o)%nat -> (j < length c)%nat ->
  nth j (nth k (outer c o) []) 0 = nth j c 0 * nth k o 0.
Proof.
  intros Hk Hj. unfold outer.
  rewrite (nth_map_lt _ _ _ 0) by assumption.
  rewrite (nth_map_lt _ _ _ 0) by assumption. reflexivity.
Qed.

End BatchSums.

Section BatchStatistics.
Variable vq : VectorQuantizer R.

Lemma aligned_concat codes oh :
  aligned vq codes oh ->
  Forall2 (fun c o => length c = code_size vq /\ length o = num_codes vq)
          (concat codes) (concat oh).
Proof.
  induction 1 as [|crow orow codes oh Hrow _ IH]; simpl; [constructor|].
  now apply Forall2_app.
Qed.

Lemma combine_app {A B : Type} (xs xs' : list A) (ys ys' : list B) :
  length xs = length ys ->
  combine (xs ++ xs') (ys ++ ys') = combine xs ys ++ combine xs' ys'.
Proof.
  revert ys; induction xs as [|x xs IH]; intros [|y ys] Hl; simpl in *;
    try discriminate; auto.
  f_equal. apply IH. lia.
Qed.

Lemma combine_concat codes oh :
  aligned vq codes oh ->
  combine (concat codes) (concat oh) =
  concat (map (fun p => combine (fst p) (snd p)) (combine codes oh)).
Proof.
  induction 1 as [|crow orow codes oh Hrow _ IH]; simpl; auto.
  rewrite combine_app, IH; auto.
  eapply Forall2_length; eauto.
Qed.

Lemma outer_sums cs os k j :
  Forall2 (fun c o => length c = code_size vq /\ length o = num_codes vq)
          cs os ->
  (k < num_codes vq)%nat -> (j < code_size vq)%nat ->
  Forall (has_shape2 (num_codes vq) (code_size vq)) (map2 outer cs os) /\
  map (fun m => nth j (nth k m []) 0) (map2 outer cs os) =
  map (fun q => nth k (snd q) 0 * nth j (fst q) 0) (combine cs os).
Proof.
  intros Hal Hk Hj.
  induction Hal as [|c o cs os [Hc Ho] _ [IH1 IH2]]; simpl.
  - split; [constructor | reflexivity].
  - split.
    + constructor; auto. rewrite <- Hc, <- Ho. apply outer_shape.
    + rewrite IH2, outer_nth by lia. f_equal. apply Rmult_comm.
Qed.

Lemma batch_counts_nth oh k :
  Forall (Forall (fun o => length o = num_codes vq)) oh ->
  (k < num_codes vq)%nat ->
  nth k (batch_counts vq oh) 0 = spec_batch_count oh k.
Proof.
  intros Hoh Hk. unfold batch_counts, spec_batch_count.
  rewrite reduce_sum_rows_nth; auto.
  - now rewrite concat_map, sum_list_concat, map_map.
  - now apply Forall_concat.
Qed.

Lemma batch_counts_length oh :
  Forall (Forall (fun o => length o = num_codes vq)) oh ->
  length (batch_counts vq oh) = num_codes vq.
Proof.
  intros Hoh. apply reduce_sum_rows_length. now apply Forall_concat.
Qed.

Lemma batch_means_shape codes oh :
  aligned vq codes oh ->
  has_shape2 (num_codes vq) (code_size vq) (batch_means vq codes oh).
Proof.
  intros Hal. apply reduce_sum_mats_shape.
  apply aligned_concat in Hal.
  induction Hal as [|c o cs os [Hc Ho] _ IH]; simpl; constructor; auto.
  rewrite <- Hc, <- Ho. apply outer_shape.
Qed.

Lemma batch_means_nth codes oh k j :
  aligned vq codes oh ->
  (k < num_codes vq)%nat -> (j < code_size vq)%nat ->
  nth j (nth k (batch_means vq codes oh) []) 0 = spec_batch_mean codes oh k j.
Proof.
  intros Hal Hk Hj. unfold batch_means, spec_batch_mean.
  destruct (outer_sums _ _ k j (aligned_concat _ _ Hal) Hk Hj) as [Hsh Hsum].
  rewrite reduce_sum_mats_nth by assumption.
  rewrite Hsum, combine_concat by assumption.
  now rewrite concat_map, sum_list_concat, !map_map.
Qed.

Lemma aligned_rows codes oh :
  aligned vq codes oh -> Forall (Forall (fun o => length o = num_codes vq)) oh.
Proof.
  induction 1 as [|crow orow codes oh Hrow _ IH]; constructor; auto.
  clear IH. induction Hrow as [|c o crow orow [_ Ho] _ IH]; constructor; auto.
Qed.

End BatchStatistics.

(** ** One run of the graph *)

Section StepFacts.
Context {T : Type} `{Scalar T}.
Context {Image Distribution : Type}.
Variable log_prob : Distribution -> Image -> list T.
Variable images : Image.
Variable encoder_fn : Image -> list (list (list T)).
Variable decoder_fn : list (list (list T)) -> Distribution.
Variable vq : VectorQuantizer T.
Variables beta decay : R.

Lemma make_vq_vae_inv r :
  make_vq_vae log_prob images encoder_fn decoder_fn vq beta decay = Some r ->
  exists nearest oh,
    call vq (encoder_fn images) = Some (nearest, oh) /\
    ema_count (vq_after r) =
      map2 (fun v x => assign_moving_average v x decay)
           (ema_count vq) (batch_counts vq oh) /\
    ema_means (vq_after r) =
      map2 (map2 (fun v x => assign_moving_average v x decay))
           (ema_means vq) (batch_means vq (encoder_fn images) oh) /\
    updated_ema_count r =
      map (fun c => sadd c (const 1e-5)) (ema_count (vq_after r)) /\
    updated_ema_means r =
      map2 (fun row c => map (fun m => sdiv m c) row)
           (ema_means (vq_after r)) (updated_ema_count r) /\
    codebook (vq_after r) = updated_ema_means r /\
    num_codes (vq_after r) = num_codes vq /\
    code_size (vq_after r) = code_size vq /\
    commitment_loss r = commitment (encoder_fn images) nearest /\
    decoder_distribution r =
      decoder_fn (straight_through (encoder_fn images) nearest) /\
    reconstruction_loss r =
      sneg (reduce_mean (log_prob (decoder_distribution r) images)) /\
    loss r = sadd (smul (const beta) (commitment_loss r))
                  (reconstruction_loss r).
Proof.
  unfold make_vq_vae.
  destruct (call vq (encoder_fn images)) as [[nearest oh]|]; [|discriminate].
  intros Hr; inversion Hr; subst; clear Hr. simpl.
  exists nearest, oh. repeat split; reflexivity.
Qed.

Lemma make_vq_vae_total nearest oh :
  call vq (encoder_fn images) = Some (nearest, oh) ->
  exists r,
    make_vq_vae log_prob images encoder_fn decoder_fn vq beta decay = Some r.
Proof. unfold make_vq_vae. intros ->. eauto. Qed.

End StepFacts.

(** ** The moving averages, entry by entry *)

Section EmaFacts.

Lemma assign_moving_average_R (v x decay : R) :
  assign_moving_average v x decay = decay * v + (1 - decay) * x.
Proof. unfold assign_moving_average. simpl. ring. Qed.

Lemma Forall2_and_left {A B : Type} (P : A -> B -> Prop) (Q : A -> Prop)
    xs ys :
  Forall2 P xs ys -> Forall Q xs -> Forall2 (fun x y => Q x /\ P x y) xs ys.
Proof.
  induction 1 as [|x y xs ys Hxy _ IH]; intros HQ; constructor;
    inversion HQ; subst; auto.
Qed.

Lemma aligned_of_call (vq : VectorQuantizer R) codes nearest oh b l :
  wf_vq vq -> has_shape3 b l (code_size vq) codes ->
  call vq codes = Some (nearest, oh) -> aligned vq codes oh.
Proof.
  intros Hwf [_ Hshape] Hcall.
  pose proof (call_rows _ _ _ _ Hwf Hcall) as Hrows.
  unfold aligned.
  apply (Forall2_and_left _ _ _ _ Hrows) in Hshape.
  eapply Forall2_impl; [|exact Hshape].
  intros crow orow [[_ Hc] Hrow]. simpl in Hc.
  apply (Forall2_and_left _ _ _ _ Hrow) in Hc.
  eapply Forall2_impl; [|exact Hc].
  intros c o [Hlen (k & _ & _ & ->)]. split; [exact Hlen|].
  apply one_hot_length.
Qed.

Lemma ema_vector_nth (decay : R) vs xs k :
  (k < length vs)%nat -> (k < length xs)%nat ->
  nth k (map2 (fun v x => assign_moving_average v x decay) vs xs) 0 =
  decay * nth k vs 0 + (1 - decay) * nth k xs 0.
Proof.
  intros Hv Hx. rewrite (map2_nth _ _ _ _ 0 0) by assumption.
  apply assign_moving_average_R.
Qed.

Lemma shape2_row_length {A : Type} n m (t : list (list A)) k :
  has_shape2 n m t -> (k < n)%nat -> length (nth k t []) = m.
Proof.
  intros [Hn Hrows] Hk. rewrite Forall_forall in Hrows.
  apply Hrows. apply nth_In. lia.
Qed.

Lemma ema_matrix_nth (decay : R) n m vs xs k j :
  has_shape2 n m vs -> has_shape2 n m xs -> (k < n)%nat -> (j < m)%nat ->
  nth j (nth k (map2 (map2 (fun v x => assign_moving_average v x decay))
                     vs xs) []) 0 =
  decay * nth j (nth k vs []) 0 + (1 - decay) * nth j (nth k xs []) 0.
Proof.
  intros Hv Hx Hk Hj.
  pose proof (shape2_row_length _ _ _ k Hv Hk) as Hvk.
  pose proof (shape2_row_length _ _ _ k Hx Hk) as Hxk.
  destruct Hv as [Hv _], Hx as [Hx _].
  rewrite (map2_nth _ _ _ _ [] []) by lia.
  apply ema_vector_nth; lia.
Qed.

Lemma map2_shape2 {A B C : Type} (f : A -> B -> C) n m vs xs :
  has_shape2 n m vs -> has_shape2 n m xs ->
  has_shape2 n m (map2 (map2 f) vs xs).
Proof.
  intros [Hv Hvr] [Hx Hxr]. split.
  - rewrite map2_length. lia.
  - clear Hv Hx. revert xs Hxr.
    induction Hvr as [|v vs Hlv _ IH]; intros [|x xs] Hxr; simpl;
      constructor; inversion Hxr; subst.
    + rewrite map2_length. lia.
    + now apply IH.
Qed.

Lemma normalize_shape2 {A B C : Type} (f : A -> B -> C) n m
    (means : list (list A)) (counts : list B) :
  has_shape2 n m means -> length counts = n ->
  has_shape2 n m (map2 (fun row c => map (fun x => f x c) row) means counts).
Proof.
  intros [Hm Hrows] Hc. split.
  - rewrite map2_length. lia.
  - clear Hm Hc. revert counts.
    induction Hrows as [|row means Hrow _ IH]; intros [|c counts]; simpl;
      constructor; auto.
    now rewrite length_map.
Qed.

Lemma normalize_nth n m (means : list (list R)) (counts : list R) k j :
  has_shape2 n m means -> length counts = n -> (k < n)%nat -> (j < m)%nat ->
  nth j (nth k (map2 (fun row c => map (fun x => x / c) row) means counts)
              []) 0 =
  nth j (nth k means []) 0 / nth k counts 0.
Proof.
  intros Hm Hc Hk Hj.
  pose proof (shape2_row_length _ _ _ k Hm Hk) as Hrow.
  destruct Hm as [Hm _].
  rewrite (map2_nth _ _ _ _ [] 0) by lia.
  now rewrite (nth_map_lt _ _ _ 0) by lia.
Qed.

End EmaFacts.

Section StepFormulas.
Context {Image Distribution : Type}.
Variable log_prob : Distribution -> Image -> list R.
Variable images : Image.
Variable encoder_fn : Image -> list (list (list R)).
Variable decoder_fn : list (list (list R)) -> Distribution.
Variable vq : VectorQuantizer R.
Variables beta decay : R.
Variables b l : nat.
Hypothesis Hwf : wf_vq vq.
Hypothesis Hshape : has_shape3 b l (code_size vq) (encoder_fn images).

Lemma make_vq_vae_returns :
  (0 < num_codes vq)%nat ->
  exists r,
    make_vq_vae log_prob images encoder_fn decoder_fn vq beta decay = Some r.
Proof.
  intros Hpos.
  destruct (call_returns vq (encoder_fn images) Hwf Hpos)
    as (nearest & oh & Hcall).
  eapply make_vq_vae_total; eauto.
Qed.

Lemma step_formulas r :
  make_vq_vae log_prob images encoder_fn decoder_fn vq beta decay = Some r ->
  exists nearest oh,
    call vq (encoder_fn images) = Some (nearest, oh) /\
    aligned vq (encoder_fn images) oh /\
    wf_vq (vq_after r) /\
    num_codes (vq_after r) = num_codes vq /\
    code_size (vq_after r) = code_size vq /\
    codebook (vq_after r) = updated_ema_means r /\
    length (updated_ema_count r) = num_codes vq /\
    forall k, (k < num_codes vq)%nat ->
      nth k (ema_count (vq_after r)) 0 =
        decay * nth k (ema_count vq) 0
        + (1 - decay) * spec_batch_count oh k /\
      nth k (updated_ema_count r) 0 = nth k (ema_count (vq_after r)) 0 + 1e-5 /\
      forall j, (j < code_size vq)%nat ->
        nth j (nth k (ema_means (vq_after r)) []) 0 =
          decay * nth j (nth k (ema_means vq) []) 0
          + (1 - decay) * spec_batch_mean (encoder_fn images) oh k j /\
        nth j (nth k (updated_ema_means r) []) 0 =
          nth j (nth k (ema_means (vq_after r)) []) 0
          / (nth k (ema_count (vq_after r)) 0 + 1e-5).
Proof.
  intros Hr.
  destruct (make_vq_vae_inv _ _ _ _ _ _ _ _ Hr)
    as (nearest & oh & Hcall & Hcount & Hmeans & Hucount & Humeans & Hcb
        & HK & HD & _).
  pose proof (aligned_of_call _ _ _ _ _ _ Hwf Hshape Hcall) as Hal.
  pose proof (aligned_rows _ _ _ Hal) as Hoh.
  pose proof (batch_counts_length vq oh Hoh) as Hbc.
  pose proof (batch_means_shape vq _ _ Hal) as Hbm.
  destruct Hwf as (Hcbs & Hec & Hem).
  assert (Hec' : length (ema_count (vq_after r)) = num_codes vq)
    by (rewrite Hcount, map2_length; lia).
  assert (Hem' : has_shape2 (num_codes vq) (code_size vq)
                            (ema_means (vq_after r)))
    by (rewrite Hmeans; now apply map2_shape2).
  assert (Huc : length (updated_ema_count r) = num_codes vq)
    by (now rewrite Hucount, length_map).
  assert (Hum : has_shape2 (num_codes vq) (code_size vq)
                           (updated_ema_means r))
    by (rewrite Humeans; now apply normalize_shape2).
  exists nearest, oh. repeat (split; [assumption|]).
  split.
  { unfold wf_vq. rewrite HK, HD, Hcb. auto. }
  repeat (split; [assumption|]).
  intros k Hk.
  assert (Huk : nth k (updated_ema_count r) 0 =
                nth k (ema_count (vq_after r)) 0 + 1e-5).
  { rewrite Hucount. rewrite (nth_map_lt _ _ _ 0) by lia. reflexivity. }
  split; [|split; [exact Huk|]].
  - rewrite Hcount, ema_vector_nth by lia.
    now rewrite batch_counts_nth.
  - intros j Hj. split.
    + rewrite Hmeans.
      rewrite (ema_matrix_nth decay (num_codes vq) (code_size vq))
        by assumption.
      now rewrite batch_means_nth.
    + rewrite Humeans.
      rewrite (normalize_nth (num_codes vq) (code_size vq)) by assumption.
      now rewrite Huk.
Qed.

End StepFormulas.

(** ** Claims about the codebook update *)

Section UpdateScenario.

Lemma list2_eq (xs : list R) a b :
  length xs = 2%nat -> nth 0 xs 0 = a -> nth 1 xs 0 = b -> xs = [a; b].
Proof.
  destruct xs as [|x [|y [|z xs]]]; simpl; intros Hl Ha Hb;
    try discriminate. now subst.
Qed.

Lemma scenario_batch_call :
  call scenario_vq scenario_batch =
  Some ([[[0; 0]]; [[0; 0]]], [[[1; 0; 0; 0]]; [[1; 0; 0; 0]]]).
Proof.
  unfold scenario_batch.
  rewrite (call_intro scenario_vq _ [[0%nat]; [0%nat]]).
  - f_equal. f_equal.
    unfold select_row, reduce_sum_rows; simpl.
    repeat f_equal; lra.
  - repeat constructor; apply scenario_argmin_near_origin; lra.
Qed.

End UpdateScenario.

(** In exact real arithmetic one run of the graph leaves in [ema_count] and
    [ema_means] the moving averages
    [decay * old + (1 - decay) * batch statistic], where the batch statistics
    are the sums over all batch and latent positions of the one-hot entries
    and of the one-hot entries times the codes, and writes
    [ema_means'[k] / (ema_count'[k] + 1e-5)] into the codebook; with decay
    0.5, batch count 2 and vector sum [1, 1] for code 0, starting from
    [ema_count[0] = 0] and [ema_means[0] = [0, 0]], that is
    [ema_count[0] = 1], [ema_means[0] = [0.5, 0.5]] and codebook entry
    [[0.5, 0.5] / (1 + 1e-5)]. *)
Lemma ema_codebook_update_exact {Image Distribution : Type}
    (log_prob : Distribution -> Image -> list R) (images : Image)
    (encoder_fn : Image -> list (list (list R)))
    (decoder_fn : list (list (list R)) -> Distribution)
    (vq : VectorQuantizer R) (beta decay : R) (b l : nat) :
  wf_vq vq -> (0 < num_codes vq)%nat ->
  has_shape3 b l (code_size vq) (encoder_fn images) ->
  exists r nearest oh,
    make_vq_vae log_prob images encoder_fn decoder_fn vq beta decay = Some r /\
    call vq (encoder_fn images) = Some (nearest, oh) /\
    (forall k, (k < num_codes vq)%nat ->
       nth k (ema_count (vq_after r)) 0 =
         decay * nth k (ema_count vq) 0
         + (1 - decay) * spec_batch_count oh k /\
       forall j, (j < code_size vq)%nat ->
         nth j (nth k (ema_means (vq_after r)) []) 0 =
           decay * nth j (nth k (ema_means vq) []) 0
           + (1 - decay) * spec_batch_mean (encoder_fn images) oh k j /\
         nth j (nth k (codebook (vq_after r)) []) 0 =
           nth j (nth k (ema_means (vq_after r)) []) 0
           / (nth k (ema_count (vq_after r)) 0 + 1e-5)) /\
    (decay = 0.5 -> code_size vq = 2%nat ->
     spec_batch_count oh 0 = 2 ->
     spec_batch_mean (encoder_fn images) oh 0 0 = 1 ->
     spec_batch_mean (encoder_fn images) oh 0 1 = 1 ->
     nth 0 (ema_count vq) 0 = 0 ->
     nth 0 (ema_means vq) [] = [0; 0] ->
     nth 0 (ema_count (vq_after r)) 0 = 1 /\
     nth 0 (ema_means (vq_after r)) [] = [0.5; 0.5] /\
     nth 0 (codebook (vq_after r)) [] =
       [0.5 / (1 + 1e-5); 0.5 / (1 + 1e-5)]).
Proof.
  intros Hwf Hpos Hshape.
  destruct (make_vq_vae_returns log_prob images encoder_fn decoder_fn vq
              beta decay Hwf Hpos) as [r Hr].
  destruct (step_formulas _ _ _ _ _ _ _ _ _ Hwf Hshape r Hr)
    as (nearest & oh & Hcall & _ & Hwf' & HK & HD & Hcb & _ & Hform).
  exists r, nearest, oh. split; [exact Hr|]. split; [exact Hcall|]. split.
  - intros k Hk. destruct (Hform k Hk) as (Hc & _ & Hm).
    split; [exact Hc|]. intros j Hj. destruct (Hm j Hj) as (Hm1 & Hm2).
    split; [exact Hm1|]. now rewrite Hcb.
  - intros Hdecay Hsize Hcount Hmean0 Hmean1 Hc0 Hm0.
    destruct (Hform 0%nat Hpos) as (Hc & _ & Hm).
    destruct (Hm 0%nat ltac:(lia)) as (Hm00 & Hn00).
    destruct (Hm 1%nat ltac:(lia)) as (Hm01 & Hn01).
    rewrite Hm0 in Hm00, Hm01. simpl in Hm00, Hm01.
    rewrite Hcount, Hc0, Hdecay in Hc.
    rewrite Hmean0, Hdecay in Hm00. rewrite Hmean1, Hdecay in Hm01.
    assert (Hc1 : nth 0 (ema_count (vq_after r)) 0 = 1) by (rewrite Hc; lra).
    assert (Ha : nth 0 (nth 0 (ema_means (vq_after r)) []) 0 = 0.5)
      by (rewrite Hm00; lra).
    assert (Hb : nth 1 (nth 0 (ema_means (vq_after r)) []) 0 = 0.5)
      by (rewrite Hm01; lra).
    destruct Hwf' as (Hcbs & _ & Hems). rewrite HK, HD in Hcbs, Hems.
    split; [exact Hc1|]. split.
    + apply list2_eq; auto.
      rewrite <- Hsize. eapply shape2_row_length; eauto.
    + apply list2_eq.
      * rewrite <- Hsize. eapply shape2_row_length; eauto.
      * rewrite Hcb, Hn00, Ha, Hc1. reflexivity.
      * rewrite Hcb, Hn01, Hb, Hc1. reflexivity.
Qed.

Section ZeroAssignment.

Lemma sum_list_zero {A : Type} (f : A -> R) xs :
  Forall (fun x => f x = 0) xs -> sum_list (map f xs) = 0.
Proof.
  unfold sum_list. induction 1 as [|x xs Hx _ IH]; simpl; [reflexivity|].
  rewrite Hx, IH. lra.
Qed.

Lemma sum_list_nonneg {A : Type} (f : A -> R) xs :
  Forall (fun x => 0 <= f x) xs -> 0 <= sum_list (map f xs).
Proof.
  unfold sum_list. induction 1 as [|x xs Hx _ IH]; simpl; lra.
Qed.

Lemma spec_batch_count_zero oh k :
  unassigned k oh -> spec_batch_count oh k = 0.
Proof.
  intros Hun. unfold spec_batch_count. apply sum_list_zero.
  eapply Forall_impl; [|exact Hun].
  intros orow Hrow. now apply sum_list_zero.
Qed.

Lemma spec_batch_mean_zero codes oh k j :
  unassigned k oh -> spec_batch_mean codes oh k j = 0.
Proof.
  intros Hun. unfold spec_batch_mean. apply sum_list_zero.
  apply Forall_forall. intros [crow orow] Hin. simpl.
  apply in_combine_r in Hin.
  unfold unassigned in Hun. rewrite Forall_forall in Hun.
  specialize (Hun orow Hin). apply sum_list_zero.
  apply Forall_forall. intros [c o] Hin'. simpl.
  apply in_combine_r in Hin'. rewrite Forall_forall in Hun.
  rewrite (Hun o Hin'). lra.
Qed.

End ZeroAssignment.

(** In exact real arithmetic: when no position of the batch is assigned to
    code [k], the batch count and the batch vector sum of [k] are zero and
    the run multiplies [ema_count[k]] and every component of [ema_means[k]]
    by [decay], adding nothing. *)
Lemma zero_assignment_decay_exact {Image Distribution : Type}
    (log_prob : Distribution -> Image -> list R) (images : Image)
    (encoder_fn : Image -> list (list (list R)))
    (decoder_fn : list (list (list R)) -> Distribution)
    (vq : VectorQuantizer R) (beta decay : R) (b l : nat) :
  wf_vq vq -> (0 < num_codes vq)%nat ->
  has_shape3 b l (code_size vq) (encoder_fn images) ->
  exists r nearest oh,
    make_vq_vae log_prob images encoder_fn decoder_fn vq beta decay = Some r /\
    call vq (encoder_fn images) = Some (nearest, oh) /\
    forall k, (k < num_codes vq)%nat -> unassigned k oh ->
      spec_batch_count oh k = 0 /\
      (forall j, spec_batch_mean (encoder_fn images) oh k j = 0) /\
      nth k (ema_count (vq_after r)) 0 = decay * nth k (ema_count vq) 0 /\
      forall j, (j < code_size vq)%nat ->
        nth j (nth k (ema_means (vq_after r)) []) 0 =
        decay * nth j (nth k (ema_means vq) []) 0.
Proof.
  intros Hwf Hpos Hshape.
  destruct (make_vq_vae_returns log_prob images encoder_fn decoder_fn vq
              beta decay Hwf Hpos) as [r Hr].
  destruct (step_formulas _ _ _ _ _ _ _ _ _ Hwf Hshape r Hr)
    as (nearest & oh & Hcall & _ & _ & _ & _ & _ & _ & Hform).
  exists r, nearest, oh. split; [exact Hr|]. split; [exact Hcall|].
  intros k Hk Hun. destruct (Hform k Hk) as (Hc & _ & Hm).
  split; [now apply spec_batch_count_zero|].
  split; [intros j; now apply spec_batch_mean_zero|].
  split.
  - rewrite Hc, spec_batch_count_zero by assumption. lra.
  - intros j Hj. destruct (Hm j Hj) as (Hm1 & _).
    rewrite Hm1, spec_batch_mean_zero by assumption. lra.
Qed.

(** ** The training loop *)

Section TrainFacts.
Context {Image Distribution : Type}.
Variable log_prob : Distribution -> Image -> list R.
Variables beta decay : R.

Lemma one_hot_entry_nonneg depth i k : 0 <= nth k (one_hot (T:=R) depth i) 0.
Proof.
  destruct (Nat.lt_ge_cases k depth) as [Hk|Hk].
  - rewrite one_hot_nth by assumption. destruct (Nat.eqb k i); lra.
  - rewrite nth_overflow; [lra|]. now rewrite one_hot_length.
Qed.

Lemma spec_batch_count_nonneg (vq : VectorQuantizer R) codes nearest oh k :
  wf_vq vq -> call vq codes = Some (nearest, oh) ->
  0 <= spec_batch_count oh k.
Proof.
  intros Hwf Hcall. pose proof (call_rows _ _ _ _ Hwf Hcall) as Hrows.
  clear Hcall. unfold spec_batch_count. apply sum_list_nonneg.
  induction Hrows as [|crow orow codes' oh' Hrow _ IH]; constructor; auto.
  apply sum_list_nonneg. clear IH.
  induction Hrow as [|c o crow' orow' (i & _ & _ & ->) _ IH];
    [constructor|].
  constructor; [apply one_hot_entry_nonneg | exact IH].
Qed.

Lemma step_keeps_count_nonneg (vq : VectorQuantizer R) images encoder_fn
    decoder_fn b l r :
  wf_vq vq -> has_shape3 b l (code_size vq) (encoder_fn images) ->
  0 <= decay <= 1 ->
  Forall (fun c => 0 <= c) (ema_count vq) ->
  make_vq_vae log_prob images encoder_fn decoder_fn vq beta decay = Some r ->
  Forall (fun c => 0 <= c) (ema_count (vq_after r)).
Proof.
  intros Hwf Hshape Hdecay Hnn Hr.
  destruct (step_formulas _ _ _ _ _ _ _ _ _ Hwf Hshape r Hr)
    as (nearest & oh & Hcall & _ & Hwf' & HK & _ & _ & _ & Hform).
  destruct Hwf' as (_ & Hlen' & _). rewrite HK in Hlen'.
  apply Forall_nth. intros k d Hk. rewrite Hlen' in Hk.
  rewrite (nth_indep _ d 0) by lia.
  destruct (Hform k Hk) as (Hc & _). rewrite Hc.
  pose proof (spec_batch_count_nonneg vq _ _ _ k Hwf Hcall) as Hbc.
  destruct Hwf as (_ & Hlen & _).
  assert (Hold : 0 <= nth k (ema_count vq) 0).
  { rewrite Forall_forall in Hnn. apply Hnn. apply nth_In. lia. }
  nra.
Qed.

(** An invariant of single runs is an invariant of the loop, which runs
    to its end on codes of the right shape. *)
Lemma train_invariant (Inv : VectorQuantizer R -> Prop) :
  (forall vq images encoder_fn decoder_fn b l r,
     wf_vq vq -> Inv vq ->
     has_shape3 b l (code_size vq) (encoder_fn images) ->
     make_vq_vae log_prob images encoder_fn decoder_fn vq beta decay = Some r ->
     Inv (vq_after r)) ->
  forall steps vq,
    wf_vq vq -> Inv vq -> (0 < num_codes vq)%nat ->
    Forall (step_shaped (code_size vq)) steps ->
    exists vq_n,
      train log_prob vq beta decay steps = Some vq_n /\
      wf_vq vq_n /\ Inv vq_n /\
      num_codes vq_n = num_codes vq /\ code_size vq_n = code_size vq.
Proof.
  intros Hstep steps.
  induction steps as [|[[images encoder_fn] decoder_fn] steps IH];
    intros vq Hwf Hinv Hpos Hshapes; simpl.
  - exists vq. auto.
  - inversion Hshapes as [|? ? (b & l & Hshape) Hrest]; subst.
    simpl in Hshape.
    destruct (make_vq_vae_returns log_prob images encoder_fn decoder_fn vq
                beta decay Hwf Hpos) as [r Hr].
    rewrite Hr.
    destruct (step_formulas _ _ _ _ _ _ _ _ _ Hwf Hshape r Hr)
      as (_ & _ & _ & _ & Hwf' & HK & HD & _).
    destruct (IH (vq_after r)) as (vq_n & Hn & Hwfn & Hinvn & HKn & HDn).
    + exact Hwf'.
    + apply (Hstep vq images encoder_fn decoder_fn b l r); assumption.
    + now rewrite HK.
    + now rewrite HD.
    + exists vq_n. rewrite HKn, HDn, HK, HD. auto.
Qed.

End TrainFacts.

(** C9.  From the initial [ema_count = 0], after any number of training
    steps with [decay] in (0,1) every entry of [ema_count] is nonnegative;
    so in the next step every divisor [ema_count'[k] + 1e-5] by which the
    codebook is derived is at least [1e-5] and is not zero. *)
Theorem ema_count_nonneg_divisor_positive {Image Distribution : Type}
    (log_prob : Distribution -> Image -> list R)
    (K D : nat) (init : list (list R)) (beta decay : R)
    (steps : list (Step R Image Distribution))
    (last : Step R Image Distribution) :
  0 < decay < 1 -> (0 < K)%nat -> has_shape2 K D init ->
  Forall (step_shaped D) (steps ++ [last]) ->
  exists vq_n r,
    train log_prob (init_VectorQuantizer K D init) beta decay steps
      = Some vq_n /\
    Forall (fun c => 0 <= c) (ema_count vq_n) /\
    make_vq_vae log_prob (fst (fst last)) (snd (fst last)) (snd last)
                vq_n beta decay = Some r /\
    Forall (fun c => 0 <= c) (ema_count (vq_after r)) /\
    updated_ema_count r = map (fun c => c + 1e-5) (ema_count (vq_after r)) /\
    codebook (vq_after r) =
      map2 (fun row c => map (fun m => m / c) row)
           (ema_means (vq_after r)) (updated_ema_count r) /\
    Forall (fun c => 1e-5 <= c /\ c <> 0) (updated_ema_count r).
Proof.
  intros Hdecay HK Hinit Hshapes.
  apply Forall_app in Hshapes. destruct Hshapes as [Hsteps Hlast].
  inversion Hlast as [|? ? (b & l & Hshape) _]; subst.
  set (vq0 := init_VectorQuantizer K D init).
  assert (Hwf0 : wf_vq vq0) by (now apply init_VectorQuantizer_wf).
  assert (Hnn0 : Forall (fun c => 0 <= c) (ema_count vq0)).
  { unfold vq0; simpl. apply Forall_forall. intros c Hc.
    apply repeat_spec in Hc. subst. simpl. lra. }
  destruct (train_invariant log_prob beta decay
              (fun vq => Forall (fun c => 0 <= c) (ema_count vq)))
    with (steps := steps) (vq := vq0)
    as (vq_n & Hn & Hwfn & Hnn & HKn & HDn); auto.
  { intros vq images encoder_fn decoder_fn b' l' r Hwf Hnn Hsh Hr.
    eapply step_keeps_count_nonneg; eauto. lra. }
  simpl in HKn, HDn.
  destruct last as [[images encoder_fn] decoder_fn]. simpl in *.
  rewrite <- HDn in Hshape.
  destruct (make_vq_vae_returns log_prob images encoder_fn decoder_fn vq_n
              beta decay Hwfn ltac:(lia)) as [r Hr].
  pose proof (step_keeps_count_nonneg log_prob beta decay vq_n _ _ _ _ _ r
                Hwfn Hshape ltac:(lra) Hnn Hr) as Hnn'.
  destruct (make_vq_vae_inv _ _ _ _ _ _ _ _ Hr)
    as (_ & _ & _ & _ & _ & Hucount & Humeans & Hcb & _).
  exists vq_n, r.
  split; [exact Hn|]. split; [exact Hnn|]. split; [exact Hr|].
  split; [exact Hnn'|]. split; [exact Hucount|].
  split; [rewrite Hcb; exact Humeans|].
  rewrite Hucount. apply Forall_map.
  eapply Forall_impl; [|exact Hnn']. simpl. intros c Hc. lra.
Qed.

Lemma ema_count_nonneg_divisor_positive_witness :
  exists vq_n r,
    train toy_log_prob (init_VectorQuantizer 4 2 scenario_codebook) 0.25 0.5
          [(tt, scenario_encoder, toy_decoder)] = Some vq_n /\
    Forall (fun c => 0 <= c) (ema_count vq_n) /\
    make_vq_vae toy_log_prob tt scenario_encoder toy_decoder vq_n 0.25 0.5
      = Some r /\
    Forall (fun c => 0 <= c) (ema_count (vq_after r)) /\
    updated_ema_count r = map (fun c => c + 1e-5) (ema_count (vq_after r)) /\
    codebook (vq_after r) =
      map2 (fun row c => map (fun m => m / c) row)
           (ema_means (vq_after r)) (updated_ema_count r) /\
    Forall (fun c => 1e-5 <= c /\ c <> 0) (updated_ema_count r).
Proof.
  apply (ema_count_nonneg_divisor_positive toy_log_prob 4 2 scenario_codebook
           0.25 0.5 [(tt, scenario_encoder, toy_decoder)]
           (tt, scenario_encoder, toy_decoder)).
  - lra.
  - lia.
  - shape_tac.
  - repeat constructor; exists 2%nat, 1%nat; shape_tac.
Defined.

(** C10.  At every step of a training run the codebook alone receives the
    normalized value: [ema_means] keeps the moving average
    [decay * ema_means + (1 - decay) * batch_means] and [ema_count] keeps
    [decay * ema_count + (1 - decay) * batch_counts]; the [1e-5] is added to,
    and the division performed on, derived tensors only, whose quotient goes
    to the codebook. *)
Theorem update_normalizes_codebook_only {Image Distribution : Type}
    (log_prob : Distribution -> Image -> list R)
    (vq0 : VectorQuantizer R) (beta decay : R)
    (steps : list (Step R Image Distribution))
    (images : Image) (encoder_fn : Image -> list (list (list R)))
    (decoder_fn : list (list (list R)) -> Distribution) :
  wf_vq vq0 -> (0 < num_codes vq0)%nat ->
  Forall (step_shaped (code_size vq0))
         (steps ++ [(images, encoder_fn, decoder_fn)]) ->
  exists vq_n r nearest oh,
    train log_prob vq0 beta decay steps = Some vq_n /\
    make_vq_vae log_prob images encoder_fn decoder_fn vq_n beta decay
      = Some r /\
    call vq_n (encoder_fn images) = Some (nearest, oh) /\
    num_codes (vq_after r) = num_codes vq_n /\
    code_size (vq_after r) = code_size vq_n /\
    forall k, (k < num_codes vq_n)%nat ->
      nth k (ema_count (vq_after r)) 0 =
        decay * nth k (ema_count vq_n) 0
        + (1 - decay) * spec_batch_count oh k /\
      nth k (updated_ema_count r) 0 =
        nth k (ema_count (vq_after r)) 0 + 1e-5 /\
      forall j, (j < code_size vq_n)%nat ->
        nth j (nth k (ema_means (vq_after r)) []) 0 =
          decay * nth j (nth k (ema_means vq_n) []) 0
          + (1 - decay) * spec_batch_mean (encoder_fn images) oh k j /\
        nth j (nth k (updated_ema_means r) []) 0 =
          nth j (nth k (ema_means (vq_after r)) []) 0
          / nth k (updated_ema_count r) 0 /\
        nth j (nth k (codebook (vq_after r)) []) 0 =
          nth j (nth k (updated_ema_means r) []) 0.
Proof.
  intros Hwf0 Hpos Hshapes.
  apply Forall_app in Hshapes. destruct Hshapes as [Hsteps Hlast].
  inversion Hlast as [|? ? (b & l & Hshape) _]; subst. simpl in Hshape.
  destruct (train_invariant log_prob beta decay (fun _ => True))
    with (steps := steps) (vq := vq0)
    as (vq_n & Hn & Hwfn & _ & HKn & HDn); auto.
  rewrite <- HDn in Hshape.
  destruct (make_vq_vae_returns log_prob images encoder_fn decoder_fn vq_n
              beta decay Hwfn ltac:(lia)) as [r Hr].
  destruct (step_formulas _ _ _ _ _ _ _ _ _ Hwfn Hshape r Hr)
    as (nearest & oh & Hcall & _ & _ & HK & HD & Hcb & _ & Hform).
  exists vq_n, r, nearest, oh.
  split; [exact Hn|]. split; [exact Hr|]. split; [exact Hcall|].
  split; [exact HK|]. split; [exact HD|].
  intros k Hk. destruct (Hform k Hk) as (Hc & Hu & Hm).
  split; [exact Hc|]. split; [exact Hu|].
  intros j Hj. destruct (Hm j Hj) as (Hm1 & Hm2).
  split; [exact Hm1|]. split; [now rewrite Hu|]. now rewrite Hcb.
Qed.

Lemma update_normalizes_codebook_only_witness :
  exists vq_n r nearest oh,
    train toy_log_prob scenario_vq 0.25 0.5
          [(tt, scenario_encoder, toy_decoder)] = Some vq_n /\
    make_vq_vae toy_log_prob tt scenario_encoder toy_decoder vq_n 0.25 0.5
      = Some r /\
    call vq_n (scenario_encoder tt) = Some (nearest, oh) /\
    num_codes (vq_after r) = num_codes vq_n /\
    code_size (vq_after r) = code_size vq_n /\
    forall k, (k < num_codes vq_n)%nat ->
      nth k (ema_count (vq_after r)) 0 =
        0.5 * nth k (ema_count vq_n) 0
        + (1 - 0.5) * spec_batch_count oh k /\
      nth k (updated_ema_count r) 0 =
        nth k (ema_count (vq_after r)) 0 + 1e-5 /\
      forall j, (j < code_size vq_n)%nat ->
        nth j (nth k (ema_means (vq_after r)) []) 0 =
          0.5 * nth j (nth k (ema_means vq_n) []) 0
          + (1 - 0.5) * spec_batch_mean (scenario_encoder tt) oh k j /\
        nth j (nth k (updated_ema_means r) []) 0 =
          nth j (nth k (ema_means (vq_after r)) []) 0
          / nth k (updated_ema_count r) 0 /\
        nth j (nth k (codebook (vq_after r)) []) 0 =
          nth j (nth k (updated_ema_means r) []) 0.
Proof.
  apply (update_normalizes_codebook_only toy_log_prob scenario_vq 0.25 0.5
           [(tt, scenario_encoder, toy_decoder)]
           tt scenario_encoder toy_decoder).
  - shape_tac.
  - simpl. lia.
  - repeat constructor; exists 2%nat, 1%nat; shape_tac.
Defined.

(** ** The straight-through value *)

Section StraightThrough.

Lemma straight_through_scalar (c n : R) :
  sadd c (stop_gradient (ssub n c)) = n.
Proof. simpl. ring. Qed.

Lemma straight_through_same_shape (codes nearest : list (list (list R))) :
  Forall2 (Forall2 (fun c n => length c = length n)) codes nearest ->
  straight_through codes nearest = nearest.
Proof.
  unfold straight_through.
  induction 1 as [|crow nrow codes nearest Hrow _ IH]; simpl; auto.
  f_equal; [|exact IH]. clear IH.
  induction Hrow as [|c n crow nrow Hlen _ IH]; simpl; auto.
  f_equal; [|exact IH]. clear IH.
  revert n Hlen. induction c as [|x c IH]; intros [|y n] Hlen; simpl in *;
    try discriminate; auto.
  f_equal; [ring | apply IH; lia].
Qed.

Lemma call_same_shape (vq : VectorQuantizer R) codes nearest oh b l :
  wf_vq vq -> has_shape3 b l (code_size vq) codes ->
  call vq codes = Some (nearest, oh) ->
  Forall2 (Forall2 (fun c n => length c = length n)) codes nearest.
Proof.
  intros Hwf Hshape Hcall.
  pose proof (aligned_of_call _ _ _ _ _ _ Hwf Hshape Hcall) as Hal.
  pose proof (call_rows _ _ _ _ Hwf Hcall) as Hrows.
  destruct (call_inv _ _ _ _ Hcall) as (_ & ->). clear Hcall Hshape.
  unfold aligned in Hal.
  revert Hal. induction Hrows as [|crow orow codes oh Hrow _ IH];
    intros Hal; simpl; constructor; inversion Hal; subst; auto.
  clear IH Hal. match goal with Ha : Forall2 _ crow orow |- _ =>
    revert Ha end.
  induction Hrow as [|c o crow orow (k & _ & Hk & ->) _ IH];
    intros Ha; simpl; constructor; inversion Ha as [|? ? ? ? [Hc _] Hrest];
    subst; auto.
  rewrite select_row_one_hot by assumption.
  destruct Hwf as (Hcb & _). rewrite Hc. symmetry.
  eapply shape2_row_length; eauto.
Qed.

End StraightThrough.

(** ** The [decay] flag is not checked *)

Section DecayFlag.

Lemma decay_flag_accepts (d : R) : FLAGS_decay (Some d) = Some d.
Proof. reflexivity. Qed.

Lemma decay_flag_default :
  FLAGS_decay None = Some 0.99 /\ 0 < 0.99 < 1.
Proof. split; [reflexivity | lra]. Qed.

End DecayFlag.

(** C7, as the program has it.  No value of [decay] is refused: the flag is
    declared without bounds, so [FLAGS.decay] is whatever the command line
    gives, and [make_vq_vae] goes into the moving-average update with it,
    inside (0,1) or not: [ema_count'[k] = decay * ema_count[k] +
    (1 - decay) * batch_counts[k]] for every real [decay]. *)
Theorem decay_is_not_validated {Image Distribution : Type}
    (log_prob : Distribution -> Image -> list R) (images : Image)
    (encoder_fn : Image -> list (list (list R)))
    (decoder_fn : list (list (list R)) -> Distribution)
    (vq : VectorQuantizer R) (beta d : R) (b l : nat) :
  wf_vq vq -> (0 < num_codes vq)%nat ->
  has_shape3 b l (code_size vq) (encoder_fn images) ->
  FLAGS_decay (Some d) = Some d /\
  exists r nearest oh,
    main log_prob images encoder_fn decoder_fn vq beta (Some d) = Some r /\
    make_vq_vae log_prob images encoder_fn decoder_fn vq beta d = Some r /\
    call vq (encoder_fn images) = Some (nearest, oh) /\
    forall k, (k < num_codes vq)%nat ->
      nth k (ema_count (vq_after r)) 0 =
        d * nth k (ema_count vq) 0 + (1 - d) * spec_batch_count oh k.
Proof.
  intros Hwf Hpos Hshape. split; [reflexivity|].
  destruct (make_vq_vae_returns log_prob images encoder_fn decoder_fn vq
              beta d Hwf Hpos) as [r Hr].
  destruct (step_formulas _ _ _ _ _ _ _ _ _ Hwf Hshape r Hr)
    as (nearest & oh & Hcall & _ & _ & _ & _ & _ & _ & Hform).
  exists r, nearest, oh.
  split; [exact Hr|]. split; [exact Hr|]. split; [exact Hcall|].
  intros k Hk. now destruct (Hform k Hk) as (Hc & _).
Qed.

Lemma decay_is_not_validated_witness :
  FLAGS_decay (Some 2) = Some 2 /\
  exists r nearest oh,
    main toy_log_prob tt scenario_encoder toy_decoder scenario_vq 0.25
         (Some 2) = Some r /\
    make_vq_vae toy_log_prob tt scenario_encoder toy_decoder scenario_vq
                0.25 2 = Some r /\
    call scenario_vq (scenario_encoder tt) = Some (nearest, oh) /\
    forall k, (k < num_codes scenario_vq)%nat ->
      nth k (ema_count (vq_after r)) 0 =
        2 * nth k (ema_count scenario_vq) 0
        + (1 - 2) * spec_batch_count oh k.
Proof.
  apply (decay_is_not_validated toy_log_prob tt scenario_encoder toy_decoder
           scenario_vq 0.25 2 2 1).
  - shape_tac.
  - simpl. lia.
  - shape_tac.
Defined.

(** C7, as the specification has it, fails: [decay = 2] lies outside (0,1),
    yet [main] returns a run of the graph, in which the moving average of
    the count of code 0 becomes negative. *)
Lemma decay_outside_unit_interval_accepted :
  ~ (0 < 2 < 1) /\
  exists r,
    main toy_log_prob tt scenario_encoder toy_decoder scenario_vq 0.25
         (Some 2) = Some r /\
    nth 0 (ema_count (vq_after r)) 0 = -2.
Proof.
  split; [lra|].
  destruct (make_vq_vae_returns toy_log_prob tt scenario_encoder toy_decoder
              scenario_vq 0.25 2) as [r Hr];
    [shape_tac | simpl; lia |].
  exists r. split; [exact Hr|].
  destruct (step_formulas toy_log_prob tt scenario_encoder toy_decoder
              scenario_vq 0.25 2 2 1 ltac:(shape_tac) ltac:(shape_tac) r Hr)
    as (nearest & oh & Hcall & _ & _ & _ & _ & _ & _ & Hform).
  unfold scenario_encoder in Hcall. rewrite scenario_batch_call in Hcall.
  inversion Hcall; subst.
  destruct (Hform 0%nat ltac:(simpl; lia)) as (Hc & _).
  rewrite Hc. unfold spec_batch_count, sum_list. simpl. lra.
Qed.

(** ** Derivatives along a perturbation of the codebook *)

Section Gradient.

Lemma tan_sadd (x y : Dual) : tan (sadd x y) = tan x + tan y.
Proof. reflexivity. Qed.

Lemma tan_sneg (x : Dual) : tan (sneg x) = - tan x.
Proof. reflexivity. Qed.

Lemma tan_scaled (b : R) (x : Dual) : tan (smul (const b) x) = b * tan x.
Proof. simpl. ring. Qed.

Lemma tan_reduce_sum (xs : list Dual) :
  tangent_free xs -> tan (reduce_sum xs) = 0.
Proof.
  unfold reduce_sum. induction 1 as [|x xs Hx _ IH]; [reflexivity|].
  cbn [fold_right]. rewrite tan_sadd, Hx, IH. lra.
Qed.

Lemma tan_reduce_mean (xs : list Dual) :
  tangent_free xs -> tan (reduce_mean xs) = 0.
Proof.
  intros Hxs. unfold reduce_mean. simpl.
  rewrite (tan_reduce_sum xs Hxs). unfold Rdiv. ring.
Qed.

Lemma tangent_free_concat (xss : list (list Dual)) :
  Forall tangent_free xss -> tangent_free (concat xss).
Proof. unfold tangent_free. now rewrite Forall_concat. Qed.

Lemma straight_through_tangent_free (codes nearest : list (list (list Dual))) :
  tangent_free3 codes -> tangent_free3 (straight_through codes nearest).
Proof.
  unfold tangent_free3, straight_through. intros Hc. revert nearest.
  induction Hc as [|crow codes Hrow _ IH]; intros [|nrow nearest]; simpl;
    constructor; auto.
  clear IH. revert nrow.
  induction Hrow as [|c crow Hcode _ IH]; intros [|n nrow]; simpl;
    constructor; auto.
  clear IH. revert n.
  induction Hcode as [|x c Hx _ IH]; intros [|y n]; simpl;
    constructor; [simpl; rewrite Hx; lra | apply IH].
Qed.

Lemma commitment_terms_tangent_free (codes nearest : list (list (list Dual))) :
  tangent_free3 codes ->
  tangent_free3
    (map2 (map2 (map2 (fun c n => square (ssub c (stop_gradient n)))))
          codes nearest).
Proof.
  unfold tangent_free3. intros Hc. revert nearest.
  induction Hc as [|crow codes Hrow _ IH]; intros [|nrow nearest]; simpl;
    constructor; auto.
  clear IH. revert nrow.
  induction Hrow as [|c crow Hcode _ IH]; intros [|n nrow]; simpl;
    constructor; auto.
  clear IH. revert n.
  induction Hcode as [|x c Hx _ IH]; intros [|y n]; simpl;
    constructor; [simpl; rewrite Hx; ring | apply IH].
Qed.

Lemma tan_commitment (codes nearest : list (list (list Dual))) :
  tangent_free3 codes -> tan (commitment codes nearest) = 0.
Proof.
  intros Hc. unfold commitment. apply tan_reduce_mean.
  apply tangent_free_concat.
  pose proof (commitment_terms_tangent_free codes nearest Hc) as Ht.
  unfold tangent_free3 in Ht. unfold tangent_free.
  apply Forall_concat.
  eapply Forall_impl; [|exact Ht]. intros row Hrow. exact Hrow.
Qed.

Lemma toy_log_prob_tangent_free (z : list (list (list Dual))) :
  tangent_free3 z -> tangent_free (toy_log_prob (toy_decoder z) tt).
Proof.
  unfold toy_log_prob, toy_decoder, tangent_free3, tangent_free.
  intros Hz. apply Forall_map.
  eapply Forall_impl; [|exact Hz]. intros elem Helem. simpl.
  rewrite tan_reduce_sum; [lra|].
  unfold tangent_free. apply Forall_map.
  apply Forall_concat in Helem.
  eapply Forall_impl; [|exact Helem]. intros x Hx. simpl. rewrite Hx. ring.
Qed.

Lemma dual_scenario_codes_tangent_free :
  tangent_free3 (dual_scenario_encoder tt).
Proof.
  unfold tangent_free3, tangent_free, dual_scenario_encoder, scenario_batch.
  simpl. repeat constructor.
Qed.

(** The nearest entries do vary with the codebook: in the scenario their
    derivative is that of the codebook entry they are. *)
Lemma dual_scenario_nearest_varies :
  exists nearest oh,
    call dual_scenario_vq [[[mkDual 0.1 0; mkDual 0.1 0]]]
      = Some (nearest, oh) /\
    map (map (map tan)) nearest = [[[1; 1]]].
Proof.
  eexists _, _. split.
  - apply (call_intro dual_scenario_vq _ [[0%nat]]).
    repeat constructor. apply argmin_first_min.
    unfold is_first_min. simpl. split; [lia|]. split.
    + intros j Hj.
      destruct j as [|[|[|[|j]]]]; try lia; apply sqrt_le_1_alt; nra.
    + intros j Hj. lia.
  - unfold select_row, reduce_sum_rows; simpl. repeat f_equal; lra.
Qed.

End Gradient.

(** The forward values of the quantizer under differentiation are the
    quantizer on forward values. *)

Section ForwardValues.

Lemma val_map2 (f : Dual -> Dual -> Dual) (g : R -> R -> R) xs ys :
  (forall x y, val (f x y) = g (val x) (val y)) ->
  map val (map2 f xs ys) = map2 g (map val xs) (map val ys).
Proof.
  intros Hfg. revert ys; induction xs as [|x xs IH]; intros [|y ys]; simpl;
    auto.
  now rewrite Hfg, IH.
Qed.

Lemma val_reduce_sum (xs : list Dual) :
  val (reduce_sum xs) = reduce_sum (map val xs).
Proof.
  unfold reduce_sum. induction xs as [|x xs IH]; [reflexivity|].
  cbn [fold_right map]. rewrite <- IH. reflexivity.
Qed.

Lemma val_norm (v : list Dual) : val (norm v) = norm (map val v).
Proof.
  unfold norm. cbn [ssqrt Dual_Scalar R_Scalar val].
  rewrite val_reduce_sum, !map_map. reflexivity.
Qed.

Lemma val_distance_row (c : list Dual) (cb : list (list Dual)) :
  map val (map (fun e => norm (map2 ssub c e)) cb) =
  map (fun e => norm (map2 ssub (map val c) e)) (map (map val) cb).
Proof.
  rewrite !map_map. apply map_ext. intros e.
  rewrite val_norm. f_equal. now apply val_map2.
Qed.

Lemma argmin_scan_forward (xs : list Dual) : forall best_i best i,
  argmin_scan best_i best i xs = argmin_scan best_i (val best) i (map val xs).
Proof.
  induction xs as [|x xs IH]; intros best_i best i; [reflexivity|].
  cbn [argmin_scan map].
  change (sltb x best) with (sltb (val x) (val best)).
  destruct (sltb (val x) (val best)); apply IH.
Qed.

Lemma argmin_forward (xs : list Dual) : argmin xs = argmin (map val xs).
Proof.
  destruct xs as [|x xs]; [reflexivity|]. simpl. f_equal.
  apply argmin_scan_forward.
Qed.

Lemma val_one_hot depth i : map val (one_hot depth i) = one_hot depth i.
Proof.
  unfold one_hot. rewrite map_map. apply map_ext. intros k.
  now destruct (Nat.eqb k i).
Qed.

Lemma val_reduce_sum_rows d (rows : list (list Dual)) :
  map val (reduce_sum_rows d rows) = reduce_sum_rows d (map (map val) rows).
Proof.
  unfold reduce_sum_rows. induction rows as [|r rows IH].
  - simpl. rewrite map_repeat. reflexivity.
  - cbn [fold_right map]. rewrite <- IH. now apply val_map2.
Qed.

Lemma val_select_row (vq : VectorQuantizer Dual) (oh : list Dual) :
  map val (select_row vq oh) = select_row (forward_vq vq) (map val oh).
Proof.
  unfold select_row. rewrite val_reduce_sum_rows. f_equal.
  cbn [codebook forward_vq]. generalize (codebook vq) as cb.
  induction oh as [|o oh IH]; intros [|e cb]; simpl; auto.
  rewrite IH, !map_map. reflexivity.
Qed.

Lemma mapM_argmin_forward (rows : list (list Dual)) :
  mapM argmin (map (map val) rows) = mapM argmin rows.
Proof.
  induction rows as [|row rows IH]; [reflexivity|].
  cbn [map mapM]. now rewrite <- argmin_forward, IH.
Qed.

Lemma call_forward (vq : VectorQuantizer Dual) codes :
  call (forward_vq vq) (forward3 codes) =
  match call vq codes with
  | Some (nearest, oh) => Some (forward3 nearest, forward3 oh)
  | None => None
  end.
Proof.
  unfold call.
  assert (Hd : mapM (mapM argmin) (distances (forward_vq vq) (forward3 codes))
               = mapM (mapM argmin) (distances vq codes)).
  { unfold distances, forward3. cbn [codebook forward_vq].
    induction codes as [|crow codes IH]; [reflexivity|].
    cbn [map mapM]. rewrite IH.
    replace (mapM argmin
               (map (fun c => map (fun e => norm (map2 ssub c e))
                                  (map (map val) (codebook vq)))
                    (map (map val) crow)))
      with (mapM argmin
              (map (fun c => map (fun e => norm (map2 ssub c e)) (codebook vq))
                   crow)); [reflexivity|].
    rewrite <- mapM_argmin_forward, !map_map. f_equal.
    apply map_ext. intros c. apply val_distance_row. }
  rewrite Hd. destruct (mapM (mapM argmin) (distances vq codes)) as [ks|];
    [|reflexivity].
  cbv zeta. unfold forward3. cbn [num_codes forward_vq]. f_equal. f_equal.
  - rewrite !map_map. apply map_ext. intros krow.
    rewrite !map_map. apply map_ext. intros k.
    now rewrite val_select_row, val_one_hot.
  - rewrite !map_map. apply map_ext. intros krow.
    rewrite !map_map. apply map_ext. intros k.
    now rewrite val_one_hot.
Qed.

End ForwardValues.

(** C2.  Differentiate one run of the graph along any perturbation of the
    codebook entries (the codes, which come from the encoder, and the
    decoder do not vary with it).  The derivatives of the reconstruction
    loss, of the commitment loss and of [loss = beta * commitment_loss +
    reconstruction_loss] are all zero: [tf.stop_gradient] cuts both paths
    from the codebook to the loss.  The codebook gets its new value from the
    moving averages. *)
Theorem codebook_gradient_zero {Image Distribution : Type}
    (log_prob : Distribution -> Image -> list Dual) (images : Image)
    (encoder_fn : Image -> list (list (list Dual)))
    (decoder_fn : list (list (list Dual)) -> Distribution)
    (vq : VectorQuantizer Dual) (beta decay : R) :
  codebook vq <> [] ->
  tangent_free3 (encoder_fn images) ->
  (forall z, tangent_free3 z -> tangent_free (log_prob (decoder_fn z) images)) ->
  exists r,
    make_vq_vae log_prob images encoder_fn decoder_fn vq beta decay = Some r /\
    tan (reconstruction_loss r) = 0 /\
    tan (commitment_loss r) = 0 /\
    tan (loss r) = 0 /\
    codebook (vq_after r) = updated_ema_means r.
Proof.
  intros Hne Hcodes Hdec.
  destruct (call_total vq (encoder_fn images) Hne) as (nearest & oh & Hcall).
  destruct (make_vq_vae_total log_prob images encoder_fn decoder_fn vq beta
              decay nearest oh Hcall) as [r Hr].
  destruct (make_vq_vae_inv _ _ _ _ _ _ _ _ Hr)
    as (nearest' & oh' & Hcall' & _ & _ & _ & _ & Hcb & _ & _ & Hcl & Hdd
        & Hrl & Hl).
  rewrite Hcall in Hcall'. inversion Hcall'; subst nearest' oh'.
  assert (Hrec : tan (reconstruction_loss r) = 0).
  { rewrite Hrl, Hdd, tan_sneg, tan_reduce_mean; [lra|].
    apply Hdec. now apply straight_through_tangent_free. }
  assert (Hcom : tan (commitment_loss r) = 0).
  { rewrite Hcl. now apply tan_commitment. }
  exists r. split; [exact Hr|]. split; [exact Hrec|]. split; [exact Hcom|].
  split; [|exact Hcb].
  rewrite Hl, tan_sadd, tan_scaled, Hrec, Hcom. ring.
Qed.

Lemma codebook_gradient_zero_witness :
  exists r,
    make_vq_vae toy_log_prob tt dual_scenario_encoder toy_decoder
                dual_scenario_vq 0.25 0.5 = Some r /\
    tan (reconstruction_loss r) = 0 /\
    tan (commitment_loss r) = 0 /\
    tan (loss r) = 0 /\
    codebook (vq_after r) = updated_ema_means r.
Proof.
  apply (codebook_gradient_zero toy_log_prob tt dual_scenario_encoder
           toy_decoder dual_scenario_vq 0.25 0.5).
  - simpl. discriminate.
  - exact dual_scenario_codes_tangent_free.
  - exact toy_log_prob_tangent_free.
Defined.

(** * Further properties of the program *)

(** ** The commitment loss *)

Section CommitmentFacts.

Lemma reduce_sum_R_cons (x : R) (xs : list R) :
  reduce_sum (x :: xs) = x + reduce_sum xs.
Proof. reflexivity. Qed.

Lemma reduce_sum_R_nonneg (xs : list R) :
  Forall (fun x => 0 <= x) xs -> 0 <= reduce_sum xs.
Proof.
  induction 1 as [|x xs Hx _ IH]; [apply Rle_refl|].
  rewrite reduce_sum_R_cons. lra.
Qed.

(** The squared differences behind the commitment loss. *)
Lemma commitment_terms_nonneg (codes nearest : list (list (list R))) :
  Forall (fun x => 0 <= x)
    (concat (concat
       (map2 (map2 (map2 (fun c n => square (ssub c (stop_gradient n)))))
             codes nearest))).
Proof.
  apply Forall_concat. apply Forall_concat.
  revert nearest. induction codes as [|crow codes IH]; intros [|nrow nearest];
    simpl; constructor; auto.
  clear IH. revert nrow. induction crow as [|c crow IH]; intros [|n nrow];
    simpl; constructor; auto.
  clear IH. revert n. induction c as [|x c IH]; intros [|y n]; simpl;
    constructor; auto.
  pose proof (Rle_0_sqr (x - y)) as Hsq. unfold Rsqr in Hsq. exact Hsq.
Qed.

End CommitmentFacts.

(** ** The shapes over a run *)

(** X5.  On codes of shape [[batch, latent, code_size]] and with a codebook
    that has an entry, the loop never fails, and after any number of runs
    the three variables still have the shapes and sizes [__init__] gave
    them. *)
Theorem train_keeps_shapes {Image Distribution : Type}
    (log_prob : Distribution -> Image -> list R)
    (vq0 : VectorQuantizer R) (beta decay : R)
    (steps : list (Step R Image Distribution)) :
  wf_vq vq0 -> (0 < num_codes vq0)%nat ->
  Forall (step_shaped (code_size vq0)) steps ->
  exists vq_n,
    train log_prob vq0 beta decay steps = Some vq_n /\
    num_codes vq_n = num_codes vq0 /\
    code_size vq_n = code_size vq0 /\
    has_shape2 (num_codes vq0) (code_size vq0) (codebook vq_n) /\
    length (ema_count vq_n) = num_codes vq0 /\
    has_shape2 (num_codes vq0) (code_size vq0) (ema_means vq_n).
Proof.
  intros Hwf Hpos Hsteps.
  destruct (train_invariant log_prob beta decay (fun _ => True))
    with (steps := steps) (vq := vq0)
    as (vq_n & Hn & (Hcb & Hec & Hem) & _ & HK & HD); auto.
  exists vq_n. rewrite HK, HD in *. auto 10.
Qed.

Lemma train_keeps_shapes_witness :
  exists vq_n,
    train toy_log_prob scenario_vq 0.25 0.5
          [(tt, scenario_encoder, toy_decoder);
           (tt, scenario_encoder, toy_decoder)] = Some vq_n /\
    num_codes vq_n = num_codes scenario_vq /\
    code_size vq_n = code_size scenario_vq /\
    has_shape2 (num_codes scenario_vq) (code_size scenario_vq)
               (codebook vq_n) /\
    length (ema_count vq_n) = num_codes scenario_vq /\
    has_shape2 (num_codes scenario_vq) (code_size scenario_vq)
               (ema_means vq_n).
Proof.
  apply (train_keeps_shapes toy_log_prob scenario_vq 0.25 0.5
           [(tt, scenario_encoder, toy_decoder);
            (tt, scenario_encoder, toy_decoder)]).
  - shape_tac.
  - simpl. lia.
  - repeat constructor; exists 2%nat, 1%nat; shape_tac.
Defined.

(** ** Reshaping *)

Section ReshapeFacts.
Context {A : Type}.

Lemma reshape2_S (n d : nat) (v : list A) :
  reshape2 (S n) d v = firstn d v :: reshape2 n d (skipn d v).
Proof.
  unfold reshape2. rewrite <- cons_seq, <- seq_shift. cbn [map].
  f_equal. rewrite map_map. apply map_ext. intros i.
  rewrite skipn_skipn. do 2 f_equal. simpl. lia.
Qed.

Lemma reshape2_shape (n d : nat) : forall v : list A,
  length v = (n * d)%nat -> has_shape2 n d (reshape2 n d v).
Proof.
  induction n as [|n IH]; intros v Hv.
  - split; [reflexivity | constructor].
  - rewrite reshape2_S.
    destruct (IH (skipn d v)) as [Hlen Hrows].
    { rewrite length_skipn, Hv. simpl. lia. }
    split; [simpl; now rewrite Hlen|].
    constructor; [|exact Hrows].
    rewrite length_firstn, Hv. simpl. lia.
Qed.

Lemma concat_reshape2 (n d : nat) : forall v : list A,
  length v = (n * d)%nat -> concat (reshape2 n d v) = v.
Proof.
  induction n as [|n IH]; intros v Hv.
  - destruct v; [reflexivity | discriminate].
  - rewrite reshape2_S. cbn [concat]. rewrite IH.
    + apply firstn_skipn.
    + rewrite length_skipn, Hv. simpl. lia.
Qed.

Lemma reshape2_concat (d : nat) (rows : list (list A)) :
  Forall (fun row => length row = d) rows ->
  reshape2 (length rows) d (concat rows) = rows.
Proof.
  induction 1 as [|row rows Hrow _ IH]; [reflexivity|].
  cbn [length concat]. rewrite reshape2_S.
  assert (Hfirst : firstn d (row ++ concat rows) = row).
  { rewrite <- Hrow, firstn_app, Nat.sub_diag, firstn_all. simpl.
    apply app_nil_r. }
  assert (Hskip : skipn d (row ++ concat rows) = concat rows).
  { rewrite <- Hrow, skipn_app, Nat.sub_diag, skipn_all. reflexivity. }
  now rewrite Hfirst, Hskip, IH.
Qed.

Lemma shape2_concat_length (n d : nat) (t : list (list A)) :
  has_shape2 n d t -> length (concat t) = (n * d)%nat.
Proof.
  intros [Hn Hrows]. subst n.
  induction Hrows as [|row t Hrow _ IH]; [reflexivity|].
  cbn [concat length]. rewrite length_app, IH, Hrow. reflexivity.
Qed.

End ReshapeFacts.

(** ** Images, encoder and decoder *)

Section PreprocessFacts.

Lemma binarize_binary (x : R) : binarize x = 0%Z \/ binarize x = 1%Z.
Proof. unfold binarize. destruct (Rlt_dec 0.5 x); auto. Qed.

Lemma preprocess_rows (raw : list (list R)) (B : nat) :
  has_shape2 B (IMAGE_HEIGHT * IMAGE_WIDTH) raw ->
  preprocess raw =
  Some (map (fun row =>
               map (map binarize) (reshape2 IMAGE_HEIGHT IMAGE_WIDTH row))
            raw).
Proof.
  intros Hraw. unfold preprocess.
  set (size := (IMAGE_HEIGHT * IMAGE_WIDTH)%nat) in *.
  assert (Hsize : size <> 0%nat) by (unfold size; discriminate).
  rewrite (shape2_concat_length _ _ _ Hraw).
  rewrite Nat.Div0.mod_mul, Nat.div_mul by assumption.
  cbn [Nat.eqb]. destruct Hraw as [HB Hrows]. subst B.
  now rewrite reshape2_concat.
Qed.

Lemma preprocessed_image (row : list R) :
  length row = (IMAGE_HEIGHT * IMAGE_WIDTH)%nat ->
  has_shape2 IMAGE_HEIGHT IMAGE_WIDTH
    (map (map binarize) (reshape2 IMAGE_HEIGHT IMAGE_WIDTH row)) /\
  Forall (Forall (fun z => z = 0%Z \/ z = 1%Z))
    (map (map binarize) (reshape2 IMAGE_HEIGHT IMAGE_WIDTH row)) /\
  concat (map (map binarize) (reshape2 IMAGE_HEIGHT IMAGE_WIDTH row)) =
    map binarize row.
Proof.
  intros Hrow.
  destruct (reshape2_shape IMAGE_HEIGHT IMAGE_WIDTH row Hrow) as [Hn Hrows].
  split; [|split].
  - split; [now rewrite length_map|].
    apply Forall_map. eapply Forall_impl; [|exact Hrows].
    intros r Hr. now rewrite length_map.
  - apply Forall_map. apply Forall_forall. intros r _.
    apply Forall_map. apply Forall_forall. intros x _.
    apply binarize_binary.
  - rewrite <- concat_map. now rewrite concat_reshape2.
Qed.

Lemma preprocess_spec (raw : list (list R)) (B : nat) :
  has_shape2 B (IMAGE_HEIGHT * IMAGE_WIDTH) raw ->
  exists images,
    preprocess raw = Some images /\
    has_shape3 B IMAGE_HEIGHT IMAGE_WIDTH images /\
    binary_images images /\
    map (@concat Z) images = map (map binarize) raw.
Proof.
  intros Hraw. rewrite (preprocess_rows raw B Hraw).
  eexists. split; [reflexivity|].
  destruct Hraw as [HB Hrows].
  split; [|split].
  - split; [now rewrite length_map|].
    apply Forall_map. eapply Forall_impl; [|exact Hrows].
    intros row Hrow. now apply preprocessed_image.
  - unfold binary_images. apply Forall_map.
    eapply Forall_impl; [|exact Hrows].
    intros row Hrow. now apply preprocessed_image.
  - rewrite map_map. clear HB.
    induction Hrows as [|row raw Hrow _ IH]; [reflexivity|].
    cbn [map]. rewrite IH. f_equal. now apply preprocessed_image.
Qed.

End PreprocessFacts.

(** X6.  For a batch of [B] raw images of 784 values each, the reshaping and
    thresholding of [main] returns [B] images of 28 rows of 28 pixels, every
    pixel 0 or 1, and flattening an image gives back its thresholded values
    in their order; the value is 1 exactly above 0.5.  The reshaping fails
    exactly when the number of values of the batch is no multiple of 784. *)
Theorem preprocess_images :
  (forall (raw : list (list R)) (B : nat),
     has_shape2 B (IMAGE_HEIGHT * IMAGE_WIDTH) raw ->
     exists images,
       preprocess raw = Some images /\
       has_shape3 B IMAGE_HEIGHT IMAGE_WIDTH images /\
       binary_images images /\
       map (@concat Z) images = map (map binarize) raw) /\
  (forall x : R, binarize x = 1%Z <-> 0.5 < x) /\
  (forall raw : list (list R),
     preprocess raw = None <->
     (length (concat raw) mod (IMAGE_HEIGHT * IMAGE_WIDTH) <> 0)%nat).
Proof.
  split; [exact preprocess_spec|]. split.
  - intros x. unfold binarize. destruct (Rlt_dec 0.5 x); split; intros Hx;
      try discriminate; auto; contradiction.
  - intros raw. unfold preprocess.
    destruct (Nat.eqb_spec
                (length (concat raw) mod (IMAGE_HEIGHT * IMAGE_WIDTH)) 0)
      as [Hz|Hnz]; split; intros Hx; try discriminate; auto; contradiction.
Qed.

Lemma preprocess_images_witness :
  exists images,
    preprocess toy_raw_images = Some images /\
    has_shape3 1 IMAGE_HEIGHT IMAGE_WIDTH images /\
    binary_images images /\
    map (@concat Z) images = map (map binarize) toy_raw_images.
Proof.
  apply (proj1 preprocess_images toy_raw_images 1%nat).
  split; [reflexivity|]. constructor; [reflexivity | constructor].
Defined.

Section LayerFacts.
Context {T : Type} `{Scalar T}.

Lemma dense_length (units : nat) (activation : T -> T) (w : DenseWeights T)
    (x : list T) inputs :
  wf_dense inputs units w -> length (dense units activation w x) = units.
Proof.
  intros [[_ Hrows] Hbias]. unfold dense.
  rewrite length_map, map2_length, Hbias, reduce_sum_rows_length.
  - apply Nat.min_id.
  - clear Hbias. revert x.
    induction Hrows as [|row rows Hrow _ IH]; intros [|xi x]; simpl;
      constructor; auto.
    now rewrite length_map.
Qed.

(** A network ending in [Dense(n * d)] and [Reshape([n, d])] returns [n]
    rows of [d] entries for every example. *)
Lemma reshaped_net_shape (layers : list nat) (activation : T -> T)
    (n d : nat) (hidden : list (DenseWeights T)) (final : DenseWeights T)
    (inputs : nat) (examples : list (list (list T))) :
  wf_dense inputs (n * d) final ->
  has_shape3 (length examples) n d
    (map (fun example =>
            reshape2 n d
              (dense (n * d) (fun x => x) final
                 (hidden_layers layers activation hidden (flatten example))))
         examples).
Proof.
  intros Hfinal. split; [now rewrite length_map|].
  apply Forall_map. apply Forall_forall. intros example _.
  apply reshape2_shape. now apply dense_length with (inputs := inputs).
Qed.

End LayerFacts.

Section EncoderFacts.

Lemma make_encoder_shaped (layers : list nat) (activation : R -> R)
    (latent_size code_size : nat)
    (hidden : list (DenseWeights R)) (final : DenseWeights R)
    (images : list (list (list Z))) (last : nat) :
  wf_dense last (latent_size * code_size) final ->
  has_shape3 (length images) latent_size code_size
    (make_encoder layers activation latent_size code_size hidden final
                  images).
Proof.
  intros Hfinal. unfold make_encoder.
  match goal with
  | |- has_shape3 _ _ _ (map _ ?c) => set (cast := c)
  end.
  assert (Hcast : length cast = length images)
    by (unfold cast; now rewrite length_map).
  rewrite <- Hcast. now apply reshaped_net_shape with (inputs := last).
Qed.

End EncoderFacts.

(** X7.  Whatever the hidden layers and the values of the weights, the
    encoder maps a batch of [B] images to codes of shape
    [[B, latent_size, code_size]]: the shape the quantizer is written
    for. *)
Theorem make_encoder_shape (layers : list nat) (activation : R -> R)
    (latent_size code_size : nat)
    (hidden : list (DenseWeights R)) (final : DenseWeights R)
    (images : list (list (list Z))) (B last : nat) :
  wf_hidden (IMAGE_HEIGHT * IMAGE_WIDTH) layers hidden last ->
  wf_dense last (latent_size * code_size) final ->
  has_shape3 B IMAGE_HEIGHT IMAGE_WIDTH images ->
  has_shape3 B latent_size code_size
    (make_encoder layers activation latent_size code_size hidden final
                  images).
Proof.
  intros _ Hfinal [HB _]. rewrite <- HB.
  now apply make_encoder_shaped with (last := last).
Qed.

Lemma make_encoder_shape_witness :
  has_shape3 1 1 2
    (make_encoder [] (fun x => x) 1 2 [] toy_encoder_final
                  [repeat (repeat 1%Z 28) 28]).
Proof.
  apply (make_encoder_shape [] (fun x => x) 1 2 [] toy_encoder_final
           [repeat (repeat 1%Z 28) 28] 1 784).
  - reflexivity.
  - split; [split; [reflexivity|]|reflexivity].
    apply Forall_forall. intros row Hrow.
    apply repeat_spec in Hrow. now subst.
  - split; [reflexivity|]. constructor; [|constructor].
    split; [reflexivity|].
    apply Forall_forall. intros row Hrow.
    apply repeat_spec in Hrow. subst. apply repeat_length.
Defined.

Section DecoderFacts.


Lemma bernoulli_log_prob_nonpos (logits : R) (event : Z) :
  event = 0%Z \/ event = 1%Z -> bernoulli_log_prob logits event <= 0.
Proof.
  intros Hev. unfold bernoulli_log_prob, sigmoid_cross_entropy_with_logits.
  assert (Hln : 0 < ln (1 + exp (- Rabs logits))).
  { rewrite <- ln_1. apply ln_increasing; [lra|].
    pose proof (exp_pos (- Rabs logits)). lra. }
  pose proof (Rmax_l logits 0) as Hl. pose proof (Rmax_r logits 0) as Hr.
  destruct Hev as [-> | ->]; simpl; lra.
Qed.

Lemma independent_log_prob_nonpos logits images :
  binary_images images ->
  Forall (fun x => x <= 0) (independent_log_prob logits images).
Proof.
  unfold independent_log_prob, binary_images. intros Hbin. revert logits.
  induction Hbin as [|image images Himage _ IH]; intros [|lg logits]; simpl;
    constructor; auto.
  clear IH.
  assert (Hterms : Forall (fun x => x <= 0)
                     (concat (map2 (map2 bernoulli_log_prob) lg image))).
  { apply Forall_concat. revert lg.
    induction Himage as [|row image Hrow _ IH]; intros [|lrow lg]; simpl;
      constructor; auto.
    clear IH. revert lrow.
    induction Hrow as [|z row Hz _ IH]; intros [|x lrow]; simpl;
      constructor; auto.
    now apply bernoulli_log_prob_nonpos. }
  induction Hterms as [|x xs Hx _ IHt]; [apply Rle_refl|].
  rewrite reduce_sum_R_cons. lra.
Qed.

End DecoderFacts.



(** ** The sign of the loss *)

Section LossSign.

Lemma reduce_mean_nonneg (xs : list R) :
  Forall (fun x => 0 <= x) xs -> 0 <= reduce_mean xs.
Proof.
  intros Hxs. unfold reduce_mean.
  pose proof (reduce_sum_R_nonneg xs Hxs) as Hsum.
  change (0 <= reduce_sum xs / INR (length xs)).
  destruct xs as [|x xs].
  - unfold Rdiv. change (reduce_sum (@nil R)) with 0. lra.
  - assert (Hn : 0 < INR (length (x :: xs))) by (apply lt_0_INR; simpl; lia).
    apply Rmult_le_pos; [exact Hsum|].
    apply Rlt_le. now apply Rinv_0_lt_compat.
Qed.

Lemma reduce_sum_R_nonpos (xs : list R) :
  Forall (fun x => x <= 0) xs -> reduce_sum xs <= 0.
Proof.
  induction 1 as [|x xs Hx _ IH]; [apply Rle_refl|].
  rewrite reduce_sum_R_cons. lra.
Qed.

Lemma neg_reduce_mean_nonneg (xs : list R) :
  Forall (fun x => x <= 0) xs -> 0 <= sneg (reduce_mean xs).
Proof.
  intros Hxs. unfold reduce_mean.
  pose proof (reduce_sum_R_nonpos xs Hxs) as Hsum.
  change (0 <= - (reduce_sum xs / INR (length xs))).
  destruct xs as [|x xs].
  - unfold Rdiv. change (reduce_sum (@nil R)) with 0. lra.
  - assert (Hn : 0 < INR (length (x :: xs))) by (apply lt_0_INR; simpl; lia).
    pose proof (Rinv_0_lt_compat _ Hn) as Hinv.
    unfold Rdiv. nra.
Qed.

End LossSign.

(** X9.  For the model [main] builds, on a nonempty batch of raw images of
    784 values and with [beta >= 0], one evaluation of the graph returns a
    reconstruction loss, a commitment loss and a loss that are all
    nonnegative. *)
Theorem main_model_loss_nonneg (encoder_layers decoder_layers : list nat)
    (activation : R -> R) (latent_size : nat)
    (encoder_hidden : list (DenseWeights R)) (encoder_final : DenseWeights R)
    (decoder_hidden : list (DenseWeights R)) (decoder_final : DenseWeights R)
    (vq : VectorQuantizer R) (beta decay : R)
    (images : list (list R)) (B encoder_last decoder_last : nat) :
  wf_vq vq -> (0 < num_codes vq)%nat -> (0 < code_size vq)%nat ->
  (0 < latent_size)%nat -> (0 < B)%nat ->
  has_shape2 B (IMAGE_HEIGHT * IMAGE_WIDTH) images ->
  wf_hidden (IMAGE_HEIGHT * IMAGE_WIDTH) encoder_layers encoder_hidden
            encoder_last ->
  wf_dense encoder_last (latent_size * code_size vq) encoder_final ->
  wf_hidden (latent_size * code_size vq) decoder_layers decoder_hidden
            decoder_last ->
  wf_dense decoder_last (IMAGE_HEIGHT * IMAGE_WIDTH) decoder_final ->
  0 <= beta ->
  exists r,
    main_model encoder_layers decoder_layers activation latent_size
               encoder_hidden encoder_final decoder_hidden decoder_final
               vq beta decay images = Some r /\
    0 <= reconstruction_loss r /\
    0 <= commitment_loss r /\
    0 <= loss r.
Proof.
  intros Hwf Hpos _ _ _ Himages _ Hefinal _ _ Hbeta.
  unfold main_model.
  destruct (preprocess_spec images B Himages)
    as (binary & Hpre & _ & Hbin & _).
  rewrite Hpre.
  destruct (make_vq_vae_returns independent_log_prob binary
              (make_encoder encoder_layers activation latent_size
                            (code_size vq) encoder_hidden encoder_final)
              (make_decoder decoder_layers activation IMAGE_HEIGHT
                            IMAGE_WIDTH decoder_hidden decoder_final)
              vq beta decay Hwf Hpos) as [r Hr].
  destruct (make_vq_vae_inv _ _ _ _ _ _ _ _ Hr)
    as (nearest & oh & _ & _ & _ & _ & _ & _ & _ & _ & Hcl & _ & Hrl & Hl).
  assert (Hrec : 0 <= reconstruction_loss r).
  { rewrite Hrl. apply neg_reduce_mean_nonneg.
    now apply independent_log_prob_nonpos. }
  assert (Hcom : 0 <= commitment_loss r).
  { rewrite Hcl. unfold commitment. apply reduce_mean_nonneg.
    apply commitment_terms_nonneg. }
  exists r. split; [exact Hr|]. split; [exact Hrec|]. split; [exact Hcom|].
  rewrite Hl. change (0 <= beta * commitment_loss r + reconstruction_loss r).
  nra.
Qed.

Lemma main_model_loss_nonneg_witness :
  exists r,
    main_model [] [] (fun x => x) 1 [] toy_encoder_final [] toy_decoder_final
               scenario_vq 0.25 0.99 toy_raw_images = Some r /\
    0 <= reconstruction_loss r /\
    0 <= commitment_loss r /\
    0 <= loss r.
Proof.
  apply (main_model_loss_nonneg [] [] (fun x => x) 1 [] toy_encoder_final
           [] toy_decoder_final scenario_vq 0.25 0.99 toy_raw_images
           1 784 2).
  - shape_tac.
  - simpl. lia.
  - simpl. lia.
  - lia.
  - lia.
  - split; [reflexivity|]. constructor; [reflexivity | constructor].
  - reflexivity.
  - split; [split; [reflexivity|]|reflexivity].
    apply Forall_forall. intros row Hrow.
    apply repeat_spec in Hrow. now subst.
  - reflexivity.
  - split; [split; [reflexivity|]|apply repeat_length].
    repeat constructor; apply repeat_length.
  - lra.
Defined.

(** ** The input pipeline *)

Section PipelineFacts.
Context {A : Type}.

Lemma map_nth_seq (l : list A) (d : A) :
  map (fun j => nth j l d) (seq 0 (length l)) = l.
Proof.
  induction l as [|x l IH]; [reflexivity|].
  cbn [length]. rewrite <- cons_seq, <- seq_shift. cbn [map nth].
  f_equal. rewrite map_map. exact IH.
Qed.

Lemma repeat_dataset_finite (l : list A) :
  l <> [] ->
  exists f, repeat_dataset (Finite l) = Infinite f /\
            forall i d, f i = nth (i mod length l) l d.
Proof.
  intros Hl. destruct l as [|x l]; [congruence|].
  exists (fun i => nth (i mod length (x :: l)) (x :: l) x).
  split; [reflexivity|]. intros i d.
  apply nth_indep. apply Nat.mod_upper_bound. discriminate.
Qed.

(** The batches of a repeated nonempty list: batch [i] holds the elements
    [i * n, ..., i * n + n - 1], counted around the list. *)
Lemma get_next_batch_repeat (l : list A) (batch_size : Z) tb :
  l <> [] ->
  batch batch_size (repeat_dataset (Finite l)) = Some tb ->
  (0 < batch_size)%Z /\
  forall i d,
    get_next tb i =
    Some (map (fun j => nth ((i * Z.to_nat batch_size + j) mod length l) l d)
              (seq 0 (Z.to_nat batch_size))).
Proof.
  intros Hl. destruct (repeat_dataset_finite l Hl) as (f & -> & Hf).
  unfold batch.
  destruct (Z.leb_spec batch_size 0) as [Hle|Hlt]; [discriminate|].
  intros Htb. injection Htb as <-. split; [exact Hlt|].
  intros i d. unfold get_next. f_equal. apply map_ext. intros j.
  apply Hf.
Qed.

Lemma batch_positive (d : Dataset A) (batch_size : Z) :
  (0 < batch_size)%Z -> exists b, batch batch_size d = Some b.
Proof.
  intros Hb. unfold batch.
  destruct (Z.leb_spec batch_size 0) as [Hle|_]; [lia|]. eauto.
Qed.

Lemma from_tensor_slices_same {B : Type} (xs : list A) (ys : list B) :
  length xs = length ys ->
  from_tensor_slices xs ys = Some (Finite (combine xs ys)).
Proof.
  intros Hl. unfold from_tensor_slices. now rewrite Hl, Nat.eqb_refl.
Qed.

End PipelineFacts.

Section PipelineRuns.
Variable mnist_data : MnistData.
Variables batch_size heldout_size : Z.
Hypothesis Htrain :
  length (images (mnist_train mnist_data)) = length (labels (mnist_train mnist_data)).
Hypothesis Hvalidation :
  length (images (mnist_validation mnist_data)) =
  length (labels (mnist_validation mnist_data)).
Hypothesis Hbatch : (0 < batch_size)%Z.
Hypothesis Hheldout : (0 < heldout_size)%Z.

Lemma build_input_pipeline_returns :
  exists training_batches heldout_frozen,
    build_input_pipeline mnist_data batch_size heldout_size =
      Some (training_batches, heldout_frozen) /\
    batch batch_size (repeat_dataset (Finite (examples (mnist_train mnist_data))))
      = Some training_batches /\
    batch heldout_size
          (repeat_dataset
             (take heldout_size (Finite (examples (mnist_validation mnist_data)))))
      = Some heldout_frozen.
Proof.
  unfold build_input_pipeline.
  rewrite !from_tensor_slices_same by (now rewrite length_map).
  fold (examples (mnist_train mnist_data)). fold (examples (mnist_validation mnist_data)).
  destruct (batch_positive
              (repeat_dataset (Finite (examples (mnist_train mnist_data))))
              batch_size Hbatch) as [tb Htb].
  destruct (batch_positive
              (repeat_dataset
                 (take heldout_size
                       (Finite (examples (mnist_validation mnist_data)))))
              heldout_size Hheldout) as [hb Hhb].
  rewrite Htb, Hhb. eauto.
Qed.

End PipelineRuns.

(** X10.  Over a nonempty training set and with a positive batch size, the
    training iterator never runs out and never delivers a short batch:
    batch [i] holds exactly [batch_size] examples, the images paired with
    their own labels, example [j] of it being example
    [(i * batch_size + j) mod n] of the [n] training examples. *)
Theorem training_batches_are_full (mnist_data : MnistData)
    (batch_size heldout_size : Z) :
  length (images (mnist_train mnist_data)) = length (labels (mnist_train mnist_data)) ->
  length (images (mnist_validation mnist_data)) =
    length (labels (mnist_validation mnist_data)) ->
  (0 < batch_size)%Z -> (0 < heldout_size)%Z ->
  images (mnist_train mnist_data) <> [] ->
  exists training_batches heldout_frozen,
    build_input_pipeline mnist_data batch_size heldout_size =
      Some (training_batches, heldout_frozen) /\
    forall i, exists b,
      get_next training_batches i = Some b /\
      length b = Z.to_nat batch_size /\
      forall j image label, (j < Z.to_nat batch_size)%nat ->
        nth j b (image, label) =
        (nth ((i * Z.to_nat batch_size + j)
                mod length (images (mnist_train mnist_data)))
             (images (mnist_train mnist_data)) image,
         np_int32
           (nth ((i * Z.to_nat batch_size + j)
                   mod length (images (mnist_train mnist_data)))
                (labels (mnist_train mnist_data)) label)).
Proof.
  intros Htrain Hval Hbatch Hheldout Hne.
  destruct (build_input_pipeline_returns mnist_data batch_size heldout_size
              Htrain Hval Hbatch Hheldout)
    as (tb & hb & Hbuild & Htb & _).
  exists tb, hb. split; [exact Hbuild|].
  assert (Hlen : length (examples (mnist_train mnist_data)) =
                 length (images (mnist_train mnist_data))).
  { unfold examples. rewrite length_combine, length_map. lia. }
  assert (Hex : examples (mnist_train mnist_data) <> []).
  { intros Hnil. rewrite Hnil in Hlen. simpl in Hlen.
    destruct (images (mnist_train mnist_data)); [congruence | discriminate]. }
  destruct (get_next_batch_repeat _ _ _ Hex Htb) as [_ Hnext].
  intros i. eexists. split; [apply (Hnext i (nth 0 (examples (mnist_train mnist_data))
                               ([], 0%Z)))|].
  split; [now rewrite length_map, length_seq|].
  intros j image label Hj.
  set (n := Z.to_nat batch_size) in *.
  rewrite (nth_map_lt _ _ _ 0%nat) by (now rewrite length_seq).
  rewrite seq_nth by assumption. cbn [Nat.add].
  rewrite Hlen.
  assert (Hidx : ((i * n + j) mod length (images (mnist_train mnist_data))
                  < length (images (mnist_train mnist_data)))%nat).
  { apply Nat.mod_upper_bound. intros Hz.
    destruct (images (mnist_train mnist_data)); [congruence | discriminate]. }
  rewrite (nth_indep _ _ (image, np_int32 label))
    by (rewrite Hlen; exact Hidx).
  unfold examples. rewrite combine_nth by (now rewrite length_map).
  f_equal. change (np_int32 label) with ((fun z => np_int32 z) label).
  now rewrite map_nth.
Qed.

Lemma training_batches_are_full_witness :
  exists training_batches heldout_frozen,
    build_input_pipeline toy_mnist 3 3 =
      Some (training_batches, heldout_frozen) /\
    forall i, exists b,
      get_next training_batches i = Some b /\
      length b = Z.to_nat 3 /\
      forall j image label, (j < Z.to_nat 3)%nat ->
        nth j b (image, label) =
        (nth ((i * Z.to_nat 3 + j) mod length (images (mnist_train toy_mnist)))
             (images (mnist_train toy_mnist)) image,
         np_int32
           (nth ((i * Z.to_nat 3 + j) mod length (images (mnist_train toy_mnist)))
                (labels (mnist_train toy_mnist)) label)).
Proof.
  apply (training_batches_are_full toy_mnist 3 3).
  - reflexivity.
  - reflexivity.
  - lia.
  - lia.
  - discriminate.
Defined.

(** X11.  With [0 < heldout_size] at most the number of validation
    examples, the heldout iterator never runs out and delivers the same
    batch every time: the first [heldout_size] validation examples in their
    order; as [main] calls it, with [heldout_size] the number of validation
    examples, that is the entire validation set. *)
Theorem heldout_batch_is_constant (mnist_data : MnistData)
    (batch_size heldout_size : Z) :
  length (images (mnist_train mnist_data)) = length (labels (mnist_train mnist_data)) ->
  length (images (mnist_validation mnist_data)) =
    length (labels (mnist_validation mnist_data)) ->
  (0 < batch_size)%Z -> (0 < heldout_size)%Z ->
  (heldout_size <= Z.of_nat (length (images (mnist_validation mnist_data))))%Z ->
  exists training_batches heldout_frozen,
    build_input_pipeline mnist_data batch_size heldout_size =
      Some (training_batches, heldout_frozen) /\
    (forall i,
       get_next heldout_frozen i =
       Some (firstn (Z.to_nat heldout_size)
                    (examples (mnist_validation mnist_data)))) /\
    (heldout_size = Z.of_nat (length (images (mnist_validation mnist_data))) ->
     forall i,
       get_next heldout_frozen i = Some (examples (mnist_validation mnist_data))).
Proof.
  intros Htrain Hval Hbatch Hheldout Hle.
  destruct (build_input_pipeline_returns mnist_data batch_size heldout_size
              Htrain Hval Hbatch Hheldout)
    as (tb & hb & Hbuild & _ & Hhb).
  exists tb, hb. split; [exact Hbuild|].
  assert (Hlen : length (examples (mnist_validation mnist_data)) =
                 length (images (mnist_validation mnist_data))).
  { unfold examples. rewrite length_combine, length_map. lia. }
  unfold take in Hhb.
  destruct (Z.ltb_spec heldout_size 0) as [Hneg|_]; [lia|].
  set (h := Z.to_nat heldout_size) in *.
  set (l := firstn h (examples (mnist_validation mnist_data))) in *.
  assert (Hl : length l = h).
  { unfold l. rewrite length_firstn, Hlen. unfold h. lia. }
  assert (Hlne : l <> []).
  { intros Hnil. rewrite Hnil in Hl. simpl in Hl. unfold h in Hl. lia. }
  destruct (get_next_batch_repeat _ _ _ Hlne Hhb) as [_ Hnext].
  assert (Hconst : forall i, get_next hb i = Some l).
  { intros i.
    rewrite (Hnext i (nth 0 l ([], 0%Z))). f_equal. fold h.
    transitivity (map (fun j => nth j l (nth 0 l ([], 0%Z)))
                      (seq 0 (length l))); [|apply map_nth_seq].
    rewrite Hl. apply map_ext_in. intros j Hj. apply in_seq in Hj.
    f_equal. rewrite Nat.add_comm, Nat.Div0.mod_add.
    apply Nat.mod_small. lia. }
  split; [exact Hconst|].
  intros Hall i. rewrite Hconst. f_equal. unfold l.
  apply firstn_all2. rewrite Hlen. unfold h. lia.
Qed.

Lemma heldout_batch_is_constant_witness :
  exists training_batches heldout_frozen,
    build_input_pipeline toy_mnist 3 3 =
      Some (training_batches, heldout_frozen) /\
    (forall i,
       get_next heldout_frozen i =
       Some (firstn (Z.to_nat 3) (examples (mnist_validation toy_mnist)))) /\
    (3%Z = Z.of_nat (length (images (mnist_validation toy_mnist))) ->
     forall i,
       get_next heldout_frozen i = Some (examples (mnist_validation toy_mnist))).
Proof.
  apply (heldout_batch_is_constant toy_mnist 3 3).
  - reflexivity.
  - reflexivity.
  - lia.
  - lia.
  - simpl. lia.
Defined.

(** ** The schedule of the training loop *)

Section LoopFacts.
Variables viz_steps max_steps : Z.

Lemma loop_body_completes (step : nat) :
  viz_steps <> 0%Z -> snd (loop_body viz_steps max_steps step) = Completed.
Proof.
  intros Hviz. unfold loop_body.
  destruct (Z.eqb_spec viz_steps 0) as [|_]; [contradiction|].
  now destruct (_ || _)%bool.
Qed.

Lemma run_loop_completes (steps : list nat) :
  viz_steps <> 0%Z ->
  run_loop viz_steps max_steps steps =
  (concat (map (fun s => fst (loop_body viz_steps max_steps s)) steps),
   Completed).
Proof.
  intros Hviz. induction steps as [|s steps IH]; [reflexivity|].
  cbn [run_loop map concat].
  pose proof (loop_body_completes s Hviz) as Hs.
  destruct (loop_body viz_steps max_steps s) as [events outcome].
  simpl in Hs. subst outcome. now rewrite IH.
Qed.

Lemma in_loop_body (step : nat) (e : Event) :
  viz_steps <> 0%Z ->
  In e (fst (loop_body viz_steps max_steps step)) <->
  e = RunTrainOp step \/
  ((step mod 100 = 0)%nat /\ (e = PrintLoss step \/ e = WriteSummary step)) \/
  ((((Z.of_nat step + 1) mod viz_steps = 0)%Z
    \/ (Z.of_nat step + 1 = max_steps)%Z) /\
   (e = SaveCheckpoint step \/ e = VisualizeTraining step
    \/ e = VisualizeValidation step)).
Proof.
  intros Hviz. unfold loop_body.
  destruct (Z.eqb_spec viz_steps 0) as [|_]; [contradiction|].
  destruct (Nat.eqb_spec (step mod 100) 0) as [H100|H100];
  destruct (Z.eqb_spec ((Z.of_nat step + 1) mod viz_steps) 0) as [Hm|Hm];
  destruct (Z.eqb_spec (Z.of_nat step + 1) max_steps) as [Hl|Hl];
  cbn [orb fst In app]; split; intros Hin;
  repeat match goal with
         | H : _ \/ _ |- _ => destruct H
         | H : _ /\ _ |- _ => destruct H
         | H : False |- _ => contradiction
         end; subst; auto 10; try contradiction; try discriminate.
Qed.

Lemma in_main_loop (e : Event) :
  viz_steps <> 0%Z ->
  In e (fst (main_loop viz_steps max_steps)) <->
  exists step, (Z.of_nat step < max_steps)%Z /\
               In e (fst (loop_body viz_steps max_steps step)).
Proof.
  intros Hviz. unfold main_loop. rewrite run_loop_completes by assumption.
  cbn [fst]. rewrite in_concat. split.
  - intros (events & Hev & Hin). apply in_map_iff in Hev.
    destruct Hev as (step & <- & Hstep). apply in_seq in Hstep.
    exists step. split; [lia | exact Hin].
  - intros (step & Hstep & Hin). eexists. split; [|exact Hin].
    apply in_map_iff. exists step. split; [reflexivity|].
    apply in_seq. lia.
Qed.

Lemma in_main_loop_cases (e : Event) :
  viz_steps <> 0%Z ->
  In e (fst (main_loop viz_steps max_steps)) <->
  exists step,
    (Z.of_nat step < max_steps)%Z /\
    (e = RunTrainOp step \/
     ((step mod 100 = 0)%nat /\
      (e = PrintLoss step \/ e = WriteSummary step)) \/
     ((((Z.of_nat step + 1) mod viz_steps = 0)%Z
       \/ (Z.of_nat step + 1 = max_steps)%Z) /\
      (e = SaveCheckpoint step \/ e = VisualizeTraining step
       \/ e = VisualizeValidation step))).
Proof.
  intros Hviz. rewrite in_main_loop by assumption. split.
  - intros (step & Hs & Hin). exists step. split; [exact Hs|].
    now apply in_loop_body.
  - intros (step & Hs & Hin). exists step. split; [exact Hs|].
    now apply in_loop_body.
Qed.

End LoopFacts.

(** Takes apart what [in_main_loop_cases] says of an event of the loop. *)
Ltac loop_cases :=
  repeat match goal with
         | H : exists _, _ |- _ => destruct H
         | H : _ /\ _ |- _ => destruct H
         | H : _ \/ _ |- _ => destruct H
         | H : @eq Event _ _ |- _ => first [discriminate H | injection H as ->]
         end.

Section LoopCounts.
Variables viz_steps max_steps : Z.

Lemma train_ops_of_body (step : nat) :
  viz_steps <> 0%Z ->
  filter is_train_op (fst (loop_body viz_steps max_steps step)) =
  [RunTrainOp step].
Proof.
  intros Hviz. unfold loop_body.
  destruct (Z.eqb_spec viz_steps 0) as [|_]; [contradiction|].
  destruct (Nat.eqb (step mod 100) 0); destruct (_ || _)%bool; reflexivity.
Qed.

Lemma train_ops_of_loop (steps : list nat) :
  viz_steps <> 0%Z ->
  filter is_train_op
    (concat (map (fun s => fst (loop_body viz_steps max_steps s)) steps)) =
  map RunTrainOp steps.
Proof.
  intros Hviz. induction steps as [|s steps IH]; [reflexivity|].
  cbn [map concat]. rewrite filter_app, IH, train_ops_of_body by assumption.
  reflexivity.
Qed.

End LoopCounts.

(** X12.  With [--viz_steps=0] and at least one step to run, the loop does
    one training run, prints and writes the summary of step 0 and then stops
    with [ZeroDivisionError]: no checkpoint is saved and nothing is
    visualized.  With [max_steps] zero or negative the loop does nothing at
    all. *)
Theorem main_loop_edge_cases :
  (forall max_steps : Z, (1 <= max_steps)%Z ->
     main_loop 0 max_steps =
     ([RunTrainOp 0; PrintLoss 0; WriteSummary 0], ZeroDivisionError)) /\
  (forall viz_steps max_steps : Z, (max_steps <= 0)%Z ->
     main_loop viz_steps max_steps = ([], Completed)).
Proof.
  split.
  - intros max_steps Hmax. unfold main_loop.
    destruct (Z.to_nat max_steps) as [|n] eqn:Hn; [lia|].
    reflexivity.
  - intros viz_steps max_steps Hmax. unfold main_loop.
    replace (Z.to_nat max_steps) with 0%nat by lia. reflexivity.
Qed.

Lemma main_loop_edge_cases_witness :
  main_loop 0 10000 =
  ([RunTrainOp 0; PrintLoss 0; WriteSummary 0], ZeroDivisionError).
Proof.
  apply (proj1 main_loop_edge_cases 10000%Z). lia.
Defined.

(** X13.  With [viz_steps] other than 0 the loop runs to its end.  The
    training runs are those of the steps [0, ..., max_steps - 1], once each
    and in order; the summary is written at the steps that are multiples of
    100; a checkpoint is saved, and training and validation images are
    visualized, exactly at the steps [s] where [viz_steps] divides [s + 1]
    and at the last step, so the final model is always saved. *)
Theorem main_loop_schedule (viz_steps max_steps : Z) :
  viz_steps <> 0%Z ->
  snd (main_loop viz_steps max_steps) = Completed /\
  filter is_train_op (fst (main_loop viz_steps max_steps)) =
    map RunTrainOp (seq 0 (Z.to_nat max_steps)) /\
  (forall s, In (WriteSummary s) (fst (main_loop viz_steps max_steps)) <->
             (Z.of_nat s < max_steps)%Z /\ (s mod 100 = 0)%nat) /\
  (forall s, In (SaveCheckpoint s) (fst (main_loop viz_steps max_steps)) <->
             (Z.of_nat s < max_steps)%Z /\
             (((Z.of_nat s + 1) mod viz_steps = 0)%Z
              \/ (Z.of_nat s + 1 = max_steps)%Z)) /\
  (forall s, In (VisualizeTraining s) (fst (main_loop viz_steps max_steps))
             <-> In (SaveCheckpoint s) (fst (main_loop viz_steps max_steps))) /\
  (forall s, In (VisualizeValidation s) (fst (main_loop viz_steps max_steps))
             <-> In (SaveCheckpoint s) (fst (main_loop viz_steps max_steps))) /\
  ((1 <= max_steps)%Z ->
   In (SaveCheckpoint (Z.to_nat (max_steps - 1)))
      (fst (main_loop viz_steps max_steps))).
Proof.
  intros Hviz.
  split; [unfold main_loop; rewrite run_loop_completes by assumption;
          reflexivity|].
  split.
  { unfold main_loop. rewrite run_loop_completes by assumption.
    cbn [fst]. now apply train_ops_of_loop. }
  assert (Hsave : forall s,
    In (SaveCheckpoint s) (fst (main_loop viz_steps max_steps)) <->
    (Z.of_nat s < max_steps)%Z /\
    (((Z.of_nat s + 1) mod viz_steps = 0)%Z
     \/ (Z.of_nat s + 1 = max_steps)%Z)).
  { intros s. rewrite in_main_loop_cases by assumption. split.
    - intros Hin. loop_cases; auto.
    - intros [Hs Hc]. exists s. auto 10. }
  split.
  { intros s. rewrite in_main_loop_cases by assumption. split.
    - intros Hin. loop_cases; auto.
    - intros [Hs H100]. exists s. auto 10. }
  split; [exact Hsave|].
  split.
  { intros s. rewrite Hsave, in_main_loop_cases by assumption. split.
    - intros Hin. loop_cases; auto.
    - intros [Hs Hc]. exists s. auto 10. }
  split.
  { intros s. rewrite Hsave, in_main_loop_cases by assumption. split.
    - intros Hin. loop_cases; auto.
    - intros [Hs Hc]. exists s. auto 10. }
  intros Hmax. apply Hsave. split; [lia|]. right. lia.
Qed.

Lemma main_loop_schedule_witness :
  snd (main_loop 500 10000) = Completed /\
  filter is_train_op (fst (main_loop 500 10000)) =
    map RunTrainOp (seq 0 (Z.to_nat 10000)) /\
  (forall s, In (WriteSummary s) (fst (main_loop 500 10000)) <->
             (Z.of_nat s < 10000)%Z /\ (s mod 100 = 0)%nat) /\
  (forall s, In (SaveCheckpoint s) (fst (main_loop 500 10000)) <->
             (Z.of_nat s < 10000)%Z /\
             (((Z.of_nat s + 1) mod 500 = 0)%Z
              \/ (Z.of_nat s + 1 = 10000)%Z)) /\
  (forall s, In (VisualizeTraining s) (fst (main_loop 500 10000))
             <-> In (SaveCheckpoint s) (fst (main_loop 500 10000))) /\
  (forall s, In (VisualizeValidation s) (fst (main_loop 500 10000))
             <-> In (SaveCheckpoint s) (fst (main_loop 500 10000))) /\
  ((1 <= 10000)%Z ->
   In (SaveCheckpoint (Z.to_nat (10000 - 1))) (fst (main_loop 500 10000))).
Proof.
  apply (main_loop_schedule 500 10000). lia.
Defined.

(** ** The files of the visualizations *)

Module VisualizationFacts.
Import String Ascii Visualization.
Local Open Scope string_scope.

Lemma append_inv_head (a b c : string) : a ++ b = a ++ c -> b = c.
Proof.
  induction a as [|x a IH]; simpl; intros Heq; [exact Heq|].
  injection Heq as Heq. now apply IH.
Qed.

Lemma append_assoc_l (a b c : string) : (a ++ b) ++ c = a ++ b ++ c.
Proof. induction a as [|x a IH]; simpl; [reflexivity | now rewrite IH]. Qed.

Lemma all_digits_app (a b : string) :
  all_digits a = true -> all_digits b = true -> all_digits (a ++ b) = true.
Proof.
  induction a as [|x a IH]; simpl; intros Ha Hb; [exact Hb|].
  apply andb_prop in Ha. destruct Ha as [Hx Ha].
  now rewrite Hx, IH.
Qed.

Lemma all_digits_zeros (k : nat) : all_digits (zeros k) = true.
Proof. induction k as [|k IH]; simpl; auto. Qed.

Lemma all_digits_uint (d : Decimal.uint) :
  all_digits (DecimalString.NilEmpty.string_of_uint d) = true.
Proof. induction d; simpl; auto. Qed.

Lemma all_digits_format (n : nat) : all_digits (format_05d n) = true.
Proof.
  unfold format_05d. apply all_digits_app.
  - apply all_digits_zeros.
  - apply all_digits_uint.
Qed.

(** Digits end at the first ["_"]. *)
Lemma digits_split (a b r1 r2 : string) :
  all_digits a = true -> all_digits b = true ->
  a ++ String "_" r1 = b ++ String "_" r2 -> a = b /\ r1 = r2.
Proof.
  revert b. induction a as [|x a IH]; intros [|y b] Ha Hb Heq; simpl in *.
  - injection Heq as Heq. auto.
  - injection Heq as Hy Heq. subst y. discriminate.
  - injection Heq as Hx Heq. subst x. discriminate.
  - injection Heq as Hxy Heq. subst y.
    apply andb_prop in Ha. apply andb_prop in Hb.
    destruct (IH b) as [-> ->]; tauto.
Qed.

Lemma read_digits_zeros (k : nat) (s : string) :
  read_digits (zeros k ++ s) = read_digits s.
Proof.
  induction k as [|k IH]; [reflexivity|].
  rewrite <- IH. unfold read_digits. simpl.
  now destruct (DecimalString.NilEmpty.uint_of_string (zeros k ++ s)).
Qed.

Lemma read_digits_format (n : nat) : read_digits (format_05d n) = Some n.
Proof.
  unfold format_05d. rewrite read_digits_zeros. unfold read_digits.
  rewrite DecimalString.NilEmpty.usu. simpl.
  now rewrite DecimalNat.Unsigned.of_to.
Qed.

Lemma format_05d_inj (n m : nat) : format_05d n = format_05d m -> n = m.
Proof.
  intros Heq. pose proof (read_digits_format n) as Hn.
  rewrite Heq, read_digits_format in Hn. congruence.
Qed.

(** Joining a directory with a name that starts with ["s"]. *)
Lemma path_join_step (a b : string) :
  exists sep, path_join a (String "s" b) = a ++ sep ++ String "s" b /\
              (sep = "" \/ sep = "/").
Proof.
  unfold path_join.
  destruct (String.eqb a "" || ends_with_slash a)%bool.
  - exists "". auto.
  - exists "/". auto.
Qed.

Lemma path_join_step_inj (a b c : string) :
  path_join a (String "s" b) = path_join a (String "s" c) -> b = c.
Proof.
  unfold path_join.
  destruct (String.eqb a "" || ends_with_slash a)%bool; intros Heq;
    apply append_inv_head in Heq; simpl in Heq; congruence.
Qed.

(** The names [main] gives its files at [step]. *)
Lemma main_visualize_names {Img : Type} (model_dir : string) (step : nat)
    (tr rc rn hi hr : list Img) :
  map snd (main_visualize model_dir step tr rc rn hi hr) =
  map (fun suffix =>
         path_join model_dir ("step" ++ format_05d step ++ String "_" suffix))
      ["train_inputs.png"; "train_reconstructions.png";
       "train_prior_samples.png"; "validation_inputs.png";
       "validation_reconstructions.png"].
Proof.
  unfold main_visualize, visualize_training. cbn [map app snd].
  now rewrite !append_assoc_l.
Qed.

Lemma step_name_inj (model_dir : string) (s1 s2 : nat) (x1 x2 : string) :
  path_join model_dir ("step" ++ format_05d s1 ++ String "_" x1) =
  path_join model_dir ("step" ++ format_05d s2 ++ String "_" x2) ->
  s1 = s2 /\ x1 = x2.
Proof.
  simpl. intros Heq. apply path_join_step_inj in Heq.
  injection Heq as Heq.
  apply digits_split in Heq; try apply all_digits_format.
  destruct Heq as [Hfmt Hx]. split; [now apply format_05d_inj | exact Hx].
Qed.

Lemma slice_to_length {A : Type} (viz_n : Z) (x : list A) :
  (0 <= viz_n)%Z -> (List.length (slice_to viz_n x) <= Z.to_nat viz_n)%nat.
Proof.
  intros Hn. unfold slice_to.
  destruct (Z.ltb_spec viz_n 0) as [Hneg|_]; [lia|].
  rewrite length_firstn. lia.
Qed.

(** X14.  At a step where it visualizes, [main] writes five image files,
    each with at most 10 images, under five different names; and a name
    written at one step is never written at another step, so no
    visualization is overwritten during a run. *)
Theorem visualization_files_distinct {Img : Type} (model_dir : string)
    (s1 s2 : nat) (tr1 rc1 rn1 hi1 hr1 tr2 rc2 rn2 hi2 hr2 : list Img) :
  List.length (main_visualize model_dir s1 tr1 rc1 rn1 hi1 hr1) = 5%nat /\
  Forall (fun file => (List.length (fst file) <= 10)%nat)
         (main_visualize model_dir s1 tr1 rc1 rn1 hi1 hr1) /\
  NoDup (map snd (main_visualize model_dir s1 tr1 rc1 rn1 hi1 hr1)) /\
  (forall name,
     In name (map snd (main_visualize model_dir s1 tr1 rc1 rn1 hi1 hr1)) ->
     In name (map snd (main_visualize model_dir s2 tr2 rc2 rn2 hi2 hr2)) ->
     s1 = s2).
Proof.
  split; [reflexivity|]. split.
  { unfold main_visualize, visualize_training. cbn [app].
    repeat (apply Forall_cons;
            [cbn [fst]; apply (slice_to_length 10%Z); lia|]).
    apply Forall_nil. }
  rewrite !main_visualize_names. split.
  - cbn [map].
    repeat (apply NoDup_cons; [|]); try apply NoDup_nil;
      cbn [In]; intros Hin;
      repeat match goal with
             | H : _ \/ _ |- _ => destruct H
             | H : False |- _ => contradiction
             | H : path_join _ _ = path_join _ _ |- _ =>
                 apply step_name_inj in H; destruct H; discriminate
             end.
  - intros name H1 H2.
    apply in_map_iff in H1. destruct H1 as (x1 & <- & _).
    apply in_map_iff in H2. destruct H2 as (x2 & Heq & _).
    apply step_name_inj in Heq. destruct Heq as [Hs _]. now symmetry.
Qed.

End VisualizationFacts.

(** ** The derivative passed to the encoder *)

Section StraightThroughGradient.

Lemma Forall2_map_inv {A B A' B' : Type} (P : A' -> B' -> Prop)
    (f : A -> A') (g : B -> B') xs ys :
  Forall2 P (map f xs) (map g ys) ->
  Forall2 (fun x y => P (f x) (g y)) xs ys.
Proof.
  revert ys; induction xs as [|x xs IH]; intros [|y ys] HF;
    inversion HF; subst; constructor; auto.
Qed.

Lemma forward_vq_wf (vq : VectorQuantizer Dual) :
  wf_vq vq -> wf_vq (forward_vq vq).
Proof.
  intros ((Hcb & Hcbr) & Hec & (Hem & Hemr)).
  unfold wf_vq, has_shape2; simpl. rewrite !length_map.
  repeat split; auto.
  - apply Forall_map. eapply Forall_impl; [|exact Hcbr].
    intros row Hrow. now rewrite length_map.
  - apply Forall_map. eapply Forall_impl; [|exact Hemr].
    intros row Hrow. now rewrite length_map.
Qed.

Lemma forward3_shape (codes : list (list (list Dual))) b l d :
  has_shape3 b l d codes -> has_shape3 b l d (forward3 codes).
Proof.
  intros [Hb Hrows]. unfold forward3. split; [now rewrite length_map|].
  apply Forall_map. eapply Forall_impl; [|exact Hrows].
  intros row [Hl Hd]. split; [now rewrite length_map|].
  apply Forall_map. eapply Forall_impl; [|exact Hd].
  intros c Hc. now rewrite length_map.
Qed.

(** Under differentiation too, codes and nearest entries have one shape. *)
Lemma dual_call_same_shape (vq : VectorQuantizer Dual) codes nearest oh b l :
  wf_vq vq -> has_shape3 b l (code_size vq) codes ->
  call vq codes = Some (nearest, oh) ->
  Forall2 (Forall2 (fun c n => length c = length n)) codes nearest.
Proof.
  intros Hwf Hshape Hcall.
  pose proof (call_forward vq codes) as Hfw. rewrite Hcall in Hfw.
  pose proof (call_same_shape (forward_vq vq) _ _ _ b l
                (forward_vq_wf vq Hwf) (forward3_shape _ _ _ _ Hshape) Hfw)
    as Hsame.
  unfold forward3 in Hsame. apply Forall2_map_inv in Hsame.
  eapply Forall2_impl; [|exact Hsame].
  intros crow nrow Hrow. apply Forall2_map_inv in Hrow.
  eapply Forall2_impl; [|exact Hrow].
  intros c n Hcn. cbv beta in Hcn. now rewrite !length_map in Hcn.
Qed.

Lemma straight_through_dual (codes nearest : list (list (list Dual))) :
  Forall2 (Forall2 (fun c n => length c = length n)) codes nearest ->
  forward3 (straight_through codes nearest) = forward3 nearest /\
  map (map (map tan)) (straight_through codes nearest) =
    map (map (map tan)) codes.
Proof.
  unfold forward3, straight_through.
  induction 1 as [|crow nrow codes nearest Hrow _ [IHv IHt]];
    [split; reflexivity|].
  cbn [map2 map]. rewrite IHv, IHt.
  assert (Hr : map (map val)
                 (map2 (map2 (fun c n => sadd c (stop_gradient (ssub n c))))
                       crow nrow) = map (map val) nrow /\
               map (map tan)
                 (map2 (map2 (fun c n => sadd c (stop_gradient (ssub n c))))
                       crow nrow) = map (map tan) crow).
  { clear IHv IHt.
    induction Hrow as [|c n crow nrow Hlen _ [IHv IHt]];
      [split; reflexivity|].
    cbn [map2 map]. rewrite IHv, IHt.
    assert (Hc : map val
                   (map2 (fun c n => sadd c (stop_gradient (ssub n c))) c n)
                 = map val n /\
                 map tan
                   (map2 (fun c n => sadd c (stop_gradient (ssub n c))) c n)
                 = map tan c).
    { clear IHv IHt. revert n Hlen.
      induction c as [|x c IH]; intros [|y n] Hlen; simpl in *;
        try discriminate; [split; reflexivity|].
      destruct (IH n ltac:(lia)) as [-> ->].
      split; f_equal; ring. }
    destruct Hc as [-> ->]. split; reflexivity. }
  destruct Hr as [-> ->]. split; reflexivity.
Qed.

End StraightThroughGradient.

(** X15.  Under differentiation along any direction, the straight-through
    tensor [codes + tf.stop_gradient(nearest - codes)] has, entry by entry,
    the derivative of the codes: the decoder's input passes its gradient to
    the encoder unchanged, whatever the derivative of the codebook. *)
Theorem straight_through_gradient (vq : VectorQuantizer Dual)
    (codes : list (list (list Dual))) (b l : nat) :
  wf_vq vq -> (0 < num_codes vq)%nat ->
  has_shape3 b l (code_size vq) codes ->
  exists nearest oh,
    call vq codes = Some (nearest, oh) /\
    map (map (map tan)) (straight_through codes nearest) =
      map (map (map tan)) codes.
Proof.
  intros Hwf Hpos Hshape.
  destruct (call_total vq codes) as (nearest & oh & Hcall).
  { destruct Hwf as ((Hlen & _) & _). intros Hnil. rewrite Hnil in Hlen.
    simpl in Hlen. lia. }
  exists nearest, oh. split; [exact Hcall|].
  apply (proj2 (straight_through_dual codes nearest
                  (dual_call_same_shape vq codes nearest oh b l
                     Hwf Hshape Hcall))).
Qed.

Lemma straight_through_gradient_witness :
  exists nearest oh,
    call dual_scenario_vq [[[mkDual 0.1 3; mkDual 0.1 4]]]
      = Some (nearest, oh) /\
    map (map (map tan))
        (straight_through [[[mkDual 0.1 3; mkDual 0.1 4]]] nearest) =
      map (map (map tan)) [[[mkDual 0.1 3; mkDual 0.1 4]]].
Proof.
  apply (straight_through_gradient dual_scenario_vq
           [[[mkDual 0.1 3; mkDual 0.1 4]]] 1 1).
  - shape_tac.
  - simpl. lia.
  - shape_tac.
Defined.

(** ** Fake data through the pipeline *)

Section BatchMembers.
Context {A : Type}.

(** Every element of every batch of a repeated list is one of the list. *)
Lemma get_next_batch_members (l : list A) (batch_size : Z) tb :
  l <> [] ->
  batch batch_size (repeat_dataset (Finite l)) = Some tb ->
  forall i, exists b,
    get_next tb i = Some b /\
    length b = Z.to_nat batch_size /\
    Forall (fun x => In x l) b.
Proof.
  intros Hl Htb i.
  destruct l as [|x l]; [congruence|].
  destruct (get_next_batch_repeat _ _ _ Hl Htb) as [_ Hnext].
  eexists. split; [apply (Hnext i x)|].
  split; [now rewrite length_map, length_seq|].
  apply Forall_map. apply Forall_forall. intros j _.
  apply nth_In. apply Nat.mod_upper_bound. discriminate.
Qed.

(** With nothing to repeat, the batches are none. *)
Lemma get_next_batch_empty (batch_size : Z) (tb : Dataset (list A)) :
  batch batch_size (repeat_dataset (Finite [])) = Some tb ->
  forall i, get_next tb i = None.
Proof.
  unfold batch. cbn [repeat_dataset].
  destruct (Z.leb_spec batch_size 0) as [Hle|Hlt]; [discriminate|].
  intros Htb. injection Htb as <-. intros i.
  cbn [length Nat.add]. rewrite Nat.div_small by lia.
  cbn [seq map get_next]. now destruct i.
Qed.

End BatchMembers.

Lemma map_fst_combine {A B : Type} (xs : list A) (ys : list B) :
  length xs = length ys -> map fst (combine xs ys) = xs.
Proof.
  revert ys. induction xs as [|x xs IH]; intros [|y ys] Hl;
    try discriminate; [reflexivity|].
  cbn [combine map fst]. f_equal. apply IH. now injection Hl.
Qed.

Lemma map_snd_combine {A B : Type} (xs : list A) (ys : list B) :
  length xs = length ys -> map snd (combine xs ys) = ys.
Proof.
  revert ys. induction xs as [|x xs IH]; intros [|y ys] Hl;
    try discriminate; [reflexivity|].
  cbn [combine map snd]. f_equal. apply IH. now injection Hl.
Qed.

Lemma in_combine_fst_rows (xs : list (list R)) (ys : list Z) (m : nat)
    (b : list (list R * Z)) :
  Forall (fun row => length row = m) xs ->
  Forall (fun x => In x (combine xs ys)) b ->
  Forall (fun row => length row = m) (map fst b).
Proof.
  intros Hxs Hb. apply Forall_map. eapply Forall_impl; [|exact Hb].
  intros [image label] Hin. apply in_combine_l in Hin.
  rewrite Forall_forall in Hxs. now apply Hxs.
Qed.

Section FakeDataFacts.
Variable Rng : Type.
Variable randn : nat -> nat -> Rng -> list (list R) * Rng.
Variable permutation : list Z -> Rng -> list Z * Rng.
Hypothesis randn_shape :
  forall n m rng, has_shape2 n m (fst (randn n m rng)).
Hypothesis permutation_permutes :
  forall x rng, Permutation.Permutation (fst (permutation x rng)) x.

Lemma np_int32_labels (x : list Z) :
  Permutation.Permutation x (arange 10) -> map np_int32 x = x.
Proof.
  intros Hperm. rewrite <- (map_id x) at 2. apply map_ext_in.
  intros z Hz. apply (Permutation.Permutation_in _ Hperm) in Hz.
  unfold arange in Hz. simpl in Hz.
  repeat (destruct Hz as [<-|Hz]; [reflexivity|]). contradiction.
Qed.

Lemma build_fake_data_splits (requested : Z) (rng : Rng) :
  let data := fst (build_fake_data Rng randn permutation requested rng) in
  fake_split (mnist_train data) /\ fake_split (mnist_validation data).
Proof.
  unfold build_fake_data.
  pose proof (randn_shape 10 (IMAGE_HEIGHT * IMAGE_WIDTH) rng) as H1.
  destruct (randn 10 (IMAGE_HEIGHT * IMAGE_WIDTH) rng) as [ti r1].
  pose proof (permutation_permutes (arange 10) r1) as H2.
  destruct (permutation (arange 10) r1) as [tl r2].
  pose proof (randn_shape 10 (IMAGE_HEIGHT * IMAGE_WIDTH) r2) as H3.
  destruct (randn 10 (IMAGE_HEIGHT * IMAGE_WIDTH) r2) as [vi r3].
  pose proof (permutation_permutes (arange 10) r3) as H4.
  destruct (permutation (arange 10) r3) as [vl r4].
  cbn [fst snd] in *. unfold fake_split. cbn [mnist_train mnist_validation images labels num_examples].
  rewrite !np_int32_labels by assumption.
  repeat split; try assumption; try apply H1; try apply H3.
Qed.

End FakeDataFacts.

(** X16.  With [--fake_data], whatever number of examples is asked of
    [build_fake_data], the training split and the validation split each hold
    ten images of 784 values labelled 0 to 9 in some order, with
    [num_examples] 10, and the pipeline [main] builds from them never
    fails: every training batch reshapes to [batch_size] binary images of
    28 by 28 pixels, and every held-out batch is the whole validation set,
    ten images carrying the labels 0 to 9. *)
Theorem fake_data_feeds_model (Rng : Type)
    (randn : nat -> nat -> Rng -> list (list R) * Rng)
    (permutation : list Z -> Rng -> list Z * Rng)
    (requested batch_size : Z) (rng : Rng) :
  (forall n m rng, has_shape2 n m (fst (randn n m rng))) ->
  (forall x rng, Permutation.Permutation (fst (permutation x rng)) x) ->
  (0 < batch_size)%Z ->
  let data := fst (build_fake_data Rng randn permutation requested rng) in
  (has_shape2 10 (IMAGE_HEIGHT * IMAGE_WIDTH) (images (mnist_train data)) /\
   Permutation.Permutation (labels (mnist_train data)) (arange 10) /\
   num_examples (mnist_train data) = 10%Z) /\
  (has_shape2 10 (IMAGE_HEIGHT * IMAGE_WIDTH)
              (images (mnist_validation data)) /\
   Permutation.Permutation (labels (mnist_validation data)) (arange 10) /\
   num_examples (mnist_validation data) = 10%Z) /\
  exists training_batches heldout_frozen,
    build_input_pipeline data batch_size (num_examples (mnist_validation data))
      = Some (training_batches, heldout_frozen) /\
    (forall i, exists b images,
       get_next training_batches i = Some b /\
       preprocess (map fst b) = Some images /\
       has_shape3 (Z.to_nat batch_size) IMAGE_HEIGHT IMAGE_WIDTH images /\
       binary_images images) /\
    (forall i, exists images,
       get_next heldout_frozen i = Some (examples (mnist_validation data)) /\
       Permutation.Permutation
         (map snd (examples (mnist_validation data))) (arange 10) /\
       preprocess (map fst (examples (mnist_validation data))) = Some images /\
       has_shape3 10 IMAGE_HEIGHT IMAGE_WIDTH images /\
       binary_images images).
Proof.
  intros Hrandn Hperm Hbatch data.
  destruct (build_fake_data_splits Rng randn permutation Hrandn Hperm
              requested rng) as [Ht Hv].
  fold data in Ht, Hv.
  split; [exact Ht|]. split; [exact Hv|].
  destruct Ht as ([Htn Htrows] & Htl & Htnum).
  destruct Hv as ([Hvn Hvrows] & Hvl & Hvnum).
  pose proof (Permutation.Permutation_length Htl) as Htll.
  pose proof (Permutation.Permutation_length Hvl) as Hvll.
  unfold arange in Htll, Hvll. rewrite length_map, length_seq in Htll, Hvll.
  rewrite Hvnum.
  assert (Hten : (0 < 10)%Z) by lia.
  destruct (build_input_pipeline_returns data batch_size 10
              ltac:(congruence) ltac:(congruence) Hbatch Hten)
    as (tb & hb & Hbuild & Htb & Hhb).
  exists tb, hb. split; [exact Hbuild|]. split.
  - assert (Hex : examples (mnist_train data) <> []).
    { unfold examples. intros Hnil.
      apply (f_equal (@length _)) in Hnil.
      rewrite length_combine, length_map in Hnil. simpl in Hnil. lia. }
    intros i.
    destruct (get_next_batch_members _ _ _ Hex Htb i) as (b & Hb & Hlen & Hin).
    assert (Hshape : has_shape2 (Z.to_nat batch_size)
                       (IMAGE_HEIGHT * IMAGE_WIDTH) (map fst b)).
    { split; [now rewrite length_map|].
      eapply in_combine_fst_rows; [exact Htrows | exact Hin]. }
    destruct (preprocess_spec _ _ Hshape) as (imgs & Hpre & Hs & Hbin & _).
    exists b, imgs. auto.
  - assert (Hlen : length (examples (mnist_validation data)) = 10%nat).
    { unfold examples. rewrite length_combine, length_map. lia. }
    assert (Hfst : map fst (examples (mnist_validation data)) =
                   images (mnist_validation data)).
    { unfold examples. apply map_fst_combine. rewrite length_map. lia. }
    assert (Hsnd : map snd (examples (mnist_validation data)) =
                   labels (mnist_validation data)).
    { unfold examples. rewrite map_snd_combine by (rewrite length_map; lia).
      now apply np_int32_labels. }
    assert (Hshape : has_shape2 10 (IMAGE_HEIGHT * IMAGE_WIDTH)
                       (map fst (examples (mnist_validation data)))).
    { rewrite Hfst. now split. }
    destruct (preprocess_spec _ _ Hshape) as (imgs & Hpre & Hs & Hbin & _).
    intros i. exists imgs. split; [|rewrite Hsnd; auto].
    unfold take in Hhb. cbn [Z.ltb Z.compare] in Hhb.
    change (Z.to_nat 10) with 10%nat in Hhb.
    rewrite firstn_all2 in Hhb by lia.
    assert (Hne : examples (mnist_validation data) <> []).
    { intros Hnil. rewrite Hnil in Hlen. discriminate. }
    destruct (get_next_batch_repeat _ _ _ Hne Hhb) as [_ Hnext].
    rewrite (Hnext i (nth 0 (examples (mnist_validation data)) ([], 0%Z))).
    f_equal. change (Z.to_nat 10) with 10%nat.
    transitivity (map (fun j => nth j (examples (mnist_validation data))
                                    (nth 0 (examples (mnist_validation data))
                                         ([], 0%Z)))
                      (seq 0 (length (examples (mnist_validation data)))));
      [|apply map_nth_seq].
    rewrite Hlen. apply map_ext_in. intros j Hj. apply in_seq in Hj.
    f_equal. rewrite Nat.add_comm, Nat.Div0.mod_add.
    apply Nat.mod_small. lia.
Qed.

Lemma toy_randn_shape (n m : nat) (rng : unit) :
  has_shape2 n m (fst (toy_randn n m rng)).
Proof.
  unfold toy_randn. cbn [fst]. split; [apply repeat_length|].
  apply Forall_forall. intros row Hrow. apply repeat_spec in Hrow.
  subst row. apply repeat_length.
Defined.

Lemma fake_data_feeds_model_witness :
  let data := fst (build_fake_data unit toy_randn toy_permutation 55000 tt) in
  (has_shape2 10 (IMAGE_HEIGHT * IMAGE_WIDTH) (images (mnist_train data)) /\
   Permutation.Permutation (labels (mnist_train data)) (arange 10) /\
   num_examples (mnist_train data) = 10%Z) /\
  (has_shape2 10 (IMAGE_HEIGHT * IMAGE_WIDTH)
              (images (mnist_validation data)) /\
   Permutation.Permutation (labels (mnist_validation data)) (arange 10) /\
   num_examples (mnist_validation data) = 10%Z) /\
  exists training_batches heldout_frozen,
    build_input_pipeline data 32 (num_examples (mnist_validation data))
      = Some (training_batches, heldout_frozen) /\
    (forall i, exists b images,
       get_next training_batches i = Some b /\
       preprocess (map fst b) = Some images /\
       has_shape3 (Z.to_nat 32) IMAGE_HEIGHT IMAGE_WIDTH images /\
       binary_images images) /\
    (forall i, exists images,
       get_next heldout_frozen i = Some (examples (mnist_validation data)) /\
       Permutation.Permutation
         (map snd (examples (mnist_validation data))) (arange 10) /\
       preprocess (map fst (examples (mnist_validation data))) = Some images /\
       has_shape3 10 IMAGE_HEIGHT IMAGE_WIDTH images /\
       binary_images images).
Proof.
  apply (fake_data_feeds_model unit toy_randn toy_permutation 55000 32 tt).
  - exact toy_randn_shape.
  - intros x rng. unfold toy_permutation. cbn [fst].
    apply Permutation.Permutation_sym, Permutation.Permutation_rev.
  - lia.
Defined.

(** X17.  Over an empty training set the pipeline is still built, but the
    training iterator runs out at its first [get_next] and at every later
    one: repeating no example gives no batch. *)
Theorem empty_training_set_runs_out (mnist_data : MnistData)
    (batch_size heldout_size : Z) :
  images (mnist_train mnist_data) = [] ->
  labels (mnist_train mnist_data) = [] ->
  length (images (mnist_validation mnist_data)) =
    length (labels (mnist_validation mnist_data)) ->
  (0 < batch_size)%Z -> (0 < heldout_size)%Z ->
  exists training_batches heldout_frozen,
    build_input_pipeline mnist_data batch_size heldout_size =
      Some (training_batches, heldout_frozen) /\
    forall i, get_next training_batches i = None.
Proof.
  intros Hi Hl Hval Hbatch Hheldout.
  destruct (build_input_pipeline_returns mnist_data batch_size heldout_size
              ltac:(now rewrite Hi, Hl) Hval Hbatch Hheldout)
    as (tb & hb & Hbuild & Htb & _).
  exists tb, hb. split; [exact Hbuild|].
  unfold examples in Htb. rewrite Hi in Htb. cbn [combine] in Htb.
  exact (get_next_batch_empty _ _ Htb).
Qed.

Lemma empty_training_set_runs_out_witness :
  exists training_batches heldout_frozen,
    build_input_pipeline
      (mkMnist (mkSplit [] [] 0) (mnist_validation toy_mnist)) 32 3 =
      Some (training_batches, heldout_frozen) /\
    forall i, get_next training_batches i = None.
Proof.
  apply (empty_training_set_runs_out
           (mkMnist (mkSplit [] [] 0) (mnist_validation toy_mnist)) 32 3).
  - reflexivity.
  - reflexivity.
  - reflexivity.
  - lia.
  - lia.
Defined.

(** * Whatever the arithmetic *)

Section AnyArithmetic.
Context {T : Type} `{Scalar T}.

Lemma call_is_call_with (vq : VectorQuantizer T) codes :
  call vq codes = call_with argmin vq codes.
Proof. reflexivity. Qed.

(** The reference kernel keeps the promise of [tf.argmin]. *)
Lemma argmin_is_argmin : is_argmin (argmin (T:=T)).
Proof.
  intros xs Hne. destruct (argmin_total xs Hne) as [k Hk].
  exists k. split; [exact Hk|].
  destruct (argmin_spec xs k Hk) as (Hlt & Hle & _).
  rewrite length_map in Hlt, Hle. split; [exact Hlt|].
  intros j Hj. specialize (Hle j Hj).
  now rewrite !(nth_map_lt value xs _ (const 0) 0) in Hle by assumption.
Qed.

Lemma call_with_inv pick (vq : VectorQuantizer T) codes nearest oh :
  call_with pick vq codes = Some (nearest, oh) ->
  Forall2 (Forall2 (fun c o => exists k,
      pick (map (computed_distance c) (codebook vq)) = Some k /\
      o = one_hot (num_codes vq) k)) codes oh /\
  nearest = map (map (select_row vq)) oh.
Proof.
  unfold call_with. rewrite distances_rows.
  destruct (mapM _ _) as [assignments|] eqn:Hm; [|discriminate].
  intros Hc; inversion Hc; subst; clear Hc. split; [|reflexivity].
  apply (mapM_map_inv _ _ (map (one_hot (num_codes vq)))) in Hm.
  eapply Forall2_impl; [|exact Hm].
  intros row z (ks & Hks & ->).
  apply (mapM_map_inv _ _ (one_hot (num_codes vq))) in Hks.
  exact Hks.
Qed.

Lemma call_with_total pick (vq : VectorQuantizer T) codes :
  is_argmin pick -> codebook vq <> [] ->
  exists nearest oh, call_with pick vq codes = Some (nearest, oh).
Proof.
  intros Hpick Hne. unfold call_with.
  destruct (mapM_total (mapM pick) (distances vq codes)) as [a Ha].
  - rewrite distances_rows. apply Forall_forall. intros row Hrow.
    apply in_map_iff in Hrow. destruct Hrow as (crow & <- & _).
    apply mapM_total. apply Forall_forall. intros ds Hds.
    apply in_map_iff in Hds. destruct Hds as (c & <- & _).
    destruct (Hpick (map (fun e => norm (map2 ssub c e)) (codebook vq)))
      as (k & Hk & _); [|eauto].
    destruct (codebook vq); [congruence|discriminate].
  - rewrite Ha. eauto.
Qed.

(** The index behind every one-hot row: one of a smallest computed
    distance. *)
Lemma call_with_rows pick (vq : VectorQuantizer T) codes nearest oh :
  is_argmin pick -> wf_vq vq -> (0 < num_codes vq)%nat ->
  call_with pick vq codes = Some (nearest, oh) ->
  Forall2 (Forall2 (fun c o => exists k,
      pick (map (computed_distance c) (codebook vq)) = Some k /\
      (k < num_codes vq)%nat /\
      o = one_hot (num_codes vq) k /\
      forall j, (j < num_codes vq)%nat ->
        value (computed_distance c (nth k (codebook vq) [])) <=
        value (computed_distance c (nth j (codebook vq) []))))
    codes oh.
Proof.
  intros Hpick ((Hlen & _) & _) Hpos Hcall.
  destruct (call_with_inv _ _ _ _ _ Hcall) as (Hrows & _).
  eapply Forall2_impl; [|exact Hrows].
  intros crow orow Hrow. eapply Forall2_impl; [|exact Hrow].
  intros c o (k & Hk & ->). exists k. split; [exact Hk|].
  destruct (Hpick (map (computed_distance c) (codebook vq)))
    as (k' & Hk' & Hlt & Hle).
  { destruct (codebook vq); [simpl in Hlen; lia | discriminate]. }
  rewrite Hk in Hk'. injection Hk' as <-.
  rewrite length_map, Hlen in Hlt, Hle.
  split; [exact Hlt|]. split; [reflexivity|].
  intros j Hj. specialize (Hle j Hj).
  now rewrite !(nth_map_lt (computed_distance c) (codebook vq) _ [] (const 0))
    in Hle by lia.
Qed.

(** With the reference kernel the index is the first of those. *)
Lemma call_first_rows (vq : VectorQuantizer T) codes nearest oh :
  wf_vq vq -> call vq codes = Some (nearest, oh) ->
  Forall2 (Forall2 (fun c o => exists k,
      argmin (map (computed_distance c) (codebook vq)) = Some k /\
      (k < num_codes vq)%nat /\
      o = one_hot (num_codes vq) k /\
      (forall j, (j < num_codes vq)%nat ->
         value (computed_distance c (nth k (codebook vq) [])) <=
         value (computed_distance c (nth j (codebook vq) []))) /\
      (forall j, (j < k)%nat ->
         value (computed_distance c (nth k (codebook vq) [])) <
         value (computed_distance c (nth j (codebook vq) [])))))
    codes oh.
Proof.
  intros ((Hlen & _) & _) Hcall.
  destruct (call_inv _ _ _ _ Hcall) as (Hrows & _).
  eapply Forall2_impl; [|exact Hrows].
  intros crow orow Hrow. eapply Forall2_impl; [|exact Hrow].
  intros c o (k & Hk & ->). exists k.
  fold (computed_distance c) in Hk. split; [exact Hk|].
  destruct (argmin_spec _ _ Hk) as (Hlt & Hle & Hfirst).
  rewrite !length_map, Hlen in Hlt, Hle.
  assert (Hnth : forall j, (j < num_codes vq)%nat ->
            nth j (map value (map (computed_distance c) (codebook vq))) 0 =
            value (computed_distance c (nth j (codebook vq) []))).
  { intros j Hj. rewrite map_map.
    now rewrite (nth_map_lt _ (codebook vq) _ [] 0) by lia. }
  split; [exact Hlt|]. split; [reflexivity|]. split.
  - intros j Hj. rewrite <- !Hnth by assumption. now apply Hle.
  - intros j Hj. rewrite <- !Hnth by lia. now apply Hfirst.
Qed.

End AnyArithmetic.

(** C3.  At every latent position the quantizer's one-hot row marks an index
    whose distance to the input vector, as the program computes it (the
    norm of the difference, every operation in the program's arithmetic), is
    smallest among the codebook entries: this holds for every arithmetic and
    whichever index [tf.argmin] returns on a tie.  With the reference kernel
    of [tf.argmin] the index is moreover the first of those with the
    smallest computed distance.  In exact real arithmetic the computed
    distance is the Euclidean distance. *)
Theorem quantizer_selects_computed_minimum :
  (forall (T : Type) (S : Scalar T) (pick : list T -> option nat)
          (vq : VectorQuantizer T) codes b l,
     is_argmin pick -> wf_vq vq -> (0 < num_codes vq)%nat ->
     has_shape3 b l (code_size vq) codes ->
     exists nearest oh,
       call_with pick vq codes = Some (nearest, oh) /\
       Forall2 (Forall2 (fun c o => exists k,
           (k < num_codes vq)%nat /\
           o = one_hot (num_codes vq) k /\
           forall j, (j < num_codes vq)%nat ->
             value (computed_distance c (nth k (codebook vq) [])) <=
             value (computed_distance c (nth j (codebook vq) []))))
         codes oh) /\
  (forall (T : Type) (S : Scalar T), is_argmin (argmin (T:=T))) /\
  (forall (T : Type) (S : Scalar T) (vq : VectorQuantizer T) codes b l,
     wf_vq vq -> (0 < num_codes vq)%nat ->
     has_shape3 b l (code_size vq) codes ->
     exists nearest oh,
       call vq codes = Some (nearest, oh) /\
       Forall2 (Forall2 (fun c o => exists k,
           (k < num_codes vq)%nat /\
           o = one_hot (num_codes vq) k /\
           (forall j, (j < num_codes vq)%nat ->
              value (computed_distance c (nth k (codebook vq) [])) <=
              value (computed_distance c (nth j (codebook vq) []))) /\
           (forall j, (j < k)%nat ->
              value (computed_distance c (nth k (codebook vq) [])) <
              value (computed_distance c (nth j (codebook vq) [])))))
         codes oh) /\
  (forall c e : list R, computed_distance c e = euclidean_distance c e).
Proof.
  split; [|split; [|split]].
  - intros T S pick vq codes b l Hpick Hwf Hpos _.
    destruct (call_with_total pick vq codes Hpick) as (nearest & oh & Hcall).
    { destruct Hwf as ((Hlen & _) & _). intros Hnil.
      rewrite Hnil in Hlen. simpl in Hlen. lia. }
    exists nearest, oh. split; [exact Hcall|].
    pose proof (call_with_rows _ _ _ _ _ Hpick Hwf Hpos Hcall) as Hrows.
    eapply Forall2_impl; [|exact Hrows].
    intros crow orow Hrow. eapply Forall2_impl; [|exact Hrow].
    intros c o (k & _ & Hk & Ho & Hmin). eauto.
  - intros T S. apply argmin_is_argmin.
  - intros T S vq codes b l Hwf Hpos _.
    destruct (call_total vq codes) as (nearest & oh & Hcall).
    { destruct Hwf as ((Hlen & _) & _). intros Hnil.
      rewrite Hnil in Hlen. simpl in Hlen. lia. }
    exists nearest, oh. split; [exact Hcall|].
    pose proof (call_first_rows _ _ _ _ Hwf Hcall) as Hrows.
    eapply Forall2_impl; [|exact Hrows].
    intros crow orow Hrow. eapply Forall2_impl; [|exact Hrow].
    intros c o (k & _ & Hk & Ho & Hmin & Hfirst). eauto.
  - intros c e. apply norm_sub_euclidean.
Qed.

(** ** Shapes and sums, whatever the arithmetic *)

Section AnyArithmeticSums.
Context {T : Type} `{Scalar T}.

Lemma select_row_length (vq : VectorQuantizer T) oh :
  wf_vq vq -> length (select_row vq oh) = code_size vq.
Proof.
  intros ((_ & Hrows) & _). unfold select_row.
  apply reduce_sum_rows_length.
  revert oh. induction Hrows as [|e cb He _ IH]; intros [|o oh]; simpl;
    constructor; auto.
  now rewrite length_map.
Qed.

Lemma call_shapes (vq : VectorQuantizer T) codes nearest oh b l :
  wf_vq vq -> has_shape3 b l (code_size vq) codes ->
  call vq codes = Some (nearest, oh) ->
  has_shape3 b l (code_size vq) nearest /\
  has_shape3 b l (num_codes vq) oh /\
  aligned vq codes oh.
Proof.
  intros Hwf [Hb Hrows] Hcall.
  destruct (call_inv _ _ _ _ Hcall) as (Hoh & ->).
  pose proof (Forall2_length Hoh) as Hlen.
  apply (Forall2_and_left _ _ _ _ Hoh) in Hrows. clear Hoh Hcall.
  assert (Hal : aligned vq codes oh).
  { unfold aligned. eapply Forall2_impl; [|exact Hrows].
    intros crow orow [[_ Hc] Hrow].
    apply (Forall2_and_left _ _ _ _ Hrow) in Hc.
    eapply Forall2_impl; [|exact Hc].
    intros c o [Hc' (k & _ & ->)].
    split; [exact Hc' | apply one_hot_length]. }
  assert (Hohs : has_shape3 b l (num_codes vq) oh).
  { split; [lia|]. clear Hal Hlen Hb.
    induction Hrows as [|crow orow codes oh [[Hl _] Hrow] _ IH];
      constructor; auto.
    split; [rewrite <- (Forall2_length Hrow); exact Hl|].
    clear Hl. induction Hrow as [|c o crow orow (k & _ & ->) _ IH'];
      constructor; auto. apply one_hot_length. }
  split; [|split; assumption].
  destruct Hohs as [Hob Hor]. split; [now rewrite length_map|].
  apply Forall_map. eapply Forall_impl; [|exact Hor].
  intros orow [Hl _]. split; [now rewrite length_map|].
  apply Forall_map. apply Forall_forall. intros o _.
  now apply select_row_length.
Qed.

Lemma shape3_entry {A : Type} (t : list (list (list A))) b l d i p :
  has_shape3 b l d t -> (i < b)%nat -> (p < l)%nat ->
  length (nth i t []) = l /\ length (nth p (nth i t []) []) = d.
Proof.
  intros [Hb Hrows] Hi Hp. rewrite Forall_forall in Hrows.
  destruct (Hrows (nth i t [])) as [Hl Hd]; [apply nth_In; lia|].
  split; [exact Hl|]. rewrite Forall_forall in Hd.
  apply Hd. apply nth_In. lia.
Qed.

Lemma straight_through_shape (codes nearest : list (list (list T))) b l d :
  has_shape3 b l d codes -> has_shape3 b l d nearest ->
  has_shape3 b l d (straight_through codes nearest).
Proof.
  intros [Hb Hc] [Hb' Hn]. unfold straight_through. split.
  - rewrite map2_length. lia.
  - clear Hb Hb'. revert nearest Hn.
    induction Hc as [|crow codes Hcrow _ IH]; intros [|nrow nearest] Hn;
      simpl; constructor; inversion Hn as [|? ? Hnrow Hrest]; subst.
    + now apply map2_shape2.
    + now apply IH.
Qed.

Lemma straight_through_nth (codes nearest : list (list (list T)))
    b l d i p j :
  has_shape3 b l d codes -> has_shape3 b l d nearest ->
  (i < b)%nat -> (p < l)%nat -> (j < d)%nat ->
  nth j (nth p (nth i (straight_through codes nearest) []) []) (const 0) =
  sadd (nth j (nth p (nth i codes []) []) (const 0))
       (stop_gradient
          (ssub (nth j (nth p (nth i nearest []) []) (const 0))
                (nth j (nth p (nth i codes []) []) (const 0)))).
Proof.
  intros Hc Hn Hi Hp Hj.
  destruct (shape3_entry _ _ _ _ i p Hc Hi Hp) as [Hcl Hcd].
  destruct (shape3_entry _ _ _ _ i p Hn Hi Hp) as [Hnl Hnd].
  destruct Hc as [Hcb _], Hn as [Hnb _]. unfold straight_through.
  rewrite (map2_nth _ _ _ _ [] []) by lia.
  rewrite (map2_nth _ _ _ _ [] []) by lia.
  now rewrite (map2_nth _ _ _ _ (const 0) (const 0)) by lia.
Qed.

Lemma reduce_sum_rows_nth_any d (rows : list (list T)) k :
  Forall (fun r => length r = d) rows -> (k < d)%nat ->
  nth k (reduce_sum_rows d rows) (const 0) =
  reduce_sum (map (fun r => nth k r (const 0)) rows).
Proof.
  intros Hrows Hk. induction Hrows as [|r rows Hr Hrows IH].
  - simpl. apply nth_repeat.
  - change (reduce_sum_rows d (r :: rows))
      with (map2 sadd r (reduce_sum_rows d rows)).
    rewrite (map2_nth _ _ _ _ (const 0) (const 0)).
    + rewrite IH. reflexivity.
    + lia.
    + rewrite reduce_sum_rows_length; auto.
Qed.

Lemma reduce_sum_mats_nth_any n d (ms : list (list (list T))) k j :
  Forall (has_shape2 n d) ms -> (k < n)%nat -> (j < d)%nat ->
  nth j (nth k (reduce_sum_mats n d ms) []) (const 0) =
  reduce_sum (map (fun m => nth j (nth k m []) (const 0)) ms).
Proof.
  intros Hms Hk Hj. induction Hms as [|m ms Hm Hms IH].
  - simpl.
    rewrite (nth_indep _ [] (repeat (const 0) d)) by (now rewrite repeat_length).
    rewrite nth_repeat. apply nth_repeat.
  - change (reduce_sum_mats n d (m :: ms))
      with (map2 (map2 sadd) m (reduce_sum_mats n d ms)).
    pose proof (reduce_sum_mats_shape n d ms Hms) as [Ha1 Ha2].
    destruct Hm as [Hm1 Hm2].
    rewrite (map2_nth _ _ _ _ [] []) by lia.
    rewrite (map2_nth _ _ _ _ (const 0) (const 0)).
    + rewrite IH. reflexivity.
    + rewrite Forall_forall in Hm2. rewrite Hm2; [lia|]. apply nth_In. lia.
    + rewrite Forall_forall in Ha2. rewrite Ha2; [lia|]. apply nth_In. lia.
Qed.

Lemma outer_nth_any (c o : list T) k j :
  (k < length o)%nat -> (j < length c)%nat ->
  nth j (nth k (outer c o) []) (const 0) =
  smul (nth j c (const 0)) (nth k o (const 0)).
Proof.
  intros Hk Hj. unfold outer.
  rewrite (nth_map_lt _ _ _ (const 0)) by assumption.
  now rewrite (nth_map_lt _ _ _ (const 0)) by assumption.
Qed.

Section Statistics.
Variable vq : VectorQuantizer T.

Lemma aligned_flat codes oh :
  aligned vq codes oh ->
  Forall2 (fun c o => length c = code_size vq /\ length o = num_codes vq)
          (concat codes) (concat oh).
Proof.
  induction 1 as [|crow orow codes oh Hrow _ IH]; simpl; [constructor|].
  now apply Forall2_app.
Qed.

Lemma aligned_one_hot_rows codes oh :
  aligned vq codes oh ->
  Forall (fun o => length o = num_codes vq) (concat oh).
Proof.
  intros Hal. apply aligned_flat in Hal.
  induction Hal as [|c o cs os [_ Ho] _ IH]; constructor; auto.
Qed.

Lemma outer_shapes cs os :
  Forall2 (fun c o => length c = code_size vq /\ length o = num_codes vq)
          cs os ->
  Forall (has_shape2 (num_codes vq) (code_size vq)) (map2 outer cs os).
Proof.
  induction 1 as [|c o cs os [Hc Ho] _ IH]; simpl; constructor; auto.
  rewrite <- Hc, <- Ho. apply outer_shape.
Qed.

Lemma batch_counts_nth_any codes oh k :
  aligned vq codes oh -> (k < num_codes vq)%nat ->
  nth k (batch_counts vq oh) (const 0) = batch_count_of oh k.
Proof.
  intros Hal Hk. unfold batch_counts, batch_count_of.
  apply reduce_sum_rows_nth_any; [|exact Hk].
  eapply aligned_one_hot_rows; eauto.
Qed.

Lemma batch_counts_length_any codes oh :
  aligned vq codes oh -> length (batch_counts vq oh) = num_codes vq.
Proof.
  intros Hal. apply reduce_sum_rows_length.
  eapply aligned_one_hot_rows; eauto.
Qed.

Lemma batch_means_shape_any codes oh :
  aligned vq codes oh ->
  has_shape2 (num_codes vq) (code_size vq) (batch_means vq codes oh).
Proof.
  intros Hal. apply reduce_sum_mats_shape. apply outer_shapes.
  now apply aligned_flat.
Qed.

Lemma batch_means_nth_any codes oh k j :
  aligned vq codes oh -> (k < num_codes vq)%nat -> (j < code_size vq)%nat ->
  nth j (nth k (batch_means vq codes oh) []) (const 0) =
  batch_mean_of codes oh k j.
Proof.
  intros Hal Hk Hj. unfold batch_means, batch_mean_of.
  apply aligned_flat in Hal.
  rewrite reduce_sum_mats_nth_any by (auto using outer_shapes).
  f_equal.
  induction Hal as [|c o cs os [Hc Ho] _ IH]; simpl; [reflexivity|].
  rewrite IH. f_equal. apply outer_nth_any; lia.
Qed.

End Statistics.

(** One run of the graph, entry by entry, as the program computes it. *)
Lemma step_as_computed {Image Distribution : Type}
    (log_prob : Distribution -> Image -> list T) (images : Image)
    (encoder_fn : Image -> list (list (list T)))
    (decoder_fn : list (list (list T)) -> Distribution)
    (vq : VectorQuantizer T) (beta decay : R) (b l : nat) r :
  wf_vq vq -> has_shape3 b l (code_size vq) (encoder_fn images) ->
  make_vq_vae log_prob images encoder_fn decoder_fn vq beta decay = Some r ->
  exists nearest oh,
    call vq (encoder_fn images) = Some (nearest, oh) /\
    has_shape3 b l (code_size vq) nearest /\
    has_shape3 b l (num_codes vq) oh /\
    decoder_distribution r =
      decoder_fn (straight_through (encoder_fn images) nearest) /\
    forall k, (k < num_codes vq)%nat ->
      nth k (ema_count (vq_after r)) (const 0) =
        assign_moving_average (nth k (ema_count vq) (const 0))
                              (batch_count_of oh k) decay /\
      forall j, (j < code_size vq)%nat ->
        nth j (nth k (ema_means (vq_after r)) []) (const 0) =
          assign_moving_average
            (nth j (nth k (ema_means vq) []) (const 0))
            (batch_mean_of (encoder_fn images) oh k j) decay /\
        nth j (nth k (codebook (vq_after r)) []) (const 0) =
          sdiv (nth j (nth k (ema_means (vq_after r)) []) (const 0))
               (sadd (nth k (ema_count (vq_after r)) (const 0))
                     (const 1e-5)).
Proof.
  intros Hwf Hshape Hr.
  destruct (make_vq_vae_inv _ _ _ _ _ _ _ _ Hr)
    as (nearest & oh & Hcall & Hcount & Hmeans & Hucount & Humeans & Hcb
        & _ & _ & _ & Hdec & _).
  destruct (call_shapes _ _ _ _ _ _ Hwf Hshape Hcall) as (Hn & Ho & Hal).
  pose proof (batch_counts_length_any vq _ _ Hal) as Hbc.
  pose proof (batch_means_shape_any vq _ _ Hal) as Hbm.
  destruct Hwf as (Hcbs & Hec & Hem).
  exists nearest, oh. repeat (split; [assumption|]).
  intros k Hk.
  assert (Hck : nth k (ema_count (vq_after r)) (const 0) =
                assign_moving_average (nth k (ema_count vq) (const 0))
                                      (batch_count_of oh k) decay).
  { rewrite Hcount.
    rewrite (map2_nth _ _ _ _ (const 0) (const 0)) by lia.
    now rewrite (batch_counts_nth_any vq _ _ _ Hal Hk). }
  split; [exact Hck|]. intros j Hj.
  pose proof (shape2_row_length _ _ _ k Hem Hk) as Hrow.
  pose proof (shape2_row_length _ _ _ k Hbm Hk) as Hrow'.
  pose proof (proj1 Hem) as Heml. pose proof (proj1 Hbm) as Hbml.
  assert (Hmk : nth j (nth k (ema_means (vq_after r)) []) (const 0) =
                assign_moving_average
                  (nth j (nth k (ema_means vq) []) (const 0))
                  (batch_mean_of (encoder_fn images) oh k j) decay).
  { rewrite Hmeans.
    rewrite (map2_nth _ _ _ _ [] []) by lia.
    rewrite (map2_nth _ _ _ _ (const 0) (const 0)) by lia.
    now rewrite (batch_means_nth_any vq _ _ _ _ Hal Hk Hj). }
  split; [exact Hmk|].
  rewrite Hcb, Humeans, Hucount.
  assert (Hlen : length (ema_count (vq_after r)) = num_codes vq)
    by (rewrite Hcount, map2_length; lia).
  assert (Hms : has_shape2 (num_codes vq) (code_size vq)
                           (ema_means (vq_after r)))
    by (rewrite Hmeans; now apply map2_shape2).
  pose proof (shape2_row_length _ _ _ k Hms Hk) as Hrow''.
  pose proof (proj1 Hms) as Hmsl.
  rewrite (map2_nth _ _ _ _ [] (const 0)) by (rewrite ?length_map; lia).
  rewrite (nth_map_lt _ _ _ (const 0)) by lia.
  now rewrite (nth_map_lt _ _ _ (const 0)) by lia.
Qed.

End AnyArithmeticSums.

(** C8.  The straight-through value is, entry by entry,
    [codes + stop_gradient(nearest - codes)] as the program's arithmetic
    computes it; it has the shape of [nearest], and the decoder is applied
    to it: this holds for every arithmetic, float32 included, where each of
    the two operations is rounded.  In exact real arithmetic
    [c + (n - c) = n] for every pair, so there the value is [nearest]. *)
Theorem straight_through_value_as_computed :
  (forall (T : Type) (S : Scalar T) (Image Distribution : Type)
      (log_prob : Distribution -> Image -> list T) (images : Image)
      (encoder_fn : Image -> list (list (list T)))
      (decoder_fn : list (list (list T)) -> Distribution)
      (vq : VectorQuantizer T) (beta decay : R) (b l : nat),
    wf_vq vq -> (0 < num_codes vq)%nat ->
    has_shape3 b l (code_size vq) (encoder_fn images) ->
    exists r nearest oh,
      make_vq_vae log_prob images encoder_fn decoder_fn vq beta decay
        = Some r /\
      call vq (encoder_fn images) = Some (nearest, oh) /\
      decoder_distribution r =
        decoder_fn (straight_through (encoder_fn images) nearest) /\
      has_shape3 b l (code_size vq) nearest /\
      has_shape3 b l (code_size vq)
                 (straight_through (encoder_fn images) nearest) /\
      forall i p j, (i < b)%nat -> (p < l)%nat -> (j < code_size vq)%nat ->
        nth j (nth p (nth i (straight_through (encoder_fn images) nearest)
                          []) []) (const 0) =
        sadd (nth j (nth p (nth i (encoder_fn images) []) []) (const 0))
             (stop_gradient
                (ssub (nth j (nth p (nth i nearest []) []) (const 0))
                      (nth j (nth p (nth i (encoder_fn images) []) [])
                           (const 0))))) /\
  (forall c n : R, sadd c (stop_gradient (ssub n c)) = n) /\
  (forall (Image Distribution : Type)
      (log_prob : Distribution -> Image -> list R) (images : Image)
      (encoder_fn : Image -> list (list (list R)))
      (decoder_fn : list (list (list R)) -> Distribution)
      (vq : VectorQuantizer R) (beta decay : R) (b l : nat),
    wf_vq vq -> (0 < num_codes vq)%nat ->
    has_shape3 b l (code_size vq) (encoder_fn images) ->
    exists r nearest oh,
      make_vq_vae log_prob images encoder_fn decoder_fn vq beta decay
        = Some r /\
      call vq (encoder_fn images) = Some (nearest, oh) /\
      straight_through (encoder_fn images) nearest = nearest /\
      decoder_distribution r = decoder_fn nearest).
Proof.
  split; [|split; [exact straight_through_scalar|]].
  - intros T S Image Distribution log_prob images encoder_fn decoder_fn vq
      beta decay b l Hwf Hpos Hshape.
    destruct (call_total vq (encoder_fn images)) as (nearest & oh & Hcall).
    { destruct Hwf as ((Hlen & _) & _). intros Hnil.
      rewrite Hnil in Hlen. simpl in Hlen. lia. }
    destruct (make_vq_vae_total log_prob images encoder_fn decoder_fn vq
                beta decay nearest oh Hcall) as [r Hr].
    destruct (step_as_computed _ _ _ _ _ _ _ _ _ r Hwf Hshape Hr)
      as (nearest' & oh' & Hcall' & Hn & _ & Hdec & _).
    rewrite Hcall in Hcall'. injection Hcall' as <- <-.
    exists r, nearest, oh.
    split; [exact Hr|]. split; [exact Hcall|]. split; [exact Hdec|].
    split; [exact Hn|]. split; [now apply straight_through_shape|].
    intros i p j Hi Hp Hj.
    now apply (straight_through_nth _ _ b l (code_size vq)).
  - intros Image Distribution log_prob images encoder_fn decoder_fn vq beta
      decay b l Hwf Hpos Hshape.
    destruct (make_vq_vae_returns log_prob images encoder_fn decoder_fn vq
                beta decay Hwf Hpos) as [r Hr].
    destruct (make_vq_vae_inv _ _ _ _ _ _ _ _ Hr)
      as (nearest & oh & Hcall & _ & _ & _ & _ & _ & _ & _ & _ & Hdec & _).
    pose proof (straight_through_same_shape _ _
                  (call_same_shape _ _ _ _ _ _ Hwf Hshape Hcall)) as Hst.
    exists r, nearest, oh.
    split; [exact Hr|]. split; [exact Hcall|]. split; [exact Hst|].
    now rewrite Hdec, Hst.
Qed.

(** * The program in float32 *)

Module Float32Facts.
Import SpecFloat QArith_base Float32.
Local Close Scope Q_scope.

(** ** Evaluating the constants and the comparisons *)

Lemma Q2R_inject_Z (z : Z) : Q2R (inject_Z z) = IZR z.
Proof. unfold Q2R, inject_Z. simpl. rewrite Rinv_1. lra. Qed.

Lemma Int_part_Q (q : Q) : Int_part (Q2R q) = Qround.Qfloor q.
Proof.
  symmetry. apply Int_part_spec.
  pose proof (Qround.Qfloor_le q) as Hle.
  pose proof (Qround.Qlt_floor q) as Hlt.
  apply Qreals.Qle_Rle in Hle. apply Qreals.Qlt_Rlt in Hlt.
  rewrite Q2R_inject_Z in Hle, Hlt. rewrite plus_IZR in Hlt. lra.
Qed.

Lemma of_R_Q (q : Q) : of_R (Q2R q) = of_Q q.
Proof.
  unfold of_R, of_Q.
  replace (Q2R q * IZR (2 ^ 152))%R with (Q2R (q * inject_Z (2 ^ 152)))
    by (now rewrite Qreals.Q2R_mult, Q2R_inject_Z).
  set (x := (q * inject_Z (2 ^ 152))%Q).
  cbv zeta. rewrite Int_part_Q.
  replace (if Req_dec_T (IZR (Qround.Qfloor x)) (Q2R x) then 0%Z else 1%Z)
    with (if Qeq_bool (inject_Z (Qround.Qfloor x)) x then 0%Z else 1%Z);
    [reflexivity|].
  destruct (Req_dec_T (IZR (Qround.Qfloor x)) (Q2R x)) as [He|Hne].
  - rewrite <- Q2R_inject_Z in He. apply Qreals.eqR_Qeq in He.
    apply Qeq_bool_iff in He. now rewrite He.
  - destruct (Qeq_bool (inject_Z (Qround.Qfloor x)) x) eqn:Hb; [|reflexivity].
    apply Qeq_bool_iff in Hb. apply Qreals.Qeq_eqR in Hb.
    rewrite Q2R_inject_Z in Hb. contradiction.
Qed.

Lemma sltb_Q (x y : spec_float) :
  sltb x y = negb (Qle_bool (to_Q y) (to_Q x)).
Proof.
  unfold sltb. cbn [value F32_Scalar].
  destruct (Rlt_dec (Q2R (to_Q x)) (Q2R (to_Q y))) as [Hlt|Hge].
  - apply Qreals.Rlt_Qlt in Hlt.
    destruct (Qle_bool (to_Q y) (to_Q x)) eqn:Hb; [|reflexivity].
    apply Qle_bool_iff in Hb. exfalso. eapply Qlt_not_le; eauto.
  - destruct (Qle_bool (to_Q y) (to_Q x)) eqn:Hb; [reflexivity|].
    exfalso. apply Hge. apply Qreals.Qlt_Rlt. apply Qnot_le_lt.
    intros Hle. apply Qle_bool_iff in Hle. congruence.
Qed.

Lemma const_Q (r : R) (q : Q) : r = Q2R q -> const r = of_Q q.
Proof. intros ->. apply of_R_Q. Qed.

Lemma const_0 : const 0%R = S754_zero false.
Proof. rewrite (const_Q 0%R 0%Q); [reflexivity | unfold Q2R; simpl; lra]. Qed.

Lemma const_1 : const 1%R = S754_finite false 8388608 (-23).
Proof. rewrite (const_Q 1%R 1%Q); [reflexivity | unfold Q2R; simpl; lra]. Qed.

(** ** The nearest entry *)

Ltac expose_call :=
  unfold call, distances, computed_distance, norm, reduce_sum, square,
    select_row, reduce_sum_rows, one_hot, argmin;
  cbn [map map2 fold_right seq repeat Nat.eqb codebook num_codes code_size
       init_VectorQuantizer argmin_scan mapM ema_count ema_means].

Ltac f32_eval :=
  rewrite ?const_0, ?const_1, ?sltb_Q; vm_compute; reflexivity.

Lemma near_tie_call :
  call near_tie_vq near_tie_codes =
  Some ([[[S754_finite false 8388608 (-23)]]],
        [[[S754_finite false 8388608 (-23); S754_zero false]]]).
Proof. unfold near_tie_vq, near_tie_codes. expose_call. f32_eval. Qed.

Lemma quantizer_selects_computed_minimum_witness :
  exists nearest oh,
    call_with argmin near_tie_vq near_tie_codes = Some (nearest, oh) /\
    Forall2 (Forall2 (fun c o => exists k,
        (k < num_codes near_tie_vq)%nat /\
        o = one_hot (num_codes near_tie_vq) k /\
        forall j, (j < num_codes near_tie_vq)%nat ->
          (value (computed_distance c (nth k (codebook near_tie_vq) [])) <=
           value (computed_distance c (nth j (codebook near_tie_vq) [])))%R))
      near_tie_codes oh.
Proof.
  apply (proj1 quantizer_selects_computed_minimum spec_float F32_Scalar
               argmin near_tie_vq near_tie_codes 1%nat 1%nat).
  - apply (proj1 (proj2 quantizer_selects_computed_minimum)).
  - shape_tac.
  - simpl. lia.
  - shape_tac.
Defined.

(** In float32 the quantizer marks entry 0, [1.0], for the code [-1.0]:
    both computed distances are [2.0], although entry 1, [0.99999994], is
    the nearer one.  With the two entries in the other order the computed
    distances are the same, so whichever index [tf.argmin] returns for
    them, it is the farther entry for one of the two codebooks. *)
Lemma float32_marks_farther_entry :
  call near_tie_vq near_tie_codes =
    Some ([[[S754_finite false 8388608 (-23)]]],
          [[[S754_finite false 8388608 (-23); S754_zero false]]]) /\
  distances near_tie_vq near_tie_codes =
    [[[S754_finite false 8388608 (-22); S754_finite false 8388608 (-22)]]] /\
  distances near_tie_mirror_vq near_tie_codes =
    [[[S754_finite false 8388608 (-22); S754_finite false 8388608 (-22)]]] /\
  computed_distance [S754_finite true 8388608 (-23)]
                    [S754_finite false 8388608 (-23)] =
    computed_distance [S754_finite true 8388608 (-23)]
                      [S754_finite false 16777215 (-24)] /\
  (euclidean_distance [value (S754_finite true 8388608 (-23))]
                      [value (S754_finite false 16777215 (-24))] <
   euclidean_distance [value (S754_finite true 8388608 (-23))]
                      [value (S754_finite false 8388608 (-23))])%R.
Proof.
  split; [exact near_tie_call|].
  split; [unfold near_tie_vq, near_tie_codes; expose_call; f32_eval|].
  split; [unfold near_tie_mirror_vq, near_tie_codes; expose_call; f32_eval|].
  split.
  - unfold computed_distance, norm, reduce_sum, square.
    cbn [map map2 fold_right]. f32_eval.
  - unfold euclidean_distance. cbn [combine map fold_right fst snd].
    cbn [value F32_Scalar].
    replace (Q2R (to_Q (S754_finite true 8388608 (-23)))) with (Q2R (-1))
      by (apply Qreals.Qeq_eqR; reflexivity).
    replace (Q2R (to_Q (S754_finite false 8388608 (-23)))) with (Q2R 1)
      by (apply Qreals.Qeq_eqR; reflexivity).
    replace (Q2R (to_Q (S754_finite false 16777215 (-24))))
      with (Q2R (16777215 # 16777216))
      by (apply Qreals.Qeq_eqR; reflexivity).
    unfold Q2R. cbn [Qnum Qden].
    apply sqrt_lt_1_alt. lra.
Qed.

(** ** The straight-through value *)

Lemma st_call :
  call st_vq (st_encoder tt) =
  Some ([[[S754_finite false 13421773 (-27)]]],
        [[[S754_finite false 8388608 (-23)]]]).
Proof. unfold st_vq, st_encoder. expose_call. f32_eval. Qed.

Lemma straight_through_value_as_computed_witness :
  exists r nearest oh,
    make_vq_vae toy_log_prob tt st_encoder toy_decoder st_vq 0.25 0.99
      = Some r /\
    call st_vq (st_encoder tt) = Some (nearest, oh) /\
    decoder_distribution r =
      toy_decoder (straight_through (st_encoder tt) nearest) /\
    has_shape3 1 1 (code_size st_vq) nearest /\
    has_shape3 1 1 (code_size st_vq)
               (straight_through (st_encoder tt) nearest) /\
    forall i p j, (i < 1)%nat -> (p < 1)%nat -> (j < code_size st_vq)%nat ->
      nth j (nth p (nth i (straight_through (st_encoder tt) nearest)
                        []) []) (const 0%R) =
      sadd (nth j (nth p (nth i (st_encoder tt) []) []) (const 0%R))
           (stop_gradient
              (ssub (nth j (nth p (nth i nearest []) []) (const 0%R))
                    (nth j (nth p (nth i (st_encoder tt) []) [])
                         (const 0%R)))).
Proof.
  apply (proj1 straight_through_value_as_computed spec_float F32_Scalar
               unit _ toy_log_prob tt st_encoder toy_decoder st_vq
               0.25%R 0.99%R 1%nat 1%nat).
  - shape_tac.
  - simpl. lia.
  - shape_tac.
Defined.

(** In float32, for the code [0.7] and its nearest entry [0.1], the decoder
    is applied to [0.10000002], not to the entry. *)
Lemma float32_straight_through_differs :
  exists r nearest oh,
    make_vq_vae toy_log_prob tt st_encoder toy_decoder st_vq 0.25 0.99
      = Some r /\
    call st_vq (st_encoder tt) = Some (nearest, oh) /\
    nearest = [[[S754_finite false 13421773 (-27)]]] /\
    straight_through (st_encoder tt) nearest =
      [[[S754_finite false 13421776 (-27)]]] /\
    decoder_distribution r = [[[S754_finite false 13421776 (-27)]]] /\
    straight_through (st_encoder tt) nearest <> nearest.
Proof.
  destruct (make_vq_vae_total toy_log_prob tt st_encoder toy_decoder st_vq
              0.25%R 0.99%R _ _ st_call) as [r Hr].
  destruct (make_vq_vae_inv _ _ _ _ _ _ _ _ Hr)
    as (nearest & oh & Hcall & _ & _ & _ & _ & _ & _ & _ & _ & Hdec & _).
  rewrite st_call in Hcall. injection Hcall as <- <-.
  assert (Hst : straight_through (st_encoder tt)
                  [[[S754_finite false 13421773 (-27)]]] =
                [[[S754_finite false 13421776 (-27)]]])
    by (vm_compute; reflexivity).
  eexists r, _, _. split; [exact Hr|]. split; [exact st_call|].
  split; [reflexivity|]. split; [exact Hst|].
  split; [now rewrite Hdec, Hst|].
  rewrite Hst. discriminate.
Qed.

(** ** The moving averages *)

Lemma const_half : const (1 - 0.5)%R = S754_finite false 8388608 (-24).
Proof.
  rewrite (const_Q _ (1 # 2)); [reflexivity | unfold Q2R; simpl; lra].
Qed.

Lemma const_hundredth :
  const (1 - 0.99)%R = S754_finite false 10737418 (-30).
Proof.
  rewrite (const_Q _ (1 # 100)); [reflexivity | unfold Q2R; simpl; lra].
Qed.

Lemma const_decay : const 0.99%R = S754_finite false 16609444 (-24).
Proof.
  rewrite (const_Q _ (99 # 100)); [reflexivity | unfold Q2R; simpl; lra].
Qed.

Lemma const_epsilon : const 1e-5%R = S754_finite false 10995116 (-40).
Proof.
  rewrite (const_Q _ (1 # 100000)); [reflexivity | unfold Q2R; simpl; lra].
Qed.

Ltac expose_update :=
  unfold batch_counts, batch_means, batch_count_of, batch_mean_of,
    reduce_sum_mats, outer, assign_moving_average, reduce_sum_rows,
    reduce_sum;
  cbn [map map2 fold_right seq repeat concat app combine fst snd nth
       codebook num_codes code_size ema_count ema_means
       init_VectorQuantizer].

Ltac f32_update :=
  rewrite ?const_0, ?const_1, ?const_half, ?const_hundredth, ?const_decay,
    ?const_epsilon;
  vm_compute; reflexivity.

(** Sums of zeros, and what a zero changes. *)
Lemma reduce_sum_absorbed (zs : list spec_float) :
  Forall (fun z => sadd z (const 0%R) = const 0%R) zs ->
  reduce_sum zs = const 0%R.
Proof.
  unfold reduce_sum.
  induction 1 as [|z zs Hz _ IH]; cbn [fold_right]; [reflexivity|].
  now rewrite IH.
Qed.

Lemma zero_absorbed : sadd (const 0%R) (const 0%R) = const 0%R.
Proof. rewrite const_0. reflexivity. Qed.

Lemma times_zero_absorbed (c : spec_float) :
  is_finite c -> sadd (smul c (const 0%R)) (const 0%R) = const 0%R.
Proof.
  rewrite const_0. destruct c as [[|]|[|]| |[|] m e]; simpl;
    intros Hc; try contradiction; reflexivity.
Qed.

Lemma minus_zero (v : spec_float) : ssub v (const 0%R) = v.
Proof. rewrite const_0. destruct v as [[|]|[|]| |[|] m e]; reflexivity. Qed.

Lemma finite_entry (c : list spec_float) j :
  Forall is_finite c -> is_finite (nth j c (const 0%R)).
Proof.
  intros Hc. destruct (Nat.lt_ge_cases j (length c)) as [Hj|Hj].
  - rewrite Forall_forall in Hc. apply Hc. now apply nth_In.
  - rewrite nth_overflow by assumption. rewrite const_0. exact I.
Qed.

Lemma unassigned_count (oh : list (list (list spec_float))) k :
  unassigned_in k oh -> batch_count_of oh k = const 0%R.
Proof.
  intros Hun. unfold batch_count_of. apply reduce_sum_absorbed.
  apply Forall_map. apply Forall_concat.
  eapply Forall_impl; [|exact Hun].
  intros orow Hrow. eapply Forall_impl; [|exact Hrow].
  intros o Ho. cbv beta. rewrite Ho. exact zero_absorbed.
Qed.

Lemma unassigned_mean (codes oh : list (list (list spec_float))) k j :
  Forall (Forall (Forall is_finite)) codes ->
  unassigned_in k oh -> batch_mean_of codes oh k j = const 0%R.
Proof.
  intros Hfin Hun. unfold batch_mean_of. apply reduce_sum_absorbed.
  apply Forall_map. apply Forall_forall. intros [c o] Hin. cbn [fst snd].
  pose proof (in_combine_l _ _ _ _ Hin) as Hc.
  pose proof (in_combine_r _ _ _ _ Hin) as Ho.
  apply Forall_concat in Hfin. apply Forall_concat in Hun.
  rewrite Forall_forall in Hfin, Hun.
  rewrite (Hun o Ho). apply times_zero_absorbed.
  apply finite_entry. now apply Hfin.
Qed.

(** The scenario of the specification, run in float32. *)
Lemma scenario32_call :
  call scenario32_vq (scenario32_encoder tt) =
  Some ([[[S754_zero false; S754_zero false]];
         [[S754_zero false; S754_zero false]]],
        [[[S754_finite false 8388608 (-23); S754_zero false;
           S754_zero false; S754_zero false]];
         [[S754_finite false 8388608 (-23); S754_zero false;
           S754_zero false; S754_zero false]]]).
Proof. unfold scenario32_vq, scenario32_encoder. expose_call. f32_eval. Qed.

Lemma scenario32_update r :
  make_vq_vae toy_log_prob tt scenario32_encoder toy_decoder scenario32_vq
              0.25 0.5 = Some r ->
  nth 0 (ema_count (vq_after r)) (const 0%R) =
    S754_finite false 8388608 (-23) /\
  nth 0 (ema_means (vq_after r)) [] =
    [S754_finite false 8388608 (-24); S754_finite false 8388608 (-24)] /\
  nth 0 (updated_ema_count r) (const 0%R) =
    S754_finite false 8388692 (-23) /\
  nth 0 (codebook (vq_after r)) [] =
    [S754_finite false 16777048 (-25); S754_finite false 16777048 (-25)].
Proof.
  intros Hr.
  destruct (make_vq_vae_inv _ _ _ _ _ _ _ _ Hr)
    as (nearest & oh & Hcall & Hcount & Hmeans & Hucount & Humeans & Hcb & _).
  rewrite scenario32_call in Hcall. injection Hcall as <- <-.
  assert (Hc : ema_count (vq_after r) =
               [S754_finite false 8388608 (-23); S754_zero false;
                S754_zero false; S754_zero false]).
  { rewrite Hcount. unfold scenario32_vq. expose_update. f32_update. }
  assert (Hm : ema_means (vq_after r) =
               [[S754_finite false 8388608 (-24);
                 S754_finite false 8388608 (-24)];
                map of_Q [5; 5]%Q; map of_Q [-5; 5]%Q; map of_Q [5; -5]%Q]).
  { rewrite Hmeans. unfold scenario32_vq, scenario32_encoder.
    expose_update. f32_update. }
  rewrite Hcb, Humeans, Hucount, Hc, Hm.
  cbn [map map2 nth]. rewrite ?const_0, ?const_epsilon.
  repeat split; vm_compute; reflexivity.
Qed.

(** C1.  One run of the graph leaves in [ema_count] and [ema_means], entry
    by entry, [old - (old - batch statistic) * (1 - decay)] as the program's
    arithmetic computes it, with [1 - decay] turned into a tensor entry
    first; the batch statistics are the sums over all batch and latent
    positions of the one-hot entries and of the codes times the one-hot
    entries; and the codebook receives
    [ema_means'[k] / (ema_count'[k] + 1e-5)].  This holds for every
    arithmetic, float32 included, where every operation is rounded.  In
    exact real arithmetic the stored values are
    [decay * old + (1 - decay) * batch statistic].  In the scenario (decay
    0.5, the codes [0.1, 0.1] and [0.9, 0.9] assigned to code 0, starting
    from [ema_count[0] = 0] and [ema_means[0] = [0, 0]]) the run in float32
    gives [ema_count[0] = 1], [ema_means[0] = [0.5, 0.5]] and the codebook
    entry [[0.5, 0.5] / (1 + 1e-5)], the divisor and the quotients rounded
    to float32. *)
Theorem ema_update_as_computed :
  (forall (T : Type) (S : Scalar T) (Image Distribution : Type)
      (log_prob : Distribution -> Image -> list T) (images : Image)
      (encoder_fn : Image -> list (list (list T)))
      (decoder_fn : list (list (list T)) -> Distribution)
      (vq : VectorQuantizer T) (beta decay : R) (b l : nat),
    wf_vq vq -> (0 < num_codes vq)%nat ->
    has_shape3 b l (code_size vq) (encoder_fn images) ->
    exists r nearest oh,
      make_vq_vae log_prob images encoder_fn decoder_fn vq beta decay
        = Some r /\
      call vq (encoder_fn images) = Some (nearest, oh) /\
      forall k, (k < num_codes vq)%nat ->
        nth k (ema_count (vq_after r)) (const 0) =
          ssub (nth k (ema_count vq) (const 0))
               (smul (ssub (nth k (ema_count vq) (const 0))
                           (batch_count_of oh k))
                     (const (1 - decay))) /\
        forall j, (j < code_size vq)%nat ->
          nth j (nth k (ema_means (vq_after r)) []) (const 0) =
            ssub (nth j (nth k (ema_means vq) []) (const 0))
                 (smul (ssub (nth j (nth k (ema_means vq) []) (const 0))
                             (batch_mean_of (encoder_fn images) oh k j))
                       (const (1 - decay))) /\
          nth j (nth k (codebook (vq_after r)) []) (const 0) =
            sdiv (nth j (nth k (ema_means (vq_after r)) []) (const 0))
                 (sadd (nth k (ema_count (vq_after r)) (const 0))
                       (const 1e-5))) /\
  (forall (Image Distribution : Type)
      (log_prob : Distribution -> Image -> list R) (images : Image)
      (encoder_fn : Image -> list (list (list R)))
      (decoder_fn : list (list (list R)) -> Distribution)
      (vq : VectorQuantizer R) (beta decay : R) (b l : nat),
    wf_vq vq -> (0 < num_codes vq)%nat ->
    has_shape3 b l (code_size vq) (encoder_fn images) ->
    exists r nearest oh,
      make_vq_vae log_prob images encoder_fn decoder_fn vq beta decay
        = Some r /\
      call vq (encoder_fn images) = Some (nearest, oh) /\
      forall k, (k < num_codes vq)%nat ->
        nth k (ema_count (vq_after r)) 0 =
          decay * nth k (ema_count vq) 0
          + (1 - decay) * spec_batch_count oh k /\
        forall j, (j < code_size vq)%nat ->
          nth j (nth k (ema_means (vq_after r)) []) 0 =
            decay * nth j (nth k (ema_means vq) []) 0
            + (1 - decay) * spec_batch_mean (encoder_fn images) oh k j /\
          nth j (nth k (codebook (vq_after r)) []) 0 =
            nth j (nth k (ema_means (vq_after r)) []) 0
            / (nth k (ema_count (vq_after r)) 0 + 1e-5)) /\
  (exists r,
     make_vq_vae toy_log_prob tt scenario32_encoder toy_decoder scenario32_vq
                 0.25 0.5 = Some r /\
     nth 0 (ema_count (vq_after r)) (const 0) =
       S754_finite false 8388608 (-23) /\
     nth 0 (ema_means (vq_after r)) [] =
       [S754_finite false 8388608 (-24); S754_finite false 8388608 (-24)] /\
     nth 0 (updated_ema_count r) (const 0) =
       sadd (S754_finite false 8388608 (-23)) (const 1e-5) /\
     nth 0 (codebook (vq_after r)) [] =
       [sdiv (S754_finite false 8388608 (-24))
             (sadd (S754_finite false 8388608 (-23)) (const 1e-5));
        sdiv (S754_finite false 8388608 (-24))
             (sadd (S754_finite false 8388608 (-23)) (const 1e-5))]).
Proof.
  split; [|split].
  - intros T S Image Distribution log_prob images encoder_fn decoder_fn vq
      beta decay b l Hwf Hpos Hshape.
    destruct (call_total vq (encoder_fn images)) as (nearest & oh & Hcall).
    { destruct Hwf as ((Hlen & _) & _). intros Hnil.
      rewrite Hnil in Hlen. simpl in Hlen. lia. }
    destruct (make_vq_vae_total log_prob images encoder_fn decoder_fn vq
                beta decay nearest oh Hcall) as [r Hr].
    destruct (step_as_computed _ _ _ _ _ _ _ _ _ r Hwf Hshape Hr)
      as (nearest' & oh' & Hcall' & _ & _ & _ & Hform).
    rewrite Hcall in Hcall'. injection Hcall' as <- <-.
    exists r, nearest, oh. split; [exact Hr|]. split; [exact Hcall|].
    exact Hform.
  - intros Image Distribution log_prob images encoder_fn decoder_fn vq beta
      decay b l Hwf Hpos Hshape.
    destruct (ema_codebook_update_exact log_prob images encoder_fn decoder_fn
                vq beta decay b l Hwf Hpos Hshape)
      as (r & nearest & oh & Hr & Hcall & Hform & _).
    exists r, nearest, oh. auto.
  - destruct (make_vq_vae_total toy_log_prob tt scenario32_encoder
                toy_decoder scenario32_vq 0.25 0.5 _ _ scenario32_call)
      as [r Hr].
    exists r. split; [exact Hr|].
    destruct (scenario32_update r Hr) as (Hc & Hm & Hu & Hcb).
    split; [exact Hc|]. split; [exact Hm|].
    rewrite Hu, Hcb, const_epsilon. split; vm_compute; reflexivity.
Qed.

Lemma ema_update_as_computed_witness :
  exists r nearest oh,
    make_vq_vae toy_log_prob tt mean_encoder toy_decoder mean_vq 0.25 0.99
      = Some r /\
    call mean_vq (mean_encoder tt) = Some (nearest, oh) /\
    forall k, (k < num_codes mean_vq)%nat ->
      nth k (ema_count (vq_after r)) (const 0) =
        ssub (nth k (ema_count mean_vq) (const 0))
             (smul (ssub (nth k (ema_count mean_vq) (const 0))
                         (batch_count_of oh k))
                   (const (1 - 0.99))) /\
      forall j, (j < code_size mean_vq)%nat ->
        nth j (nth k (ema_means (vq_after r)) []) (const 0) =
          ssub (nth j (nth k (ema_means mean_vq) []) (const 0))
               (smul (ssub (nth j (nth k (ema_means mean_vq) []) (const 0))
                           (batch_mean_of (mean_encoder tt) oh k j))
                     (const (1 - 0.99))) /\
        nth j (nth k (codebook (vq_after r)) []) (const 0) =
          sdiv (nth j (nth k (ema_means (vq_after r)) []) (const 0))
               (sadd (nth k (ema_count (vq_after r)) (const 0))
                     (const 1e-5)).
Proof.
  apply (proj1 ema_update_as_computed spec_float F32_Scalar unit _
               toy_log_prob tt mean_encoder toy_decoder mean_vq
               0.25 0.99 1%nat 1%nat).
  - shape_tac.
  - simpl. lia.
  - shape_tac.
Defined.

Lemma mean_call :
  call mean_vq (mean_encoder tt) =
  Some ([[[S754_finite false 11744051 (-24)]]],
        [[[S754_finite false 8388608 (-23)]]]).
Proof. unfold mean_vq, mean_encoder. expose_call. f32_eval. Qed.

(** In float32 with decay 0.99, the codebook entry [0.7] as [__init__]
    leaves it and the code [0.8] assigned to it, the run stores
    [11760828 * 2^-24] in [ema_means]: neither the float32 value of
    [decay * old + (1 - decay) * batch], which is the next float32 above,
    nor the real number [0.99 * old + 0.01 * batch]. *)
Lemma float32_ema_means_inexact :
  exists r nearest oh,
    make_vq_vae toy_log_prob tt mean_encoder toy_decoder mean_vq 0.25 0.99
      = Some r /\
    call mean_vq (mean_encoder tt) = Some (nearest, oh) /\
    nth 0 (nth 0 (ema_means mean_vq) []) (const 0) =
      S754_finite false 11744051 (-24) /\
    batch_mean_of (mean_encoder tt) oh 0 0 =
      S754_finite false 13421773 (-24) /\
    nth 0 (nth 0 (ema_means (vq_after r)) []) (const 0) =
      S754_finite false 11760828 (-24) /\
    sadd (smul (const 0.99) (nth 0 (nth 0 (ema_means mean_vq) []) (const 0)))
         (smul (const (1 - 0.99)) (batch_mean_of (mean_encoder tt) oh 0 0)) =
      S754_finite false 11760829 (-24) /\
    value (nth 0 (nth 0 (ema_means (vq_after r)) []) (const 0)) <>
      0.99 * value (nth 0 (nth 0 (ema_means mean_vq) []) (const 0))
      + (1 - 0.99) * value (batch_mean_of (mean_encoder tt) oh 0 0).
Proof.
  destruct (make_vq_vae_total toy_log_prob tt mean_encoder toy_decoder
              mean_vq 0.25 0.99 _ _ mean_call) as [r Hr].
  destruct (make_vq_vae_inv _ _ _ _ _ _ _ _ Hr)
    as (nearest & oh & Hcall & _ & Hmeans & _).
  rewrite mean_call in Hcall. injection Hcall as <- <-.
  assert (Ho : nth 0 (nth 0 (ema_means mean_vq) []) (const 0) =
               S754_finite false 11744051 (-24))
    by (vm_compute; reflexivity).
  assert (Hb : batch_mean_of (mean_encoder tt)
                 [[[S754_finite false 8388608 (-23)]]] 0 0 =
               S754_finite false 13421773 (-24)).
  { unfold mean_encoder. expose_update. f32_update. }
  assert (Hm : nth 0 (nth 0 (ema_means (vq_after r)) []) (const 0) =
               S754_finite false 11760828 (-24)).
  { rewrite Hmeans. unfold mean_vq, mean_encoder. expose_update.
    f32_update. }
  eexists r, _, _. split; [exact Hr|]. split; [exact mean_call|].
  split; [exact Ho|]. split; [exact Hb|]. split; [exact Hm|]. split.
  - rewrite Hb, Ho. f32_update.
  - rewrite Hm, Hb, Ho. cbn [value F32_Scalar].
    replace (Q2R (to_Q (S754_finite false 11760828 (-24))))
      with (Q2R (11760828 # 16777216)%Q)
      by (apply Qreals.Qeq_eqR; reflexivity).
    replace (Q2R (to_Q (S754_finite false 11744051 (-24))))
      with (Q2R (11744051 # 16777216)%Q)
      by (apply Qreals.Qeq_eqR; reflexivity).
    replace (Q2R (to_Q (S754_finite false 13421773 (-24))))
      with (Q2R (13421773 # 16777216)%Q)
      by (apply Qreals.Qeq_eqR; reflexivity).
    unfold Q2R. cbn [Qnum Qden]. lra.
Qed.

(** C6.  In float32, for finite codes: when no position of the batch is
    assigned to code [k], the batch count and the batch vector sum of [k]
    are zero and the run replaces [ema_count[k]] and every component [v] of
    [ema_means[k]] by [v - v * (1 - decay)], the product and the difference
    rounded and [1 - decay] rounded first; nothing of the batch is added.
    In exact real arithmetic that is [decay * v]. *)
Theorem zero_assignment_as_computed :
  (forall (Image Distribution : Type)
      (log_prob : Distribution -> Image -> list spec_float) (images : Image)
      (encoder_fn : Image -> list (list (list spec_float)))
      (decoder_fn : list (list (list spec_float)) -> Distribution)
      (vq : VectorQuantizer spec_float) (beta decay : R) (b l : nat),
    wf_vq vq -> (0 < num_codes vq)%nat ->
    has_shape3 b l (code_size vq) (encoder_fn images) ->
    Forall (Forall (Forall is_finite)) (encoder_fn images) ->
    exists r nearest oh,
      make_vq_vae log_prob images encoder_fn decoder_fn vq beta decay
        = Some r /\
      call vq (encoder_fn images) = Some (nearest, oh) /\
      forall k, (k < num_codes vq)%nat -> unassigned_in k oh ->
        batch_count_of oh k = const 0 /\
        (forall j, batch_mean_of (encoder_fn images) oh k j = const 0) /\
        nth k (ema_count (vq_after r)) (const 0) =
          ssub (nth k (ema_count vq) (const 0))
               (smul (nth k (ema_count vq) (const 0)) (const (1 - decay))) /\
        forall j, (j < code_size vq)%nat ->
          nth j (nth k (ema_means (vq_after r)) []) (const 0) =
          ssub (nth j (nth k (ema_means vq) []) (const 0))
               (smul (nth j (nth k (ema_means vq) []) (const 0))
                     (const (1 - decay)))) /\
  (forall (Image Distribution : Type)
      (log_prob : Distribution -> Image -> list R) (images : Image)
      (encoder_fn : Image -> list (list (list R)))
      (decoder_fn : list (list (list R)) -> Distribution)
      (vq : VectorQuantizer R) (beta decay : R) (b l : nat),
    wf_vq vq -> (0 < num_codes vq)%nat ->
    has_shape3 b l (code_size vq) (encoder_fn images) ->
    exists r nearest oh,
      make_vq_vae log_prob images encoder_fn decoder_fn vq beta decay
        = Some r /\
      call vq (encoder_fn images) = Some (nearest, oh) /\
      forall k, (k < num_codes vq)%nat -> unassigned k oh ->
        spec_batch_count oh k = 0 /\
        (forall j, spec_batch_mean (encoder_fn images) oh k j = 0) /\
        nth k (ema_count (vq_after r)) 0 = decay * nth k (ema_count vq) 0 /\
        forall j, (j < code_size vq)%nat ->
          nth j (nth k (ema_means (vq_after r)) []) 0 =
          decay * nth j (nth k (ema_means vq) []) 0).
Proof.
  split.
  - intros Image Distribution log_prob images encoder_fn decoder_fn vq beta
      decay b l Hwf Hpos Hshape Hfin.
    destruct (call_total vq (encoder_fn images)) as (nearest & oh & Hcall).
    { destruct Hwf as ((Hlen & _) & _). intros Hnil.
      rewrite Hnil in Hlen. simpl in Hlen. lia. }
    destruct (make_vq_vae_total log_prob images encoder_fn decoder_fn vq
                beta decay nearest oh Hcall) as [r Hr].
    destruct (step_as_computed _ _ _ _ _ _ _ _ _ r Hwf Hshape Hr)
      as (nearest' & oh' & Hcall' & _ & _ & _ & Hform).
    rewrite Hcall in Hcall'. injection Hcall' as <- <-.
    exists r, nearest, oh. split; [exact Hr|]. split; [exact Hcall|].
    intros k Hk Hun. destruct (Hform k Hk) as (Hc & Hm).
    split; [now apply unassigned_count|].
    split; [intros j; now apply unassigned_mean|].
    split.
    + rewrite Hc, unassigned_count by assumption.
      unfold assign_moving_average. now rewrite minus_zero.
    + intros j Hj. destruct (Hm j Hj) as (Hm1 & _).
      rewrite Hm1, unassigned_mean by assumption.
      unfold assign_moving_average. now rewrite minus_zero.
  - intros Image Distribution log_prob images encoder_fn decoder_fn vq beta
      decay b l Hwf Hpos Hshape.
    exact (zero_assignment_decay_exact log_prob images encoder_fn decoder_fn
             vq beta decay b l Hwf Hpos Hshape).
Qed.

Lemma idle_call :
  call idle_vq (idle_encoder tt) =
  Some ([[[S754_zero false]]],
        [[[S754_finite false 8388608 (-23); S754_zero false]]]).
Proof. unfold idle_vq, idle_encoder. expose_call. f32_eval. Qed.

Lemma zero_assignment_as_computed_witness :
  exists r nearest oh,
    make_vq_vae toy_log_prob tt idle_encoder toy_decoder idle_vq 0.25 0.99
      = Some r /\
    call idle_vq (idle_encoder tt) = Some (nearest, oh) /\
    forall k, (k < num_codes idle_vq)%nat -> unassigned_in k oh ->
      batch_count_of oh k = const 0 /\
      (forall j, batch_mean_of (idle_encoder tt) oh k j = const 0) /\
      nth k (ema_count (vq_after r)) (const 0) =
        ssub (nth k (ema_count idle_vq) (const 0))
             (smul (nth k (ema_count idle_vq) (const 0))
                   (const (1 - 0.99))) /\
      forall j, (j < code_size idle_vq)%nat ->
        nth j (nth k (ema_means (vq_after r)) []) (const 0) =
        ssub (nth j (nth k (ema_means idle_vq) []) (const 0))
             (smul (nth j (nth k (ema_means idle_vq) []) (const 0))
                   (const (1 - 0.99))).
Proof.
  apply (proj1 zero_assignment_as_computed unit _ toy_log_prob tt
               idle_encoder toy_decoder idle_vq 0.25 0.99 1%nat 1%nat).
  - shape_tac.
  - simpl. lia.
  - shape_tac.
  - repeat constructor.
Defined.

(** In float32 with decay 0.99, the codebook entry [0.7] as [__init__]
    leaves it and assigned nothing is left at [0.69299996] in [ema_means]:
    neither the float32 product [decay * 0.7], which is the next float32
    above, nor the real number [0.99 * 0.7]. *)
Lemma float32_idle_code_inexact :
  exists r nearest oh,
    make_vq_vae toy_log_prob tt idle_encoder toy_decoder idle_vq 0.25 0.99
      = Some r /\
    call idle_vq (idle_encoder tt) = Some (nearest, oh) /\
    unassigned_in 1 oh /\
    nth 0 (nth 1 (ema_means idle_vq) []) (const 0) =
      S754_finite false 11744051 (-24) /\
    nth 0 (nth 1 (ema_means (vq_after r)) []) (const 0) =
      S754_finite false 11626610 (-24) /\
    smul (const 0.99) (nth 0 (nth 1 (ema_means idle_vq) []) (const 0)) =
      S754_finite false 11626611 (-24) /\
    value (nth 0 (nth 1 (ema_means (vq_after r)) []) (const 0)) <>
      0.99 * value (nth 0 (nth 1 (ema_means idle_vq) []) (const 0)).
Proof.
  destruct (make_vq_vae_total toy_log_prob tt idle_encoder toy_decoder
              idle_vq 0.25 0.99 _ _ idle_call) as [r Hr].
  destruct (make_vq_vae_inv _ _ _ _ _ _ _ _ Hr)
    as (nearest & oh & Hcall & _ & Hmeans & _).
  rewrite idle_call in Hcall. injection Hcall as <- <-.
  assert (Ho : nth 0 (nth 1 (ema_means idle_vq) []) (const 0) =
               S754_finite false 11744051 (-24))
    by (vm_compute; reflexivity).
  assert (Hm : nth 0 (nth 1 (ema_means (vq_after r)) []) (const 0) =
               S754_finite false 11626610 (-24)).
  { rewrite Hmeans. unfold idle_vq, idle_encoder. expose_update.
    f32_update. }
  eexists r, _, _. split; [exact Hr|]. split; [exact idle_call|].
  split.
  { unfold unassigned_in. repeat constructor. cbn [nth].
    now rewrite const_0. }
  split; [exact Ho|]. split; [exact Hm|]. split.
  - rewrite Ho. f32_update.
  - rewrite Hm, Ho. cbn [value F32_Scalar].
    replace (Q2R (to_Q (S754_finite false 11626610 (-24))))
      with (Q2R (11626610 # 16777216)%Q)
      by (apply Qreals.Qeq_eqR; reflexivity).
    replace (Q2R (to_Q (S754_finite false 11744051 (-24))))
      with (Q2R (11744051 # 16777216)%Q)
      by (apply Qreals.Qeq_eqR; reflexivity).
    unfold Q2R. cbn [Qnum Qden]. lra.
Qed.

End Float32Facts.
